(** * chroma-admin: the protocol client and the embedding analysis engine

    A shallow embedding of the client-side data layer of the admin console.

    Definitions, one module per source file:
    - [Storage]   : src/lib/storage.ts (connection settings, auth headers);
    - [Zod]       : src/lib/zodSchemas.ts (structural validation of server JSON);
    - [Client]    : the HTTP client (error type, fetch wrapper, version and
                    capability detection, paginated export);
    - [Analysis]  : the cosine-similarity matrix of SimilarityHeatmap.tsx and
                    the PCA projection and k-means of EmbeddingScatter.tsx;
    - [Scenarios] : a few concrete servers and inputs;
    - [ClientOps] : the other operations of the client (query, the write
                    operations), the connection indicator of
                    src/lib/connectionContext.tsx and the proxy rewrite of
                    vite.config.ts;
    - [Servers]   : more concrete servers;
    - [Profiles]  : the base URL setter and the server profiles of
                    src/lib/storage.ts;
    - [JsArray], [AuditLog], [GrowthTracker] : the audit log and the growth
                    tracker, with the array operations they use;
    - [Charts]    : the callers of the analysis engine (the Visualize tab, the
                    groups of the scatter plot, the canvas of the heatmap).
    Then the properties, in the same order.

    JavaScript numbers are IEEE-754 binary64 values: they are modelled by
    primitive floats.  Counts, offsets and array indices, which the code only
    uses at integer values below 2^53 (where the arithmetic of doubles is
    exact), are modelled by [Z] and [nat].  A JavaScript string is modelled
    by the [string] of its UTF-8 bytes.  Code that awaits promises is a state
    and exception monad over the session's world; the server is a function
    from the history of the session and a request to a reply. *)

From Stdlib Require Import ZArith List String Ascii Bool Lia Floats DecimalString.
From stdpp Require Import base option list gmap strings.

Set Warnings "-register-all".

Open Scope string_scope.
Open Scope Z_scope.

(* ===================================================================== *)
(** ** src/lib/storage.ts *)
(* ===================================================================== *)

Module Storage.

Inductive ConnectionMode := direct | proxy.

(** [type AuthType = "none" | "token" | "basic" | "x-chroma-token"] *)
Inductive AuthType := auth_none | auth_token | auth_basic | auth_x_chroma_token.

(** [interface AuthCredentials]: every field is optional. *)
Record AuthCredentials := mkCreds {
  token    : option string;
  username : option string;
  password : option string;
}.

(** The four keys of [STORAGE_KEYS] in [localStorage].  [None] is what
    [getItem] answers (null) for a key that was never set or was removed.
    The values are the ones [setAuth], [setBaseUrl] and [setConnectionMode]
    wrote, read back through the casts of the getters. *)
Record LocalStorage := mkStorage {
  BASE_URL         : option string;
  CONNECTION_MODE  : option ConnectionMode;
  AUTH_TYPE        : option AuthType;
  AUTH_CREDENTIALS : option AuthCredentials;
}.

Definition emptyStorage : LocalStorage := mkStorage None None None None.

(** [getBaseUrl]: the stored URL, else the build-time constant
    [import.meta.env.VITE_DEFAULT_CHROMA_URL] (taken as a parameter), else the
    literal default. *)
Definition getBaseUrl (VITE_DEFAULT_CHROMA_URL : option string) (ls : LocalStorage) : string :=
  match BASE_URL ls with
  | Some u => u
  | None => match VITE_DEFAULT_CHROMA_URL with
            | Some u => u
            | None => "http://localhost:8000"
            end
  end.

Definition getConnectionMode (ls : LocalStorage) : ConnectionMode :=
  match CONNECTION_MODE ls with Some m => m | None => direct end.

Definition setConnectionMode (m : ConnectionMode) (ls : LocalStorage) : LocalStorage :=
  mkStorage (BASE_URL ls) (Some m) (AUTH_TYPE ls) (AUTH_CREDENTIALS ls).

Definition getAuthType (ls : LocalStorage) : AuthType :=
  match AUTH_TYPE ls with Some t => t | None => auth_none end.

Definition getAuthCredentials (ls : LocalStorage) : AuthCredentials :=
  match AUTH_CREDENTIALS ls with
  | Some c => c
  | None => mkCreds None None None
  end.

Definition setAuth (t : AuthType) (c : AuthCredentials) (ls : LocalStorage) : LocalStorage :=
  mkStorage (BASE_URL ls) (CONNECTION_MODE ls) (Some t) (Some c).

Definition clearAuth (ls : LocalStorage) : LocalStorage :=
  mkStorage (BASE_URL ls) (CONNECTION_MODE ls) None None.

(** JavaScript truthiness of an optional string: absent and the empty
    string are both falsy. *)
Definition truthy (s : option string) : bool :=
  match s with
  | Some (String _ _) => true
  | _ => false
  end.

(** [creds.password ?? ""] and the value of a truthy optional string. *)
Definition orEmpty (s : option string) : string :=
  match s with Some v => v | None => "" end.

(** *** [btoa]: the browser's base64 encoder.

    A JavaScript string is a sequence of UTF-16 code units; a [string] of
    the model holds the UTF-8 encoding of the text.  [btoa] takes each code
    unit for one byte and raises [InvalidCharacterError] on a code unit above
    U+00FF.  In UTF-8 the characters up to U+007F are one byte and those
    from U+0080 to U+00FF are the two-byte sequences that start with C2 or
    C3; every other character is above U+00FF.  A [string] that is not the
    encoding of a text stands for no JavaScript string; [latin1] has no value
    there either. *)
Fixpoint latin1 (bytes : list N) : option (list N) :=
  match bytes with
  | [] => Some []
  | b :: rest =>
      if (b <? 128)%N then cons b <$> latin1 rest
      else if (b =? 194)%N || (b =? 195)%N then
        match rest with
        | c :: rest' =>
            if (128 <=? c)%N && (c <? 192)%N
            then cons ((b - 192) * 64 + (c - 128))%N <$> latin1 rest'
            else None
        | [] => None
        end
      else None
  end.

Definition b64_alphabet : list ascii :=
  list_ascii_of_string
    "ABCDEFGHIJKLMNOPQRSTUVWXYZabcdefghijklmnopqrstuvwxyz0123456789+/".

Definition b64_digit (n : N) : ascii :=
  nth (N.to_nat n) b64_alphabet "="%char.

Fixpoint b64_encode (bytes : list N) : string :=
  match bytes with
  | [] => ""
  | [a] =>
      String (b64_digit (N.shiftr a 2))
      (String (b64_digit (N.shiftl (N.land a 3) 4)) "==")
  | [a; b] =>
      String (b64_digit (N.shiftr a 2))
      (String (b64_digit (N.lor (N.shiftl (N.land a 3) 4) (N.shiftr b 4)))
      (String (b64_digit (N.shiftl (N.land b 15) 2)) "="))
  | a :: b :: c :: rest =>
      String (b64_digit (N.shiftr a 2))
      (String (b64_digit (N.lor (N.shiftl (N.land a 3) 4) (N.shiftr b 4)))
      (String (b64_digit (N.lor (N.shiftl (N.land b 15) 2) (N.shiftr c 6)))
      (String (b64_digit (N.land c 63)) (b64_encode rest))))
  end.

(** [btoa(s)]: [None] when it throws. *)
Definition btoa (s : string) : option string :=
  b64_encode <$> latin1 (map N_of_ascii (list_ascii_of_string s)).

(** [getAuthHeaders(): Record<string, string>]; [None] when the call
    throws, which only [btoa] can make it do. *)
Definition getAuthHeaders (ls : LocalStorage) : option (gmap string string) :=
  let type := getAuthType ls in
  let creds := getAuthCredentials ls in
  match type with
  | auth_token =>
      if truthy (token creds)
      then Some {[ "Authorization" := "Bearer " ++ orEmpty (token creds) ]}
      else Some ∅
  | auth_basic =>
      if negb (truthy (username creds)) then Some ∅
      else
        encoded ← btoa (orEmpty (username creds) ++ ":" ++ orEmpty (password creds));
        Some {[ "Authorization" := "Basic " ++ encoded ]}
  | auth_x_chroma_token =>
      if truthy (token creds)
      then Some {[ "X-Chroma-Token" := orEmpty (token creds) ]}
      else Some ∅
  | auth_none => Some ∅
  end.

(** The credential the selected auth type needs is missing. *)
Definition credentialMissing (ls : LocalStorage) : bool :=
  match getAuthType ls with
  | auth_token | auth_x_chroma_token => negb (truthy (token (getAuthCredentials ls)))
  | auth_basic => negb (truthy (username (getAuthCredentials ls)))
  | auth_none => false
  end.

End Storage.

(* ===================================================================== *)
(** ** src/lib/zodSchemas.ts *)
(* ===================================================================== *)

Module Zod.

(** A decoded JSON value, as [res.json()] hands it to [schema.parse]. *)
Inductive Json :=
| JNull
| JBool (b : bool)
| JNum (x : float)
| JStr (s : string)
| JArr (items : list Json)
| JObj (fields : list (string * Json)).

(** Property lookup [obj[key]]; [None] is [undefined]. *)
Fixpoint get_field (key : string) (fields : list (string * Json)) : option Json :=
  match fields with
  | [] => None
  | (k, v) :: rest => if String.eqb k key then Some v else get_field key rest
  end.

(** The result of [schema.parse]: the parsed value, or a thrown [ZodError]
    (the model keeps a one-line description in place of zod's issue list). *)
Inductive ZodResult (A : Type) :=
| ZodOk (a : A)
| ZodError (message : string).
Arguments ZodOk {A} a.
Arguments ZodError {A} message.

#[global] Instance zod_ret : MRet ZodResult := fun A a => ZodOk a.
#[global] Instance zod_bind : MBind ZodResult := fun A B f m =>
  match m with
  | ZodOk a => f a
  | ZodError msg => ZodError msg
  end.
#[global] Instance zod_fmap : FMap ZodResult := fun A B f m =>
  match m with
  | ZodOk a => ZodOk (f a)
  | ZodError msg => ZodError msg
  end.

(** A schema, applied to a value that may be [undefined] (a missing key). *)
Definition ZodType (A : Type) : Type := option Json -> ZodResult A.

(** A value that may be [null] or [undefined]: [.nullable().optional()]. *)
Inductive Nullish (A : Type) :=
| Undefined
| Null
| Present (a : A).
Arguments Undefined {A}.
Arguments Null {A}.
Arguments Present {A} a.

Definition z_string : ZodType string := fun j =>
  match j with
  | Some (JStr s) => ZodOk s
  | _ => ZodError "Expected string"
  end.

(** [z.number()] refuses NaN. *)
Definition z_number : ZodType float := fun j =>
  match j with
  | Some (JNum x) => if PrimFloat.is_nan x then ZodError "Expected number, received nan" else ZodOk x
  | _ => ZodError "Expected number"
  end.

Definition z_unknown : ZodType (option Json) := fun j => ZodOk j.

Fixpoint z_all {A} (item : ZodType A) (l : list Json) : ZodResult (list A) :=
  match l with
  | [] => ZodOk []
  | j :: rest =>
      match item (Some j), z_all item rest with
      | ZodOk a, ZodOk r => ZodOk (a :: r)
      | ZodError msg, _ => ZodError msg
      | _, ZodError msg => ZodError msg
      end
  end.

Definition z_array {A} (item : ZodType A) : ZodType (list A) := fun j =>
  match j with
  | Some (JArr l) => z_all item l
  | _ => ZodError "Expected array"
  end.

(** [z.record(z.unknown())]: any object, values unchecked. *)
Definition z_record_unknown : ZodType (list (string * Json)) := fun j =>
  match j with
  | Some (JObj fields) => ZodOk fields
  | _ => ZodError "Expected object"
  end.

Definition z_nullable {A} (inner : ZodType A) : ZodType (option A) := fun j =>
  match j with
  | Some JNull => ZodOk None
  | _ => Some <$> inner j
  end.

Definition z_optional {A} (inner : ZodType A) : ZodType (option A) := fun j =>
  match j with
  | None => ZodOk None
  | _ => Some <$> inner j
  end.

(** [inner.nullable().optional()] *)
Definition z_nullable_optional {A} (inner : ZodType A) : ZodType (Nullish A) := fun j =>
  match j with
  | None => ZodOk Undefined
  | Some JNull => ZodOk Null
  | _ => Present <$> inner j
  end.

(** [z.object({...})]: the value must be an object; the body reads its keys. *)
Definition z_object {A} (body : list (string * Json) -> ZodResult A) : ZodType A := fun j =>
  match j with
  | Some (JObj fields) => body fields
  | _ => ZodError "Expected object"
  end.

(** [HeartbeatSchema] (passthrough: the other keys are kept). *)
Record Heartbeat := mkHeartbeat {
  nanosecond_heartbeat : option float;
  heartbeat_rest : list (string * Json);
}.

Definition HeartbeatSchema : ZodType Heartbeat :=
  z_object (fun o =>
    hb ← z_optional z_number (get_field "nanosecond heartbeat" o);
    mret (mkHeartbeat hb o)).

Definition VersionSchema : ZodType string := z_string.

(** [CollectionSchema] *)
Record Collection := mkCollection {
  id : string;
  name : string;
  metadata : Nullish (list (string * Json));
  tenant : option string;
  database : option string;
}.

Definition CollectionSchema : ZodType Collection :=
  z_object (fun o =>
    i ← z_string (get_field "id" o);
    n ← z_string (get_field "name" o);
    m ← z_nullable_optional z_record_unknown (get_field "metadata" o);
    t ← z_optional z_string (get_field "tenant" o);
    d ← z_optional z_string (get_field "database" o);
    mret (mkCollection i n m t d)).

Definition CollectionListSchema : ZodType (list Collection) := z_array CollectionSchema.

(** [GetItemsResponseSchema]: the ItemBatch of the wire protocol. *)
Record GetItemsResponse := mkItems {
  ids : list string;
  embeddings : Nullish (list (option (list float)));
  documents : Nullish (list (option string));
  metadatas : Nullish (list (option (list (string * Json))));
  uris : Nullish (list (option string));
}.

Definition GetItemsResponseSchema : ZodType GetItemsResponse :=
  z_object (fun o =>
    i ← z_array z_string (get_field "ids" o);
    e ← z_nullable_optional (z_array (z_nullable (z_array z_number))) (get_field "embeddings" o);
    d ← z_nullable_optional (z_array (z_nullable z_string)) (get_field "documents" o);
    m ← z_nullable_optional (z_array (z_nullable z_record_unknown)) (get_field "metadatas" o);
    u ← z_nullable_optional (z_array (z_nullable z_string)) (get_field "uris" o);
    mret (mkItems i e d m u)).

Definition CountSchema : ZodType float := z_number.

(** Every present parallel array of the batch has as many entries as [ids]
    (the invariant the specification states for an ItemBatch). *)
Definition field_aligned {A} (n : nat) (field : Nullish (list A)) : Prop :=
  match field with
  | Present l => length l = n
  | _ => True
  end.

Definition aligned (b : GetItemsResponse) : Prop :=
  field_aligned (length (ids b)) (documents b) /\
  field_aligned (length (ids b)) (metadatas b) /\
  field_aligned (length (ids b)) (embeddings b).

(** The length of a JSON array ([None] for anything else). *)
Definition json_array_length (j : option Json) : option nat :=
  match j with
  | Some (JArr l) => Some (length l)
  | _ => None
  end.

(** A parallel array that is present with [n] entries. *)
Definition field_full {A} (n : nat) (field : Nullish (list A)) : Prop :=
  exists l, field = Present l /\ length l = n.

End Zod.

(* ===================================================================== *)
(** ** The protocol client (HTTP wrapper, capability detection, export) *)
(* ===================================================================== *)

Module Client.
Import Storage Zod.

(** *** Error type *)

(** [class ChromaError extends Error]: [name] is the constant
    ["ChromaError"]; [status] is [undefined] unless the constructor got one;
    [isCors] defaults to [false]. *)
Record ChromaError := mkChromaError {
  message : string;
  status : option Z;
  isCors : bool;
}.

Definition newChromaError (msg : string) (st : option Z) (cors : option bool) : ChromaError :=
  mkChromaError msg st (default false cors).

(** An error object of the platform ([TypeError], a [DOMException], ...). *)
Record JsError := mkJsError {
  err_name : string;
  err_message : string;
}.

(** What a [throw] or a rejected promise may carry inside the client. *)
Inductive Thrown :=
| ThrownChroma (e : ChromaError)
| ThrownZod (zod_message : string)
| ThrownJs (e : JsError).

(** *** The network *)

(** An [AbortSignal]: it fires [abort_after] ms after the request starts and
    makes the pending call reject with a [DOMException] named [abort_name]
    (["AbortError"] for [controller.abort()], ["TimeoutError"] for
    [AbortSignal.timeout]). *)
Record AbortSignal := mkSignal {
  abort_after : Z;
  abort_name : string;
}.

(** The arguments of one [fetch] call; [body] is the value handed to
    [JSON.stringify]. *)
Record Request := mkRequest {
  url : string;
  method : string;
  headers : gmap string string;
  body : option Json;
  signal : option AbortSignal;
}.

(** A [Response]: [res_text] is [None] when [res.text()] rejects, [res_json]
    is the decoded body or the error [res.json()] rejects with. *)
Record Response := mkResponse {
  res_status : Z;
  res_statusText : string;
  res_text : option string;
  res_json : JsError + Json;
}.

Definition res_ok (r : Response) : bool :=
  (200 <=? res_status r) && (res_status r <? 300).

Inductive FetchOutcome :=
| Rejects (e : JsError)
| Responds (r : Response).

(** What the transport does with a request: after [latency] ms it settles
    with [outcome], unless the request's signal fired first. *)
Record NetReply := mkReply {
  latency : Z;
  outcome : FetchOutcome;
}.

(** What an observer of the session sees, in order: the calls of [fetch],
    each with its request, and the calls of the export's progress callback. *)
Inductive Event :=
| EvFetch (r : Request)
| EvProgress (fetched : nat).

(** The server and transport: a reply for every request, which may depend
    on everything that happened before. *)
Definition Network : Type := list Event -> Request -> NetReply.

(** *** Session state *)

Inductive ApiVersion := v2 | v1.

Record Capabilities := mkCaps {
  heartbeat : bool;
  version : bool;
  listCollections_cap : bool;
  getCollection_cap : bool;
  countCollection_cap : bool;
  getItems_cap : bool;
  query_cap : bool;
  apiVersion : option ApiVersion;
}.

(** The module-level variables [detectedApiVersion] and
    [cachedCapabilities], the browser's [localStorage], and the observed
    events. *)
Record World := mkWorld {
  storage : LocalStorage;
  detectedApiVersion : option ApiVersion;
  cachedCapabilities : option Capabilities;
  log : list Event;
}.

Definition initialWorld (ls : LocalStorage) : World := mkWorld ls None None [].

(** *** Promise-returning code: state passing with exceptions *)

Inductive Outcome (A : Type) :=
| Returns (a : A)
| Throws (t : Thrown).
Arguments Returns {A} a.
Arguments Throws {A} t.

Definition M (A : Type) : Type := World -> Outcome A * World.

#[global] Instance M_ret : MRet M := fun A a w => (Returns a, w).
#[global] Instance M_bind : MBind M := fun A B f m w =>
  match m w with
  | (Returns a, w') => f a w'
  | (Throws t, w') => (Throws t, w')
  end.

Definition throw {A} (t : Thrown) : M A := fun w => (Throws t, w).

Definition try_catch {A} (body : M A) (handler : Thrown -> M A) : M A := fun w =>
  match body w with
  | (Returns a, w') => (Returns a, w')
  | (Throws t, w') => handler t w'
  end.

Definition gets {A} (f : World -> A) : M A := fun w => (Returns (f w), w).

Definition record_event (e : Event) (w : World) : World :=
  mkWorld (storage w) (detectedApiVersion w) (cachedCapabilities w) (log w ++ [e]).

Definition set_detectedApiVersion (v : ApiVersion) : M unit := fun w =>
  (Returns tt, mkWorld (storage w) (Some v) (cachedCapabilities w) (log w)).

Definition set_cachedCapabilities (c : Capabilities) : M unit := fun w =>
  (Returns tt, mkWorld (storage w) (detectedApiVersion w) (Some c) (log w)).

(** *** Strings *)

(** [s.includes(search)] *)
Fixpoint includes (s search : string) : bool :=
  String.prefix search s ||
  match s with
  | EmptyString => false
  | String _ rest => includes rest search
  end.

(** A number inside a template literal (integers only). *)
Definition string_of_Z (z : Z) : string := NilZero.string_of_int (Z.to_int z).

(** An integer as a JavaScript number: the nearest binary64 value (ties to
    even), which is the integer itself up to 2^53. *)
Definition number_of_Z (z : Z) : float :=
  SF2Prim (binary_normalize prec emax z 0 false).

(** The integer part (floor) of a finite JavaScript number. *)
Definition Z_of_number (x : float) : Z :=
  match Prim2SF x with
  | S754_finite s m e => Z.shiftl (if s then Z.neg m else Z.pos m) e
  | _ => 0
  end.

(** *** API version *)

Definition DEFAULT_TENANT : string := "default_tenant".
Definition DEFAULT_DATABASE : string := "default_database".

Definition versionString (v : ApiVersion) : string :=
  match v with v2 => "v2" | v1 => "v1" end.

(** [detectedApiVersion ?? "v2"] *)
Definition effectiveVersion (w : World) : ApiVersion :=
  match detectedApiVersion w with Some v => v | None => v2 end.

Definition apiPrefix (w : World) : string :=
  match effectiveVersion w with
  | v2 => "/api/v2/tenants/" ++ DEFAULT_TENANT ++ "/databases/" ++ DEFAULT_DATABASE
  | v1 => "/api/v1"
  end.

Definition apiBase (w : World) : string :=
  "/api/" ++ versionString (effectiveVersion w).

Definition DEFAULT_TIMEOUT : Z := 15000.

(** [RequestInit & { timeout?: number }] *)
Record FetchOpts := mkOpts {
  opt_method : option string;
  opt_body : option Json;
  opt_headers : gmap string string;
  opt_timeout : option Z;
}.

Definition noOpts : FetchOpts := mkOpts None None ∅ None.

Section Session.

(** The server the session talks to, and the build-time default URL. *)
Variable network : Network.
Variable VITE_DEFAULT_CHROMA_URL : option string.

(** [fetch(url, init)]: the call is observed, then it settles (a
    rejection includes the one of a request the platform refuses to send). *)
Definition fetch (req : Request) : M Response := fun w =>
  let reply := network (log w) req in
  let w' := record_event (EvFetch req) w in
  let settle :=
    match outcome reply with
    | Rejects e => (Throws (ThrownJs e), w')
    | Responds r => (Returns r, w')
    end in
  match signal req with
  | Some s =>
      if abort_after s <=? latency reply
      then (Throws (ThrownJs (mkJsError (abort_name s) "The operation was aborted.")), w')
      else settle
  | None => settle
  end.

Definition resolveUrl (path : string) (w : World) : string :=
  let mode := getConnectionMode (storage w) in
  let base := getBaseUrl VITE_DEFAULT_CHROMA_URL (storage w) in
  let cleanPath := if String.prefix "/" path then path else "/" ++ path in
  match mode with
  | proxy => "/api" ++ cleanPath
  | direct => base ++ cleanPath
  end.

(** [await res.json()] *)
Definition json_of (res : Response) : M Json :=
  match res_json res with
  | inl e => throw (ThrownJs e)
  | inr j => mret j
  end.

(** [schema.parse(json)] *)
Definition zod_parse {T} (schema : ZodType T) (j : Json) : M T :=
  match schema (Some j) with
  | ZodOk v => mret v
  | ZodError msg => throw (ThrownZod msg)
  end.

(** The [catch] clause of [chromaFetch]. *)
Definition classify (timeout : Z) (err : Thrown) : ChromaError :=
  match err with
  | ThrownChroma e => e
  | ThrownZod msg => newChromaError ("Invalid response shape: " ++ msg) None None
  | ThrownJs e =>
      if String.eqb (err_name e) "TypeError" &&
         (includes (err_message e) "Failed to fetch" ||
          includes (err_message e) "NetworkError" ||
          includes (err_message e) "Load failed")
      then newChromaError
             ("Network error – this is likely a CORS issue. " ++
              "Make sure the Chroma server has CORS enabled or use the Vite dev proxy.")
             None (Some true)
      else if String.eqb (err_name e) "AbortError"
      then newChromaError ("Request timed out after " ++ string_of_Z timeout ++ "ms") None None
      else newChromaError (err_message e) None None
  end.

(** The [DOMException] of [btoa]. *)
Definition invalidCharacterError : JsError :=
  mkJsError "InvalidCharacterError"
    "Failed to execute 'btoa' on 'Window': The string to be encoded contains characters outside of the Latin1 range.".

(** [getAuthHeaders()], read from the world's [localStorage]. *)
Definition authHeaders : M (gmap string string) := fun w =>
  match getAuthHeaders (storage w) with
  | Some h => (Returns h, w)
  | None => (Throws (ThrownJs invalidCharacterError), w)
  end.

Definition chromaFetch {T} (path : string) (schema : ZodType T) (opts : FetchOpts) : M T :=
  let timeout := default DEFAULT_TIMEOUT (opt_timeout opts) in
  url ← gets (resolveUrl path);
  try_catch
    (auth ← authHeaders;
     res ← fetch (mkRequest url (default "GET" (opt_method opts))
                    (opt_headers opts ∪ auth ∪ {[ "Content-Type" := "application/json" ]})
                    (opt_body opts)
                    (Some (mkSignal timeout "AbortError")));
     if negb (res_ok res) then
       let text := default "" (res_text res) in
       throw (ThrownChroma (newChromaError
         ("Chroma HTTP " ++ string_of_Z (res_status res) ++ ": " ++
          (if String.eqb text "" then res_statusText res else text))
         (Some (res_status res)) None))
     else
       j ← json_of res;
       zod_parse schema j)
    (fun err => throw (ThrownChroma (classify timeout err))).

(** *** Capability detection *)

Definition probeUrl (path : string) : M bool :=
  try_catch
    (url ← gets (resolveUrl path);
     auth ← authHeaders;
     res ← fetch (mkRequest url "GET" auth None (Some (mkSignal 5000 "TimeoutError")));
     mret (res_ok res))
    (fun _ => mret false).

Definition listCollections : M (list Collection) :=
  prefix ← gets apiPrefix;
  chromaFetch (prefix ++ "/collections") CollectionListSchema noOpts.

Definition getCollectionCount (collectionId : string) : M float :=
  prefix ← gets apiPrefix;
  chromaFetch (prefix ++ "/collections/" ++ collectionId ++ "/count") CountSchema noOpts.

(** [detectCapabilities].  [probeUrl] never throws, so inside the [try] only
    [listCollections] can reach the [catch], before any field is written. *)
Definition detectCapabilities : M Capabilities :=
  v2ok ← probeUrl "/api/v2/heartbeat";
  _ ← (if v2ok : bool then set_detectedApiVersion v2
       else
         v1ok ← probeUrl "/api/v1/heartbeat";
         set_detectedApiVersion (if v1ok : bool then v1 else v2));
  base ← gets apiBase;
  hb ← probeUrl (base ++ "/heartbeat");
  base ← gets apiBase;
  ver ← probeUrl (base ++ "/version");
  prefix ← gets apiPrefix;
  lc ← probeUrl (prefix ++ "/collections");
  detected ← gets detectedApiVersion;
  let caps := mkCaps hb ver lc false false false false detected in
  caps ← (if lc then
            try_catch
              (collections ← listCollections;
               match collections with
               | first :: _ =>
                   prefix ← gets apiPrefix;
                   gc ← probeUrl (prefix ++ "/collections/" ++ id first);
                   prefix ← gets apiPrefix;
                   cc ← probeUrl (prefix ++ "/collections/" ++ id first ++ "/count");
                   mret (mkCaps hb ver lc gc cc true true detected)
               | [] =>
                   mret (mkCaps hb ver lc true true true true detected)
               end)
              (fun _ => mret caps)
          else mret caps);
  _ ← set_cachedCapabilities caps;
  mret caps.

(** [testConnection]: here the fallback is "v1" without a second probe. *)
Definition testConnection : M (Heartbeat * string) :=
  v2ok ← probeUrl "/api/v2/heartbeat";
  _ ← set_detectedApiVersion (if v2ok : bool then v2 else v1);
  base ← gets apiBase;
  hb ← chromaFetch (base ++ "/heartbeat") HeartbeatSchema noOpts;
  base ← gets apiBase;
  ver ← chromaFetch (base ++ "/version") VersionSchema noOpts;
  mret (hb, ver).

(** *** Records *)

Record GetItemsParams := mkParams {
  limit : option Z;
  offset : option Z;
  include : option (list string);
  where_ : option (list (string * Json));
  ids_filter : option (list string);
}.

(** The request body of [getItems]: each key is written only when given. *)
Definition getItemsBody (params : GetItemsParams) : Json :=
  JObj
    (match limit params with Some n => [("limit", JNum (number_of_Z n))] | None => [] end ++
     match offset params with Some n => [("offset", JNum (number_of_Z n))] | None => [] end ++
     match include params with Some l => [("include", JArr (map JStr l))] | None => [] end ++
     match where_ params with Some o => [("where", JObj o)] | None => [] end ++
     match ids_filter params with Some l => [("ids", JArr (map JStr l))] | None => [] end).

Definition getItems (collectionId : string) (params : GetItemsParams) : M GetItemsResponse :=
  prefix ← gets apiPrefix;
  chromaFetch (prefix ++ "/collections/" ++ collectionId ++ "/get") GetItemsResponseSchema
    (mkOpts (Some "POST") (Some (getItemsBody params)) ∅ None).

(** *** Backup helper *)

(** The four accumulators of [getAllItems]. *)
Record Accum := mkAccum {
  allIds : list string;
  allDocs : list (option string);
  allMetas : list (option (list (string * Json)));
  allEmbeddings : list (option (list float));
}.

(** [field?.forEach((x) => acc.push(x))] *)
Definition pushAll {A} (acc : list A) (field : Nullish (list A)) : list A :=
  match field with
  | Present l => acc ++ l
  | _ => acc
  end.

Definition pageSize : Z := 500.

Definition pageParams (off : Z) : GetItemsParams :=
  mkParams (Some pageSize) (Some off) (Some ["documents"; "metadatas"; "embeddings"]) None None.

(** The [for] loop of [getAllItems]; [fuel] bounds the number of turns. *)
Fixpoint getAllItems_loop (fuel : nat) (collectionId : string) (totalCount : Z)
    (onProgress : option (nat -> M unit)) (off : Z) (acc : Accum) : M Accum :=
  match fuel with
  | O => mret acc
  | S fuel' =>
      if off <? totalCount then
        page ← getItems collectionId (pageParams off);
        let acc' := mkAccum (allIds acc ++ ids page)
                            (pushAll (allDocs acc) (documents page))
                            (pushAll (allMetas acc) (metadatas page))
                            (pushAll (allEmbeddings acc) (embeddings page)) in
        _ ← match onProgress with
            | Some f => f (length (allIds acc'))
            | None => mret tt
            end;
        getAllItems_loop fuel' collectionId totalCount onProgress (off + pageSize) acc'
      else mret acc
  end.

(** [xs.length > 0 ? xs : undefined] *)
Definition nonEmptyOrUndefined {A} (l : list A) : Nullish (list A) :=
  match l with
  | [] => Undefined
  | _ => Present l
  end.

(** Each turn advances [offset] by 500, so [totalCount] turns are enough. *)
Definition getAllItems (collectionId : string) (totalCount : Z)
    (onProgress : option (nat -> M unit)) : M GetItemsResponse :=
  acc ← getAllItems_loop (Z.to_nat totalCount) collectionId totalCount onProgress 0
          (mkAccum [] [] [] []);
  mret (mkItems (allIds acc)
                (nonEmptyOrUndefined (allEmbeddings acc))
                (nonEmptyOrUndefined (allDocs acc))
                (nonEmptyOrUndefined (allMetas acc))
                Undefined).

(** *** What a call does, for stating properties *)

(** Whether [getAuthHeaders] returns in the world at hand, and the headers
    it returns then.  Where it throws, the operations below get no further
    than its call: they build no request and [fetch] is not called. *)
Definition authReturns (w : World) : bool :=
  match getAuthHeaders (storage w) with Some _ => true | None => false end.

Definition authOf (w : World) : gmap string string :=
  default ∅ (getAuthHeaders (storage w)).

(** What an operation that calls [getAuthHeaders] and then [fetch] with
    [req] lets an observer see, and the world it leaves. *)
Definition issued (req : Request) (w : World) : list Event :=
  if authReturns w then [EvFetch req] else [].

Definition called (req : Request) (w : World) : World :=
  mkWorld (storage w) (detectedApiVersion w) (cachedCapabilities w) (log w ++ issued req w).

(** The request [chromaFetch] hands to [fetch]. *)
Definition chromaRequest (path : string) (opts : FetchOpts) (w : World) : Request :=
  mkRequest (resolveUrl path w) (default "GET" (opt_method opts))
    (opt_headers opts ∪ authOf w ∪ {[ "Content-Type" := "application/json" ]})
    (opt_body opts)
    (Some (mkSignal (default DEFAULT_TIMEOUT (opt_timeout opts)) "AbortError")).

(** The error [chromaFetch] raises where [getAuthHeaders] throws. *)
Definition authError : ChromaError :=
  newChromaError (err_message invalidCharacterError) None None.

(** The request [probeUrl] issues, and what it answers. *)
Definition probeRequest (path : string) (w : World) : Request :=
  mkRequest (resolveUrl path w) "GET" (authOf w) None
    (Some (mkSignal 5000 "TimeoutError")).

Definition probe_ok (path : string) (w : World) : bool :=
  authReturns w &&
  match fst (fetch (probeRequest path w) w) with
  | Returns res => res_ok res
  | Throws _ => false
  end.

(** The request of one page of the export. *)
Definition pageRequest (collectionId : string) (w : World) (off : Z) : Request :=
  chromaRequest (apiPrefix w ++ "/collections/" ++ collectionId ++ "/get")
    (mkOpts (Some "POST") (Some (getItemsBody (pageParams off))) ∅ None) w.

(** The version [detectCapabilities] pins: "v2" when the v2 heartbeat
    answers, else "v1" when the v1 heartbeat answers, else "v2". *)
Definition pinnedVersion (w : World) : ApiVersion :=
  if probe_ok "/api/v2/heartbeat" w then v2
  else if probe_ok "/api/v1/heartbeat" (called (probeRequest "/api/v2/heartbeat" w) w)
       then v1 else v2.

(** The callback handed to [getAllItems]: none, or the observable one. *)
Definition reportProgress (fetched : nat) : M unit := fun w =>
  (Returns tt, record_event (EvProgress fetched) w).

Definition progressCallback (observe : bool) : option (nat -> M unit) :=
  if observe then Some reportProgress else None.

(** What an export that receives [pages] in turn lets an observer see: for
    each page its request, then the callback's call with the number of
    ids accumulated so far. *)
Fixpoint page_events (observe : bool) (request : Z -> Request) (off : Z) (fetched : nat)
    (pages : list GetItemsResponse) : list Event :=
  match pages with
  | [] => []
  | p :: rest =>
      (EvFetch (request off) ::
       (if observe then [EvProgress (fetched + length (ids p))] else []) ++
       page_events observe request (off + pageSize) (fetched + length (ids p)) rest)%list
  end.

(** [onProgress?.(fetched)] *)
Definition callProgress (onProgress : option (nat -> M unit)) (fetched : nat) : M unit :=
  match onProgress with
  | Some f => f fetched
  | None => mret tt
  end.

(** The pages of a run of the export.  From offset [off] in world [w],
    with [fetched] ids accumulated so far, the page requests of the loop are
    answered in turn with [pages], each followed by the callback's call, and
    the export is then in world [w'].  Each page is the answer to the run's
    own request, in the world the run is in at that moment. *)
Fixpoint receives (collectionId : string) (onProgress : option (nat -> M unit))
    (off : Z) (fetched : nat) (w : World) (pages : list GetItemsResponse) (w' : World) : Prop :=
  match pages with
  | [] => w' = w
  | p :: rest =>
      exists w1 w2,
        getItems collectionId (pageParams off) w = (Returns p, w1) /\
        callProgress onProgress (fetched + length (ids p)) w1 = (Returns tt, w2) /\
        receives collectionId onProgress (off + pageSize) (fetched + length (ids p)) w2 rest w'
  end.

(** What a page carries for one field: nothing where the field is null or
    absent. *)
Definition entries {A} (field : Nullish (list A)) : list A :=
  match field with
  | Present l => l
  | _ => []
  end.

(** The accumulators of [getAllItems] after [pages] have been received. *)
Definition accumulated (acc : Accum) (pages : list GetItemsResponse) : Accum :=
  mkAccum (allIds acc ++ concat (map ids pages))
          (allDocs acc ++ concat (map (fun p => entries (documents p)) pages))
          (allMetas acc ++ concat (map (fun p => entries (metadatas p)) pages))
          (allEmbeddings acc ++ concat (map (fun p => entries (embeddings p)) pages)).

(** The result [getAllItems] builds from the pages it received. *)
Definition exported (pages : list GetItemsResponse) : GetItemsResponse :=
  mkItems (concat (map ids pages))
          (nonEmptyOrUndefined (concat (map (fun p => entries (embeddings p)) pages)))
          (nonEmptyOrUndefined (concat (map (fun p => entries (documents p)) pages)))
          (nonEmptyOrUndefined (concat (map (fun p => entries (metadatas p)) pages)))
          Undefined.

(** The statements of [detectCapabilities] before the collections probe:
    the version is pinned, then the heartbeat and the version routes of the
    pinned API are probed. *)
Definition detectServer : M (bool * bool) :=
  v2ok ← probeUrl "/api/v2/heartbeat";
  _ ← (if v2ok : bool then set_detectedApiVersion v2
       else
         v1ok ← probeUrl "/api/v1/heartbeat";
         set_detectedApiVersion (if v1ok : bool then v1 else v2));
  base ← gets apiBase;
  hb ← probeUrl (base ++ "/heartbeat");
  base ← gets apiBase;
  ver ← probeUrl (base ++ "/version");
  mret (hb, ver).

(** Its next statement, the probe of the collections route. *)
Definition probeCollections : M bool :=
  prefix ← gets apiPrefix;
  probeUrl (prefix ++ "/collections").

(** The statements after [detectServer], given the answers of its last two
    probes. *)
Definition detectCollections (hb ver : bool) : M Capabilities :=
  prefix ← gets apiPrefix;
  lc ← probeUrl (prefix ++ "/collections");
  detected ← gets detectedApiVersion;
  let caps := mkCaps hb ver lc false false false false detected in
  caps ← (if lc then
            try_catch
              (collections ← listCollections;
               match collections with
               | first :: _ =>
                   prefix ← gets apiPrefix;
                   gc ← probeUrl (prefix ++ "/collections/" ++ id first);
                   prefix ← gets apiPrefix;
                   cc ← probeUrl (prefix ++ "/collections/" ++ id first ++ "/count");
                   mret (mkCaps hb ver lc gc cc true true detected)
               | [] =>
                   mret (mkCaps hb ver lc true true true true detected)
               end)
              (fun _ => mret caps)
          else mret caps);
  _ ← set_cachedCapabilities caps;
  mret caps.

(** The events of probes of [paths], made in a session whose settings are
    those of [w]. *)
Definition probes (paths : list string) (w : World) : list Event :=
  if authReturns w then map (fun path => EvFetch (probeRequest path w)) paths else [].

(** The paths [detectServer] probes, in order. *)
Definition detectServerPaths (w : World) : list string :=
  ("/api/v2/heartbeat" ::
   (if probe_ok "/api/v2/heartbeat" w then [] else ["/api/v1/heartbeat"]) ++
   [("/api/" ++ versionString (pinnedVersion w) ++ "/heartbeat")%string;
    ("/api/" ++ versionString (pinnedVersion w) ++ "/version")%string])%list.

(** The two probes on the first collection listed. *)
Definition probeGetCollection (first : Collection) : M bool :=
  prefix ← gets apiPrefix;
  probeUrl (prefix ++ "/collections/" ++ id first).

Definition probeCountCollection (first : Collection) : M bool :=
  prefix ← gets apiPrefix;
  probeUrl (prefix ++ "/collections/" ++ id first ++ "/count").

(** [cachedCapabilities = caps] *)
Definition cached (caps : Capabilities) (w : World) : World :=
  mkWorld (storage w) (detectedApiVersion w) (Some caps) (log w).

(** An observed call of [fetch] for a GET without a body. *)
Definition plainGet (ev : Event) : Prop :=
  exists req, ev = EvFetch req /\ method req = "GET" /\ body req = None.

(** The paths that say nothing about a collection's records. *)
Definition serverLevelPaths : list string :=
  ["/api/v2/heartbeat"; "/api/v1/heartbeat"; "/api/v2/version"; "/api/v1/version";
   "/api/v2/tenants/default_tenant/databases/default_database/collections";
   "/api/v1/collections"].

(** An observed event that is a GET request for one of these paths. *)
Definition isServerLevelGet (w : World) (ev : Event) : Prop :=
  exists req path,
    ev = EvFetch req /\ method req = "GET" /\
    url req = resolveUrl path w /\ In path serverLevelPaths.

End Session.

(** The error of the [!res.ok] branch of [chromaFetch]. *)
Definition httpError (res : Response) : ChromaError :=
  newChromaError
    ("Chroma HTTP " ++ string_of_Z (res_status res) ++ ": " ++
     (if String.eqb (default "" (res_text res)) "" then res_statusText res
      else default "" (res_text res)))
    (Some (res_status res)) None.

(** The message of the error flagged as a cross-origin failure. *)
Definition corsGuidance : string :=
  "Network error – this is likely a CORS issue. " ++
  "Make sure the Chroma server has CORS enabled or use the Vite dev proxy.".



(** The running totals [fetched + |p1|], [fetched + |p1| + |p2|], ... *)
Fixpoint cumulative (fetched : nat) (pages : list GetItemsResponse) : list nat :=
  match pages with
  | [] => []
  | p :: rest => (fetched + length (ids p))%nat :: cumulative (fetched + length (ids p)) rest
  end.

(** The number of pages of an export: the ceiling of [totalCount / 500]. *)
Definition pageCount (totalCount : Z) : nat := Z.to_nat ((totalCount + 499) / 500).

(** The requests among the events. *)
Definition fetches (events : list Event) : list Request :=
  omap (fun ev => match ev with EvFetch r => Some r | EvProgress _ => None end) events.

(** The arguments of the progress callback among the events. *)
Definition progressCalls (events : list Event) : list nat :=
  omap (fun ev => match ev with EvProgress n => Some n | EvFetch _ => None end) events.

End Client.

(* ===================================================================== *)
(** ** The embedding analysis engine *)
(* ===================================================================== *)

Module Analysis.

(** The arithmetic the algorithms use.  The code runs on IEEE-754 doubles:
    [float_num] below.  The algorithms are written over the interface, so
    that what holds of them whatever the numbers do is stated once. *)
Class Num (F : Type) := {
  n_zero : F;
  n_one : F;
  n_half : F;
  n_infinity : F;
  (** what arithmetic sees when it reads [undefined] (NaN) *)
  n_undef : F;
  n_add : F -> F -> F;
  n_sub : F -> F -> F;
  n_mul : F -> F -> F;
  n_div : F -> F -> F;
  n_sqrt : F -> F;
  (** [x === y], [x < y], [x <= y] *)
  n_eqb : F -> F -> bool;
  n_ltb : F -> F -> bool;
  n_leb : F -> F -> bool;
  (** the truthiness test of [x || 1]: zero and NaN are falsy *)
  n_falsy : F -> bool;
  n_of_nat : nat -> F;
  (** [Math.floor(x)] used as an array index; [None] when it is no index *)
  n_floor_index : F -> option nat;
}.

#[global] Instance float_num : Num float := {
  n_zero := 0%float;
  n_one := 1%float;
  n_half := 0.5%float;
  n_infinity := PrimFloat.infinity;
  n_undef := PrimFloat.nan;
  n_add := PrimFloat.add;
  n_sub := PrimFloat.sub;
  n_mul := PrimFloat.mul;
  n_div := PrimFloat.div;
  n_sqrt := PrimFloat.sqrt;
  n_eqb := PrimFloat.eqb;
  n_ltb := PrimFloat.ltb;
  n_leb := PrimFloat.leb;
  n_falsy := fun x => PrimFloat.eqb x 0%float || PrimFloat.is_nan x;
  n_of_nat := fun n => Client.number_of_Z (Z.of_nat n);
  n_floor_index := fun x =>
    match Prim2SF x with
    | S754_zero _ => Some 0%nat
    | S754_finite false m e => Some (Z.to_nat (Z.shiftl (Z.pos m) e))
    | _ => None
    end;
}.

Declare Scope num_scope.

Section Algorithms.
Context {F : Type} {num : Num F}.

Local Notation "x + y" := (n_add x y) : num_scope.
Local Notation "x - y" := (n_sub x y) : num_scope.
Local Notation "x * y" := (n_mul x y) : num_scope.
Local Notation "x / y" := (n_div x y) : num_scope.
Local Open Scope num_scope.

(** *** SimilarityHeatmap.tsx *)

(** The loop of [cosineSimilarity]: [i] runs over [a]; [b[i]] is read
    along, and is [undefined] past the end of [b]. *)
Fixpoint cosine_sums (a b : list F) (dot magA magB : F) : F * F * F :=
  match a with
  | [] => (dot, magA, magB)
  | x :: a' =>
      let y := hd n_undef b in
      cosine_sums a' (tl b) (dot + x * y) (magA + x * x) (magB + y * y)
  end.

Definition cosineSimilarity (a b : list F) : F :=
  let '(dot, magA, magB) := cosine_sums a b n_zero n_zero n_zero in
  let denom := n_sqrt magA * n_sqrt magB in
  if n_eqb denom n_zero then n_zero else dot / denom.

(** [ids[i] ?? `item-${i}`] *)
Definition itemId (ids : list string) (i : nat) : string :=
  match ids !! i with
  | Some s => s
  | None => "item-" ++ Client.string_of_Z (Z.of_nat i)
  end.

(** The loop of [validData]: it stops once [sampleSize] items are kept. *)
Fixpoint validData_loop (i : nat) (embeddings : list (option (list F))) (ids : list string)
    (sampleSize : nat) (items : list (string * list F)) : list (string * list F) :=
  match embeddings with
  | [] => items
  | emb :: rest =>
      if (length items <? sampleSize)%nat then
        match emb with
        | Some e => validData_loop (S i) rest ids sampleSize (items ++ [(itemId ids i, e)])%list
        | None => validData_loop (S i) rest ids sampleSize items
        end
      else items
  end.

Definition validData (embeddings : list (option (list F))) (ids : list string)
    (sampleSize : nat) : list (string * list F) :=
  validData_loop 0 embeddings ids sampleSize [].

(** The embeddings that are present, in their order. *)
Definition presentEmbeddings (embeddings : list (option (list F))) : list (list F) :=
  omap (fun e => e) embeddings.

(** [mat[i][j] = v] *)
Definition setCell (i j : nat) (v : F) (mat : list (list F)) : list (list F) :=
  alter (fun row => <[j := v]> row) i mat.

(** [validData[i].emb] *)
Definition embAt (data : list (string * list F)) (i : nat) : list F :=
  match data !! i with
  | Some item => snd item
  | None => []
  end.

(** The two nested loops that fill the matrix. *)
Definition similarityMatrix (data : list (string * list F)) : list (list F) :=
  let n := length data in
  fold_left
    (fun mat i =>
       fold_left
         (fun mat j =>
            let sim := cosineSimilarity (embAt data i) (embAt data j) in
            setCell j i sim (setCell i j sim mat))
         (seq (S i) (n - S i))
         (setCell i i n_one mat))
    (seq 0 n)
    (replicate n (replicate n n_zero)).

(** [matrix[i][j]] *)
Definition cell (mat : list (list F)) (i j : nat) : option F :=
  row ← mat !! i; row !! j.

(** An [n] by [n] matrix. *)
Definition isSquare (n : nat) (mat : list (list F)) : Prop :=
  length mat = n /\ Forall (fun row => length row = n) mat.

(** What cell [(i, j)] of the matrix of [data] is meant to hold: 1 on the
    diagonal, else the similarity of the two vectors, computed once with
    the vector of the smaller index first. *)
Definition similarityOf (data : list (string * list F)) (i j : nat) : F :=
  if decide (i = j) then n_one
  else if decide (i < j)%nat then cosineSimilarity (embAt data i) (embAt data j)
  else cosineSimilarity (embAt data j) (embAt data i).

(** *** EmbeddingScatter.tsx *)

(** [Math.random()]: the next number of a stream. *)
Record Rng := mkRng {
  stream : nat -> F;
  position : nat;
}.

Definition random (g : Rng) : F * Rng :=
  (stream g (position g), mkRng (stream g) (S (position g))).

Record Point := mkPoint {
  px : F;
  py : F;
}.

(** [vec.reduce((s, v, j) => s + v * component[j], 0)] *)
Fixpoint dotWith (vec component : list F) (s : F) : F :=
  match vec with
  | [] => s
  | v :: vec' => dotWith vec' (tl component) (s + v * hd n_undef component)
  end.

(** [for (j < dim) mean[j] += vec[j]] *)
Fixpoint addInto (mean vec : list F) : list F :=
  match mean with
  | [] => []
  | m :: mean' => (m + hd n_undef vec) :: addInto mean' (tl vec)
  end.

(** [vec.map((v, j) => v - mean[j])] *)
Fixpoint subtractMean (vec mean : list F) : list F :=
  match vec with
  | [] => []
  | v :: vec' => (v - hd n_undef mean) :: subtractMean vec' (tl mean)
  end.

(** [for (j < dim) newVec[j] += dot * row[j]] *)
Fixpoint addScaled (newVec : list F) (dot : F) (row : list F) : list F :=
  match newVec with
  | [] => []
  | x :: newVec' => (x + dot * hd n_undef row) :: addScaled newVec' dot (tl row)
  end.

(** [Array.from({ length: dim }, () => Math.random() - 0.5)] *)
Fixpoint randomVector (dim : nat) (g : Rng) : list F * Rng :=
  match dim with
  | O => ([], g)
  | S dim' =>
      let '(r, g1) := random g in
      let '(rest, g2) := randomVector dim' g1 in
      ((r - n_half) :: rest, g2)
  end.

(** One turn of the power iteration. *)
Definition powerStep (dim : nat) (deflected : list (list F)) (vec : list F) : list F :=
  let newVec :=
    fold_left (fun newVec row => addScaled newVec (dotWith row vec n_zero) row)
      deflected (replicate dim n_zero) in
  let sq := n_sqrt (fold_left (fun s v => s + v * v) newVec n_zero) in
  let norm := if n_falsy sq then n_one else sq in
  map (fun v => v / norm) newVec.

Definition powerIteration (dim : nat) (deflected : list (list F)) (g : Rng) : list F * Rng :=
  let '(vec, g') := randomVector dim g in
  (Nat.iter 100 (powerStep dim deflected) vec, g').

(** [centered.map((vec) => vec.reduce(...))] *)
Definition projectOnto (centered : list (list F)) (component : list F) : list F :=
  map (fun vec => dotWith vec component n_zero) centered.

(** [centered.map((vec, i) => vec.map((v, j) => v - proj1[i] * pc1[j]))] *)
Fixpoint deflateRow (vec : list F) (p : F) (pc : list F) : list F :=
  match vec with
  | [] => []
  | v :: vec' => (v - p * hd n_undef pc) :: deflateRow vec' p (tl pc)
  end.

Fixpoint deflate (centered : list (list F)) (proj : list F) (pc : list F) : list (list F) :=
  match centered with
  | [] => []
  | vec :: rest => deflateRow vec (hd n_undef proj) pc :: deflate rest (tl proj) pc
  end.

(** [proj1.map((x, i) => ({ x, y: proj2[i] }))] *)
Fixpoint pairUp (proj1 proj2 : list F) : list Point :=
  match proj1 with
  | [] => []
  | x :: rest => mkPoint x (hd n_undef proj2) :: pairUp rest (tl proj2)
  end.

(** The coordinate-wise mean of the vectors. *)
Definition meanOf (embeddings : list (list F)) (dim : nat) : list F :=
  map (fun m => m / n_of_nat (length embeddings))
      (fold_left addInto embeddings (replicate dim n_zero)).

Definition pcaProject (embeddings : list (list F)) (g : Rng) : list Point * Rng :=
  match embeddings with
  | [] => ([], g)
  | first :: _ =>
      let dim := length first in
      let mean := meanOf embeddings dim in
      let centered := map (fun vec => subtractMean vec mean) embeddings in
      let '(pc1, g1) := powerIteration dim centered g in
      let proj1 := projectOnto centered pc1 in
      let deflected := deflate centered proj1 pc1 in
      let '(pc2, g2) := powerIteration dim deflected g1 in
      let proj2 := projectOnto centered pc2 in
      (pairUp proj1 proj2, g2)
  end.

(** [{ ...points[i] }]: a copy; both coordinates are [undefined] when [i]
    is no index of [points]. *)
Definition pointAt (points : list Point) (i : option nat) : Point :=
  match i with
  | Some i => match points !! i with
              | Some p => p
              | None => mkPoint n_undef n_undef
              end
  | None => mkPoint n_undef n_undef
  end.

(** [(p.x - cen.x) ** 2 + (p.y - cen.y) ** 2], a square being the product
    of the number with itself. *)
Definition squaredDistance (p cen : Point) : F :=
  (px p - px cen) * (px p - px cen) + (py p - py cen) * (py p - py cen).

(** The distance of [p] to the nearest centroid chosen so far. *)
Definition nearestDistance (centroids : list Point) (p : Point) : F :=
  fold_left (fun minD cen =>
               let d := squaredDistance p cen in
               if n_ltb d minD then d else minD)
            centroids n_infinity.

(** [points[Math.floor(Math.random() * n)]] *)
Definition randomPoint (points : list Point) (g : Rng) : Point * Rng :=
  let '(r, g') := random g in
  (pointAt points (n_floor_index (r * n_of_nat (length points))), g').

(** The scan [for (i < n) { r -= dists[i]; if (r <= 0) { push; break } }]:
    the point it pushes, if any. *)
Fixpoint weightedPick (points : list Point) (dists : list F) (r : F) : option Point :=
  match points with
  | [] => None
  | p :: rest =>
      let r' := r - hd n_undef dists in
      if n_leb r' n_zero then Some p else weightedPick rest (tl dists) r'
  end.

(** One turn of the seeding loop: exactly one centroid is added. *)
Definition seedNext (points : list Point) (state : list Point * Rng) : list Point * Rng :=
  let '(centroids, g) := state in
  let dists := map (nearestDistance centroids) points in
  let total := fold_left n_add dists n_zero in
  let '(u, g1) := random g in
  match weightedPick points dists (u * total) with
  | Some p => ((centroids ++ [p])%list, g1)
  | None =>
      let '(p, g2) := randomPoint points g1 in
      ((centroids ++ [p])%list, g2)
  end.

(** k-means++ seeding: the first centroid, then [c = 1 .. k - 1]. *)
Definition seedCentroids (points : list Point) (k : nat) (g : Rng) : list Point * Rng :=
  let '(p0, g0) := randomPoint points g in
  fold_left (fun state _ => seedNext points state) (seq 1 (k - 1)) ([p0], g0).

(** The index of the nearest centroid, the first one on ties. *)
Definition assign (centroids : list Point) (k : nat) (p : Point) : nat :=
  snd (fold_left
         (fun '(minD, best) c =>
            let d := squaredDistance p (pointAt centroids (Some c)) in
            if n_ltb d minD then (d, c) else (minD, best))
         (seq 0 k) (n_infinity, 0%nat)).

(** [sumX], [sumY] and [cnt] over the points labelled [c]. *)
Fixpoint clusterSums (points : list Point) (labels : list nat) (c : nat)
    (sumX sumY : F) (cnt : nat) : F * F * nat :=
  match points with
  | [] => (sumX, sumY, cnt)
  | p :: rest =>
      match labels with
      | l :: labels' =>
          if Nat.eqb l c
          then clusterSums rest labels' c (sumX + px p) (sumY + py p) (S cnt)
          else clusterSums rest labels' c sumX sumY cnt
      | [] => clusterSums rest [] c sumX sumY cnt
      end
  end.

(** The points labelled [c], in their order. *)
Definition membersOf (points : list Point) (ls : list nat) (c : nat) : list Point :=
  map fst (filter (fun pl => snd pl = c) (zip points ls)).

(** The centroid update of one iteration, with its [changed] flag. *)
Definition updateCentroids (points : list Point) (newLabels : list nat) (k : nat)
    (centroids : list Point) : list Point * bool :=
  fold_left
    (fun '(centroids, changed) c =>
       let '(sumX, sumY, cnt) := clusterSums points newLabels c n_zero n_zero 0 in
       match cnt with
       | O => (centroids, changed)
       | S _ =>
           let nx := sumX / n_of_nat cnt in
           let ny := sumY / n_of_nat cnt in
           let old := pointAt centroids (Some c) in
           let changed' :=
             if negb (n_eqb nx (px old)) || negb (n_eqb ny (py old)) then true else changed in
           (<[c := mkPoint nx ny]> centroids, changed')
       end)
    (seq 0 k) (centroids, false).

(** The main loop, [maxIter] turns at most. *)
Fixpoint iterate (maxIter : nat) (points : list Point) (k : nat)
    (labels : list nat) (centroids : list Point) : list nat * list Point :=
  match maxIter with
  | O => (labels, centroids)
  | S rest =>
      let newLabels := map (assign centroids k) points in
      let '(centroids', changed) := updateCentroids points newLabels k centroids in
      if changed then iterate rest points k newLabels centroids'
      else (newLabels, centroids')
  end.

Record Clustering := mkClustering {
  labels : list nat;
  centroids : list Point;
}.

Definition kMeans (points : list Point) (k : nat) (maxIter : nat) (g : Rng) : Clustering * Rng :=
  match points with
  | [] => (mkClustering [] [], g)
  | _ =>
      let '(seeds, g') := seedCentroids points k g in
      let '(ls, cs) := iterate maxIter points k (replicate (length points) 0%nat) seeds in
      (mkClustering ls cs, g')
  end.

End Algorithms.

Arguments Rng F : clear implicits.
Arguments Point F : clear implicits.
Arguments Clustering F : clear implicits.

(** The squared magnitude of a vector as the loop of [cosineSimilarity]
    accumulates it (from 0, component by component), and the magnitude
    [Math.sqrt] makes of it. *)
Definition sumOfSquares {F : Type} {num : Num F} (a : list F) : F :=
  fold_left (fun s x => n_add s (n_mul x x)) a n_zero.

Definition magnitude {F : Type} {num : Num F} (a : list F) : F :=
  n_sqrt (sumOfSquares a).

(** The sum of the products [a[i] * b[i]], accumulated the same way. *)
Definition sumOfProducts {F : Type} {num : Num F} (a b : list F) : F :=
  fold_left (fun s xy => n_add s (n_mul (fst xy) (snd xy))) (zip a b) n_zero.

End Analysis.

(* ===================================================================== *)
(** ** Servers used as examples *)
(* ===================================================================== *)

Module Scenarios.
Import Storage Zod Client.

Definition world0 : World := initialWorld emptyStorage.

(** A stored configuration the settings form can produce: basic
    authentication with a user name that has a letter above U+00FF. *)
Definition wideCredentials : LocalStorage :=
  setAuth auth_basic (mkCreds None (Some "Łukasz") (Some "secret")) emptyStorage.

Definition okJson (latency : Z) (j : Json) : NetReply :=
  mkReply latency (Responds (mkResponse 200 "OK" None (inr j))).

(** A collection of [n] records with ids "id-0", "id-1", ... *)
Definition sampleIds (n : nat) : list string :=
  map (fun i => "id-" ++ string_of_Z (Z.of_nat i)) (seq 0 n).

Definition pageJson (page : list string) : Json :=
  JObj [("ids", JArr (map JStr page));
        ("embeddings", JArr (map (fun _ => JArr [JNum 0.5%float; JNum 1%float]) page));
        ("documents", JArr (map (fun i => JStr ("text of " ++ i)) page));
        ("metadatas", JArr (map (fun _ => JNull) page))].

(** A server holding [n] records that serves [limit] records from [offset];
    any request without a body gets an empty list. *)
Definition pagingServer (n : nat) : Network := fun _ req =>
  match body req with
  | Some (JObj fs) =>
      match get_field "limit" fs, get_field "offset" fs with
      | Some (JNum l), Some (JNum o) =>
          okJson 12 (pageJson (firstn (Z.to_nat (Z_of_number l))
                                 (skipn (Z.to_nat (Z_of_number o)) (sampleIds n))))
      | _, _ =>
          mkReply 12 (Responds (mkResponse 400 "Bad Request" (Some "limit and offset required")
                                  (inr JNull)))
      end
  | _ => okJson 3 (JArr [])
  end.

(** The page of that collection from [off], as the client parses it. *)
Definition samplePage (n off : nat) : GetItemsResponse :=
  let page := firstn 500 (skipn off (sampleIds n)) in
  mkItems page
    (Present (map (fun _ => Some [0.5%float; 1%float]) page))
    (Present (map (fun i => Some ("text of " ++ i)) page))
    (Present (map (fun _ => None) page))
    Undefined.

(** A response the schema accepts although its arrays differ in length. *)
Definition misalignedJson : Json :=
  JObj [("ids", JArr [JStr "a"; JStr "b"]);
        ("documents", JArr [JStr "only one"])].

(** A server whose first page carries documents and whose later pages
    answer [documents: null]. *)
Definition sparseServer : Network := fun history _ =>
  match history with
  | [] => okJson 12 (JObj [("ids", JArr [JStr "a"; JStr "b"]);
                           ("documents", JArr [JStr "x"; JStr "y"])])
  | _ => okJson 12 (JObj [("ids", JArr [JStr "c"]); ("documents", JNull)])
  end.

(** A transport that refuses every request the way a browser reports a
    blocked cross-origin call. *)
Definition failingFetch : Network := fun _ _ =>
  mkReply 1 (Rejects (mkJsError "TypeError" "Failed to fetch")).

(** A server that needs 20 seconds to answer. *)
Definition slowServer : Network := fun _ _ => okJson 20000 (JStr "1.0.0").

(** A server that answers a number where a string is expected. *)
Definition wrongShapeServer : Network := fun _ _ => okJson 5 (JNum 1%float).


(** A server that only speaks the v1 API. *)
Definition v1OnlyServer : Network := fun _ req =>
  if includes (url req) "/api/v2"
  then mkReply 4 (Responds (mkResponse 404 "Not Found" (Some "") (inr JNull)))
  else okJson 4 (JObj []).

(** A server that answers every request with an empty list. *)
Definition emptyServer : Network := fun _ _ => okJson 3 (JArr []).

(** Two records with the same embedding, and a pseudo-random stream. *)
Definition twoEqualVectors : list (option (list float)) :=
  [Some [1; 1; 1]; Some [1; 1; 1]]%float.

Definition sampleStream (i : nat) : float :=
  (Client.number_of_Z (Z.of_nat ((i * 37 + 11) mod 100)) / 100)%float.

Definition sampleRng : Analysis.Rng float := Analysis.mkRng sampleStream 0.

Definition samplePoints : list (Analysis.Point float) :=
  [Analysis.mkPoint 0 0; Analysis.mkPoint 0 1; Analysis.mkPoint 10 10;
   Analysis.mkPoint 10 11; Analysis.mkPoint 5 5]%float.

Definition sampleVectors : list (list float) :=
  [[1; 2; 3]; [2; 4; 6.5]; [0; 1; 0]; [5; 5; 5]]%float.

End Scenarios.

(* ===================================================================== *)
(** ** The protocol client: the remaining operations *)
(* ===================================================================== *)

Module ClientOps.
Import Storage Zod Client.

(** [QueryResponseSchema]: one ranked list per query. *)
Record QueryResponse := mkQueryResponse {
  q_ids : list (list string);
  q_distances : Nullish (list (option (list float)));
  q_embeddings : Nullish (list (option (list (option (list float)))));
  q_documents : Nullish (list (option (list (option string))));
  q_metadatas : Nullish (list (option (list (option (list (string * Json))))));
}.

Definition QueryResponseSchema : ZodType QueryResponse :=
  z_object (fun o =>
    i ← z_array (z_array z_string) (get_field "ids" o);
    dist ← z_nullable_optional (z_array (z_nullable (z_array z_number)))
             (get_field "distances" o);
    e ← z_nullable_optional
          (z_array (z_nullable (z_array (z_nullable (z_array z_number)))))
          (get_field "embeddings" o);
    d ← z_nullable_optional (z_array (z_nullable (z_array (z_nullable z_string))))
          (get_field "documents" o);
    m ← z_nullable_optional (z_array (z_nullable (z_array (z_nullable z_record_unknown))))
          (get_field "metadatas" o);
    mret (mkQueryResponse i dist e d m)).

(** The parameters of [queryCollection]; every key is optional. *)
Record QueryParams := mkQueryParams {
  query_texts : option (list string);
  query_embeddings : option (list (list float));
  n_results : option Z;
  query_include : option (list string);
  query_where : option (list (string * Json));
}.

(** The body of [queryCollection]: [query_embeddings], [n_results] and
    [include] are always written, the other two keys only when given. *)
Definition queryBody (params : QueryParams) : Json :=
  JObj
    ([("query_embeddings",
       JArr (map (fun v => JArr (map JNum v)) (default [] (query_embeddings params))))] ++
     match query_texts params with
     | Some l => [("query_texts", JArr (map JStr l))]
     | None => []
     end ++
     [("n_results", JNum (number_of_Z (default 10 (n_results params))));
      ("include", JArr (map JStr (default ["documents"; "metadatas"; "distances"]
                                     (query_include params))))] ++
     match query_where params with
     | Some o => [("where", JObj o)]
     | None => []
     end).

(** The data of [addItems]. *)
Record AddItemsData := mkAddItems {
  add_ids : list string;
  add_documents : option (list (option string));
  add_metadatas : option (list (option (list (string * Json))));
  add_embeddings : option (list (option (list float)));
}.

(** [JSON.stringify] of an entry that may be [null]. *)
Definition jsonOrNull {A} (f : A -> Json) (x : option A) : Json :=
  match x with
  | Some a => f a
  | None => JNull
  end.

Definition addItemsBody (data : AddItemsData) : Json :=
  JObj
    ([("ids", JArr (map JStr (add_ids data)))] ++
     match add_documents data with
     | Some l => [("documents", JArr (map (jsonOrNull JStr) l))]
     | None => []
     end ++
     match add_metadatas data with
     | Some l => [("metadatas", JArr (map (jsonOrNull JObj) l))]
     | None => []
     end ++
     match add_embeddings data with
     | Some l => [("embeddings", JArr (map (jsonOrNull (fun v => JArr (map JNum v))) l))]
     | None => []
     end).

(** What a write operation makes of the way its request settles;
    [label] is the operation's name in the message. *)
Definition writeOutcome (label : string) (o : FetchOutcome) : Outcome unit :=
  match o with
  | Rejects e => Throws (ThrownJs e)
  | Responds res =>
      if res_ok res then Returns tt
      else Throws (ThrownChroma (mkChromaError
             (label ++ " failed: " ++ string_of_Z (res_status res) ++ " " ++
              default "" (res_text res))
             (Some (res_status res)) false))
  end.

(** The rewrite of the development proxy (vite.config.ts):
    [path.replace(/^\/api/, "")]. *)
Definition viteProxyRewrite (path : string) : string :=
  if String.prefix "/api" path then String.substring 4 (String.length path - 4) path
  else path.

Section Operations.

Variable network : Network.
Variable VITE_DEFAULT_CHROMA_URL : option string.
(** [encodeURIComponent], a function of the platform. *)
Variable encodeURIComponent : string -> string.

Definition getCachedCapabilities : M (option Capabilities) := gets cachedCapabilities.

Definition getCollection (name : string) : M Collection :=
  prefix ← gets apiPrefix;
  chromaFetch network VITE_DEFAULT_CHROMA_URL
    (prefix ++ "/collections/" ++ encodeURIComponent name) CollectionSchema noOpts.

Definition queryCollection (collectionId : string) (params : QueryParams) : M QueryResponse :=
  prefix ← gets apiPrefix;
  chromaFetch network VITE_DEFAULT_CHROMA_URL
    (prefix ++ "/collections/" ++ collectionId ++ "/query") QueryResponseSchema
    (mkOpts (Some "POST") (Some (queryBody params)) ∅ None).

(** The three write operations call [fetch] themselves: no timeout, and
    a [catch] that rethrows what it caught. *)
Definition deleteCollection (name : string) : M unit :=
  prefix ← gets apiPrefix;
  url ← gets (resolveUrl VITE_DEFAULT_CHROMA_URL
                (prefix ++ "/collections/" ++ encodeURIComponent name));
  auth ← authHeaders;
  res ← fetch network (mkRequest url "DELETE" auth None None);
  if negb (res_ok res) then
    let text := default "" (res_text res) in
    throw (ThrownChroma (newChromaError
      ("Delete failed: " ++ string_of_Z (res_status res) ++ " " ++ text)
      (Some (res_status res)) None))
  else mret tt.

Definition addItems (collectionId : string) (data : AddItemsData) : M unit :=
  prefix ← gets apiPrefix;
  url ← gets (resolveUrl VITE_DEFAULT_CHROMA_URL
                (prefix ++ "/collections/" ++ collectionId ++ "/add"));
  auth ← authHeaders;
  res ← fetch network
          (mkRequest url "POST" (auth ∪ {[ "Content-Type" := "application/json" ]})
             (Some (addItemsBody data)) None);
  if negb (res_ok res) then
    let text := default "" (res_text res) in
    throw (ThrownChroma (newChromaError
      ("Add items failed: " ++ string_of_Z (res_status res) ++ " " ++ text)
      (Some (res_status res)) None))
  else mret tt.

Definition deleteItems (collectionId : string) (ids : list string) : M unit :=
  prefix ← gets apiPrefix;
  url ← gets (resolveUrl VITE_DEFAULT_CHROMA_URL
                (prefix ++ "/collections/" ++ collectionId ++ "/delete"));
  auth ← authHeaders;
  res ← fetch network
          (mkRequest url "POST" (auth ∪ {[ "Content-Type" := "application/json" ]})
             (Some (JObj [("ids", JArr (map JStr ids))])) None);
  if negb (res_ok res) then
    let text := default "" (res_text res) in
    throw (ThrownChroma (newChromaError
      ("Delete items failed: " ++ string_of_Z (res_status res) ++ " " ++ text)
      (Some (res_status res)) None))
  else mret tt.

(** *** src/lib/connectionContext.tsx *)

(** One turn of the loop of [check]: the heartbeat at [path], any failure
    counting as "not ok". *)
Definition checkHeartbeat (mode : ConnectionMode) (base : string) (path : string) : M bool :=
  let url := match mode with
             | proxy => "/api" ++ path
             | direct => base ++ path
             end in
  try_catch
    (auth ← authHeaders;
     res ← fetch network (mkRequest url "GET" auth None (Some (mkSignal 5000 "TimeoutError")));
     mret (res_ok res))
    (fun _ => mret false).

(** [check]: v2 first, then v1; the loop stops at the first heartbeat that
    answers.  The result is whether the status becomes "connected". *)
Definition checkConnection : M bool :=
  mode ← gets (fun w => getConnectionMode (storage w));
  base ← gets (fun w => getBaseUrl VITE_DEFAULT_CHROMA_URL (storage w));
  ok ← checkHeartbeat mode base "/api/v2/heartbeat";
  if ok : bool then mret true else checkHeartbeat mode base "/api/v1/heartbeat".

(** What a write operation does: where [getAuthHeaders] returns, its one
    request settles the way the transport says; where it throws, the
    exception of [btoa] leaves the operation as it is, before any request. *)
Definition writeRun (label : string) (req : Request) (w : World) : Outcome unit * World :=
  if authReturns w
  then (writeOutcome label (outcome (network (log w) req)), record_event (EvFetch req) w)
  else (Throws (ThrownJs invalidCharacterError), w).

(** The request of each write operation. *)
Definition deleteCollectionRequest (name : string) (w : World) : Request :=
  mkRequest
    (resolveUrl VITE_DEFAULT_CHROMA_URL
       (apiPrefix w ++ "/collections/" ++ encodeURIComponent name) w)
    "DELETE" (authOf w) None None.

Definition addItemsRequest (collectionId : string) (data : AddItemsData) (w : World) : Request :=
  mkRequest
    (resolveUrl VITE_DEFAULT_CHROMA_URL (apiPrefix w ++ "/collections/" ++ collectionId ++ "/add") w)
    "POST" (authOf w ∪ {[ "Content-Type" := "application/json" ]})
    (Some (addItemsBody data)) None.

Definition deleteItemsRequest (collectionId : string) (ids : list string) (w : World) : Request :=
  mkRequest
    (resolveUrl VITE_DEFAULT_CHROMA_URL
       (apiPrefix w ++ "/collections/" ++ collectionId ++ "/delete") w)
    "POST" (authOf w ∪ {[ "Content-Type" := "application/json" ]})
    (Some (JObj [("ids", JArr (map JStr ids))])) None.

End Operations.

End ClientOps.

(* ===================================================================== *)
(** ** More servers used as examples *)
(* ===================================================================== *)

Module Servers.
Import Storage Zod Client.

(** A server with one collection whose own routes are missing. *)
Definition catalogServer : Network := fun _ req =>
  if includes (url req) "/collections/"
  then mkReply 4 (Responds (mkResponse 404 "Not Found" (Some "") (inr JNull)))
  else if includes (url req) "/collections"
  then Scenarios.okJson 4 (JArr [JObj [("id", JStr "c-1"); ("name", JStr "docs")]])
  else Scenarios.okJson 4 (JObj []).

(** A server that answers 503 to everything. *)
Definition unavailableServer : Network := fun _ _ =>
  mkReply 7 (Responds (mkResponse 503 "Service Unavailable" (Some "overloaded") (inr JNull))).

(** A server that serves the records before offset 500 and fails for the
    pages after them. *)
Definition truncatedServer : Network := fun _ req =>
  let failure :=
    mkReply 9 (Responds (mkResponse 500 "Internal Server Error" (Some "boom") (inr JNull))) in
  match body req with
  | Some (JObj fs) =>
      match get_field "offset" fs with
      | Some (JNum o) =>
          if Z_of_number o <? 500 then Scenarios.okJson 12 (Scenarios.pageJson ["a"; "b"])
          else failure
      | _ => failure
      end
  | _ => Scenarios.okJson 3 (JArr [])
  end.

(** A server that answers every request with the same page of two
    records, whatever limit and offset say. *)
Definition twoRecordServer : Network := fun _ _ =>
  Scenarios.okJson 12 (Scenarios.pageJson ["a"; "b"]).

(** That page, as the client parses it. *)
Definition twoRecordPage : GetItemsResponse :=
  mkItems ["a"; "b"]
    (Present [Some [0.5%float; 1%float]; Some [0.5%float; 1%float]])
    (Present [Some "text of a"; Some "text of b"])
    (Present [None; None])
    Undefined.

(** The session of a client configured for the development proxy. *)
Definition proxyWorld : World :=
  initialWorld (setConnectionMode proxy emptyStorage).

End Servers.

(* ===================================================================== *)
(** ** src/lib/storage.ts: base URL, cleanup and server profiles *)
(* ===================================================================== *)

Module Profiles.
Import Storage.

(** [url.replace(/\/+$/, "")]: the run of slashes that ends the string is
    removed, and nothing else. *)
Fixpoint stripTrailingSlashes (s : string) : string :=
  match s with
  | EmptyString => EmptyString
  | String c rest =>
      match stripTrailingSlashes rest with
      | EmptyString => if Ascii.eqb c "/" then EmptyString else String c EmptyString
      | rest' => String c rest'
      end
  end.

Definition setBaseUrl (url : string) (ls : LocalStorage) : LocalStorage :=
  mkStorage (Some (stripTrailingSlashes url)) (CONNECTION_MODE ls) (AUTH_TYPE ls)
    (AUTH_CREDENTIALS ls).

Definition clearConnection (ls : LocalStorage) : LocalStorage :=
  clearAuth (mkStorage None None (AUTH_TYPE ls) (AUTH_CREDENTIALS ls)).

(** What [saveProfile] is given: a profile without [id] and [createdAt]. *)
Record ProfileFields := mkFields {
  name : string;
  url : string;
  mode : ConnectionMode;
  authType : AuthType;
  authCredentials : AuthCredentials;
}.

(** [interface ServerProfile]: [{ ...profile, id, createdAt }]. *)
Record ServerProfile := mkProfile {
  id : string;
  fields : ProfileFields;
  createdAt : Z;
}.

(** The browser's [localStorage] with the two keys of the profiles beside
    the four keys of the connection. *)
Record ProfileStorage := mkProfileStorage {
  settings : LocalStorage;
  PROFILES : option (list ServerProfile);
  ACTIVE_PROFILE : option string;
}.

Definition getProfiles (ps : ProfileStorage) : list ServerProfile :=
  match PROFILES ps with
  | Some l => l
  | None => []
  end.

(** [saveProfile]; the two readings of the clock and the four characters
    drawn from [Math.random] are taken as arguments. *)
Definition saveProfile (now_id now_created : Z) (random_suffix : string)
    (profile : ProfileFields) (ps : ProfileStorage) : ServerProfile * ProfileStorage :=
  let profiles := getProfiles ps in
  let newProfile :=
    mkProfile ("sp-" ++ Client.string_of_Z now_id ++ "-" ++ random_suffix) profile now_created in
  (newProfile,
   mkProfileStorage (settings ps) (Some (profiles ++ [newProfile])%list) (ACTIVE_PROFILE ps)).

Definition getActiveProfileId (ps : ProfileStorage) : option string := ACTIVE_PROFILE ps.

Definition deleteProfile (id_ : string) (ps : ProfileStorage) : ProfileStorage :=
  let profiles := filter (fun p => id p <> id_) (getProfiles ps) in
  let ps1 := mkProfileStorage (settings ps) (Some profiles) (ACTIVE_PROFILE ps) in
  if decide (getActiveProfileId ps1 = Some id_)
  then mkProfileStorage (settings ps1) (PROFILES ps1) None
  else ps1.

Definition setActiveProfile (id_ : string) (ps : ProfileStorage) : ProfileStorage :=
  mkProfileStorage (settings ps) (PROFILES ps) (Some id_).

Definition applyProfile (profile : ServerProfile) (ps : ProfileStorage) : ProfileStorage :=
  let s1 := setBaseUrl (url (fields profile)) (settings ps) in
  let s2 := setConnectionMode (mode (fields profile)) s1 in
  let s3 := setAuth (authType (fields profile)) (authCredentials (fields profile)) s2 in
  setActiveProfile (id profile) (mkProfileStorage s3 (PROFILES ps) (ACTIVE_PROFILE ps)).

(** A string of [n] slashes. *)
Fixpoint slashes (n : nat) : string :=
  match n with
  | O => EmptyString
  | S n' => String "/" (slashes n')
  end.

End Profiles.

(* ===================================================================== *)
(** ** [Array.prototype.sort] with a comparator *)
(* ===================================================================== *)

From Stdlib Require Import Sorted.

Module JsArray.

(** The sort is stable, so with a comparator that orders the elements
    consistently the result is determined: an element goes before the
    first element it must precede.  [before a b] is "the comparator's
    result for [(a, b)] is not positive". *)
Fixpoint insertSorted {A} (before : A -> A -> bool) (x : A) (l : list A) : list A :=
  match l with
  | [] => [x]
  | y :: rest => if before x y then x :: y :: rest else y :: insertSorted before x rest
  end.

Definition sort {A} (before : A -> A -> bool) (l : list A) : list A :=
  fold_right (insertSorted before) [] l.

(** [xs.slice(-n)], for [n > 0]: the last [n] elements. *)
Definition sliceLast {A} (n : nat) (l : list A) : list A := skipn (length l - n) l.

End JsArray.

(* ===================================================================== *)
(** ** src/lib/zodSchemas.ts, the audit log *)
(* ===================================================================== *)

Module AuditLog.
Import JsArray.

Definition MAX_ENTRIES : nat := 500.

Inductive AuditOperation :=
| connect | list_collections | get_collection | query | get_items
| delete_collection | delete_items | export_items | import_items.

#[global] Instance AuditOperation_eq_dec : EqDecision AuditOperation.
Proof. solve_decision. Defined.

Inductive AuditStatus := success | error.

Record AuditEntry := mkEntry {
  id : string;
  timestamp : Z;
  operation : AuditOperation;
  collection : option string;
  details : option string;
  status : AuditStatus;
  durationMs : option Z;
}.

(** The options of [logOperation]. *)
Record LogOpts := mkLogOpts {
  opt_collection : option string;
  opt_details : option string;
  opt_status : option AuditStatus;
  opt_durationMs : option Z;
}.

(** The value under [STORAGE_KEY]; [None] when the key is absent. *)
Definition AuditStore : Type := option (list AuditEntry).

Section Quota.

(** Whether [localStorage.setItem] accepts this log (it throws when the
    quota is exceeded). *)
Variable fits : list AuditEntry -> bool.

Definition load (st : AuditStore) : list AuditEntry :=
  match st with
  | Some l => l
  | None => []
  end.

(** [save]: [None] when the second [setItem] throws as well; the stored
    log is then the old one. *)
Definition save (entries : list AuditEntry) : option AuditStore :=
  let trimmed :=
    if Nat.ltb MAX_ENTRIES (length entries) then sliceLast MAX_ENTRIES entries else entries in
  if fits trimmed then Some (Some trimmed)
  else
    let half := skipn (Nat.div (length trimmed) 2) trimmed in
    if fits half then Some (Some half) else None.

(** [logOperation]; the two readings of the clock and the characters drawn
    from [Math.random] are taken as arguments. *)
Definition newEntry (now_id now : Z) (random_suffix : string) (op : AuditOperation)
    (opts : LogOpts) : AuditEntry :=
  mkEntry ("audit-" ++ Client.string_of_Z now_id ++ "-" ++ random_suffix) now op
    (opt_collection opts) (opt_details opts) (default success (opt_status opts))
    (opt_durationMs opts).

Definition logOperation (now_id now : Z) (random_suffix : string) (op : AuditOperation)
    (opts : LogOpts) (st : AuditStore) : option AuditStore :=
  let entries := load st in
  save (entries ++ [newEntry now_id now random_suffix op opts])%list.

(** The comparator [(a, b) => b.timestamp - a.timestamp] is not positive. *)
Definition newerFirst (a b : AuditEntry) : bool := timestamp b - timestamp a <=? 0.

Definition getAuditLog (st : AuditStore) : list AuditEntry := sort newerFirst (load st).

Definition getAuditLogFiltered (operation_ : option AuditOperation) (st : AuditStore)
    : list AuditEntry :=
  let all := getAuditLog st in
  match operation_ with
  | None => all
  | Some op => filter (fun e => operation e = op) all
  end.

Definition clearAuditLog (st : AuditStore) : AuditStore := None.

Definition getAuditLogCount (st : AuditStore) : nat := length (load st).

End Quota.

End AuditLog.

(* ===================================================================== *)
(** ** src/lib/growthTracker.ts *)
(* ===================================================================== *)

Module GrowthTracker.
Import JsArray.

(** A snapshot: the time in epoch milliseconds and the number of records. *)
Record GrowthSnapshot := mkSnapshot {
  timestamp : Z;
  count : Z;
}.

(** The store is the part of [localStorage] under the keys
    [STORAGE_PREFIX + collectionId]: a map from collection ids to the
    stored snapshots. *)

(** The comparator [(a, b) => a.timestamp - b.timestamp] is not positive. *)
Definition olderFirst (a b : GrowthSnapshot) : bool := timestamp a - timestamp b <=? 0.

Definition getSnapshots (collectionId : string) (st : gmap string (list GrowthSnapshot)) : list GrowthSnapshot :=
  match st !! collectionId with
  | Some parsed => sort olderFirst parsed
  | None => []
  end.

Section Quota.

Variable fits : list GrowthSnapshot -> bool.

(** [recordSnapshot]; [now] is the reading of the clock.  [None] when the
    second [setItem] throws as well. *)
Definition recordSnapshot (now : Z) (collectionId : string) (count_ : Z) (st : gmap string (list GrowthSnapshot))
    : option (gmap string (list GrowthSnapshot)) :=
  let existing := getSnapshots collectionId st in
  let skip :=
    match last existing with
    | Some l => (count l =? count_) && (now - timestamp l <? 5 * 60 * 1000)
    | None => false
    end in
  if skip then Some st
  else
    let existing := (existing ++ [mkSnapshot now count_])%list in
    let trimmed := if Nat.ltb 200 (length existing) then sliceLast 200 existing else existing in
    if fits trimmed then Some (<[collectionId := trimmed]> st)
    else
      let half := skipn (Nat.div (length trimmed) 2) trimmed in
      if fits half then Some (<[collectionId := half]> st) else None.

End Quota.

Definition clearSnapshots (collectionId : string) (st : gmap string (list GrowthSnapshot)) : gmap string (list GrowthSnapshot) :=
  delete collectionId st.

End GrowthTracker.

(* ===================================================================== *)
(** ** The callers of the analysis engine *)
(* ===================================================================== *)

Module Charts.
Import Zod Analysis.

(** *** CollectionPage, the Visualize tab *)

(** [interface EmbeddingPoint]; [id] is [data.ids[origIdx]!], which is
    [undefined] when [ids] is too short. *)
Record EmbeddingPoint := mkEmbeddingPoint {
  id : option string;
  x : float;
  y : float;
  metadata : option (list (string * Json));
  document : option string;
  cluster : option nat;
}.

(** [data.embeddings.forEach((emb, i) => { if (emb && emb.length > 0) ... })]:
    the embeddings kept, each with its index; [i] is the index of the head
    of [embs]. *)
Fixpoint validFrom (i : nat) (embs : list (option (list float))) : list (nat * list float) :=
  match embs with
  | [] => []
  | emb :: rest =>
      match emb with
      | Some (v :: vs) => (i, v :: vs) :: validFrom (S i) rest
      | _ => validFrom (S i) rest
      end
  end.

(** [field?.[i] ?? undefined] *)
Definition nullishAt {A} (field : Nullish (list (option A))) (i : nat) : option A :=
  match field with
  | Present l => mjoin (l !! i)
  | _ => None
  end.

(** The [points] of the memo of the Visualize tab. *)
Definition visualizePoints (data : option GetItemsResponse) (g : Rng float)
    : list EmbeddingPoint * Rng float :=
  match data with
  | Some d =>
      match embeddings d with
      | Present embs =>
          let valid := validFrom 0 embs in
          let validEmbeddings := map snd valid in
          let validIndices := map fst valid in
          match validEmbeddings with
          | [] => ([], g)
          | _ =>
              let '(projected, g') := pcaProject validEmbeddings g in
              (imap (fun idx p =>
                       let origIdx := validIndices !! idx in
                       mkEmbeddingPoint
                         (origIdx ≫= fun i => ids d !! i)
                         (px p) (py p)
                         (origIdx ≫= nullishAt (metadatas d))
                         (origIdx ≫= nullishAt (documents d))
                         None)
                    projected,
               g')
          end
      | _ => ([], g)
      end
  | None => ([], g)
  end.

(** *** EmbeddingScatter.tsx, the component *)

(** [if (!map[label]) map[label] = []; map[label].push(p)] on a map that
    starts empty: the groups, in the order in which their labels first
    occur. *)
Fixpoint pushInto {A} (label : string) (p : A) (groups : list (string * list A))
    : list (string * list A) :=
  match groups with
  | [] => [(label, [p])]
  | (l, ps) :: rest =>
      if String.eqb l label then (l, (ps ++ [p])%list) :: rest
      else (l, ps) :: pushInto label p rest
  end.

(** The memo [clustered]: no clustering when it is switched off or there
    are fewer points than clusters. *)
Definition clustered (clustering : bool) (clusterK : nat) (points : list EmbeddingPoint)
    (g : Rng float) : option (Clustering float) * Rng float :=
  if negb clustering || (length points <? clusterK)%nat then (None, g)
  else
    let '(c, g') := kMeans (map (fun p => mkPoint (x p) (y p)) points) clusterK 50 g in
    (Some c, g').

(** [`Cluster ${clustered.labels[i]! + 1}`] *)
Definition clusterLabel (l : option nat) : string :=
  match l with
  | Some l => "Cluster " ++ Client.string_of_Z (Z.of_nat l + 1)
  | None => "Cluster NaN"
  end.

Section Groups.

(** The loop that groups the points by the value of a metadata key (the
    third branch of the memo [groups]); it is not modelled. *)
Variable groupByMetadata : string -> list EmbeddingPoint -> list (string * list EmbeddingPoint).

(** The memo [groups]. *)
Definition groups (colorKey : string) (clustering : bool)
    (clustered_ : option (Clustering float)) (points : list EmbeddingPoint)
    : list (string * list EmbeddingPoint) :=
  match clustering, clustered_ with
  | true, Some c =>
      fold_left
        (fun map_ '(i, p) =>
           let l := labels c !! i in
           pushInto (clusterLabel l)
             (mkEmbeddingPoint (id p) (x p) (y p) (metadata p) (document p) l) map_)
        (imap pair points) []
  | _, _ =>
      if String.eqb colorKey "" then [("All points", points)]
      else groupByMetadata colorKey points
  end.

End Groups.

(** *** SimilarityHeatmap.tsx, the canvas *)

(** [Math.max(8, Math.min(20, Math.floor(500 / n)))] for a length [n]:
    [500 / 0] is [Infinity], and for [n >= 1] the floor of the double
    quotient is the integer quotient. *)
Definition cellSize (n : nat) : Z :=
  Z.max 8 (Z.min 20 (if (n =? 0)%nat then 20 else 500 / Z.of_nat n)).

(** [size = cellSize * validData.length] *)
Definition canvasSize (n : nat) : Z := cellSize n * Z.of_nat n.

(** The five sample points as points of the scatter plot. *)
Definition scatterPoints : list EmbeddingPoint :=
  map (fun p => mkEmbeddingPoint None (Analysis.px p) (Analysis.py p) None None None)
    Scenarios.samplePoints.

End Charts.

(* ===================================================================== *)
(** * Properties *)
(* ===================================================================== *)

(** ** Authentication headers *)

Section AuthHeaders.
Import Storage Scenarios.

Example btoa_user_pass : btoa "admin:secret" = Some "YWRtaW46c2VjcmV0".
Proof. reflexivity. Qed.

Example btoa_padding : btoa "a:" = Some "YTo=" /\ btoa "a" = Some "YQ==".
Proof. split; reflexivity. Qed.

(** U+00E9 is one byte for [btoa]; U+0141 is refused. *)
Example btoa_latin1 : btoa "é" = Some "6Q==" /\ btoa "Ł" = None.
Proof. split; reflexivity. Qed.

Lemma truthy_nonempty (s : option string) :
  truthy s = true -> orEmpty s <> "".
Proof.
  destruct s as [[|c s]|]; simpl; intros H; try discriminate H.
  intros E; discriminate E.
Qed.

(** C10. For the stored configuration [wideCredentials], [getAuthHeaders]
    returns no header map: [btoa] throws.  For every stored configuration,
    when [getAuthHeaders] does return, the map has at most one header, which
    is [Authorization] or [X-Chroma-Token] with a non-empty value; it throws
    only for the type "basic" with a user name, when [btoa] refuses
    "user:password"; and when the credential the selected type needs is
    missing (no token for "token" and "x-chroma-token", no user name for
    "basic"; an empty string counts as missing) it returns the empty map. *)
Theorem getAuthHeaders_at_most_one_unless_btoa_throws :
  getAuthHeaders wideCredentials = None /\
  forall ls : LocalStorage,
    match getAuthHeaders ls with
    | Some h =>
        (size h <= 1)%nat /\
        (forall k v, h !! k = Some v ->
           (k = "Authorization" \/ k = "X-Chroma-Token") /\ v <> "")
    | None =>
        getAuthType ls = auth_basic /\
        truthy (username (getAuthCredentials ls)) = true /\
        btoa (orEmpty (username (getAuthCredentials ls)) ++ ":" ++
              orEmpty (password (getAuthCredentials ls))) = None
    end /\
    (if credentialMissing ls then getAuthHeaders ls = Some ∅ else True).
Proof.
  split; [reflexivity|]. intros ls.
  unfold getAuthHeaders, credentialMissing.
  destruct (getAuthType ls); cbn zeta iota;
    try destruct (truthy _) eqn:Htruthy; cbn [negb];
    try destruct (btoa _) as [encoded|] eqn:Hbtoa; cbn [mbind option_bind];
    rewrite ?map_size_empty, ?map_size_singleton;
    (split; [|done]);
    try (split; [reflexivity|]; split; reflexivity);
    (split; [lia|]); intros k v H;
    try (rewrite lookup_empty in H; discriminate H);
    apply lookup_singleton_Some in H as [<- <-].
  - split; [by left|]. discriminate.
  - split; [by left|]. discriminate.
  - split; [by right|]. by apply truthy_nonempty.
Qed.

Example basic_header :
  getAuthHeaders (setAuth auth_basic (mkCreds None (Some "admin") (Some "secret")) emptyStorage)
  = Some {[ "Authorization" := "Basic YWRtaW46c2VjcmV0" ]}.
Proof. reflexivity. Qed.

End AuthHeaders.

(** ** The fetch wrapper *)

Section ClientFacts.
Import Storage Zod Client.

Variable network : Network.
Variable vite : option string.

Lemma bind_returns {A B} (m : M A) (f : A -> M B) (w w' : World) (a : A) :
  m w = (Returns a, w') -> (m ≫= f) w = f a w'.
Proof. intros H. unfold mbind, M_bind. rewrite H. reflexivity. Qed.

Lemma bind_throws {A B} (m : M A) (f : A -> M B) (w w' : World) (t : Thrown) :
  m w = (Throws t, w') -> (m ≫= f) w = (Throws t, w').
Proof. intros H. unfold mbind, M_bind. rewrite H. reflexivity. Qed.

Lemma bind_gets {A B} (g : World -> A) (f : A -> M B) (w : World) :
  (gets g ≫= f) w = f (g w) w.
Proof. reflexivity. Qed.

Lemma fetch_world (req : Request) (w : World) :
  snd (fetch network req w) = record_event (EvFetch req) w.
Proof.
  unfold fetch. destruct (signal req) as [s|]; [destruct (_ <=? _)|];
    try destruct (outcome (network (log w) req)); reflexivity.
Qed.


(** *** Where [getAuthHeaders] returns and where it throws *)

Lemma bind_auth_returns {B} (f : gmap string string -> M B) (w : World) :
  authReturns w = true -> (authHeaders ≫= f) w = f (authOf w) w.
Proof.
  unfold authReturns, authOf, mbind, M_bind, authHeaders.
  by destruct (getAuthHeaders (storage w)).
Qed.

Lemma bind_auth_throws {B} (f : gmap string string -> M B) (w : World) :
  authReturns w = false ->
  (authHeaders ≫= f) w = (Throws (ThrownJs invalidCharacterError), w).
Proof.
  unfold authReturns, mbind, M_bind, authHeaders.
  by destruct (getAuthHeaders (storage w)).
Qed.

Lemma issued_returns (req : Request) (w : World) :
  authReturns w = true -> issued req w = [EvFetch req].
Proof. unfold issued. by intros ->. Qed.

Lemma called_returns (req : Request) (w : World) :
  authReturns w = true -> called req w = record_event (EvFetch req) w.
Proof. intros H. unfold called. by rewrite issued_returns. Qed.

Lemma called_throws (req : Request) (w : World) :
  authReturns w = false -> called req w = w.
Proof.
  intros H. unfold called, issued. rewrite H, app_nil_r. by destruct w.
Qed.

Lemma called_cases (req : Request) (w : World) :
  called req w = if authReturns w then record_event (EvFetch req) w else w.
Proof.
  destruct (authReturns w) eqn:H; [by apply called_returns|by apply called_throws].
Qed.

Lemma authReturns_storage (w w1 : World) :
  storage w1 = storage w -> authReturns w1 = authReturns w.
Proof. unfold authReturns. by intros ->. Qed.

Lemma chromaFetch_unfold {T} (path : string) (schema : ZodType T) (opts : FetchOpts) (w : World) :
  chromaFetch network vite path schema opts w =
  let timeout := default DEFAULT_TIMEOUT (opt_timeout opts) in
  let req := chromaRequest vite path opts w in
  let w' := record_event (EvFetch req) w in
  if authReturns w then
    match fst (fetch network req w) with
    | Returns res =>
        if res_ok res then
          match res_json res with
          | inl e => (Throws (ThrownChroma (classify timeout (ThrownJs e))), w')
          | inr j =>
              match schema (Some j) with
              | ZodOk v => (Returns v, w')
              | ZodError msg => (Throws (ThrownChroma (classify timeout (ThrownZod msg))), w')
              end
          end
        else (Throws (ThrownChroma (httpError res)), w')
    | Throws t => (Throws (ThrownChroma (classify timeout t)), w')
    end
  else (Throws (ThrownChroma authError), w).
Proof.
  cbn zeta. destruct (authReturns w) eqn:Hauth.
  - unfold chromaFetch, try_catch. rewrite bind_gets. cbv beta.
    rewrite bind_auth_returns by exact Hauth.
    unfold mbind, M_bind. fold (chromaRequest vite path opts w).
    pose proof (fetch_world (chromaRequest vite path opts w) w) as Hw.
    destruct (fetch network (chromaRequest vite path opts w) w) as [[res|t] w1];
      simpl in Hw; subst w1; simpl; [|reflexivity].
    destruct (res_ok res); simpl; [|reflexivity].
    unfold json_of, zod_parse.
    destruct (res_json res) as [e|j]; simpl; [reflexivity|].
    destruct (schema (Some j)); reflexivity.
  - unfold chromaFetch, try_catch. rewrite bind_gets. cbv beta.
    rewrite bind_auth_throws by exact Hauth. reflexivity.
Qed.

(** Whatever happens, [chromaFetch] calls [fetch] at most once: once where
    [getAuthHeaders] returns, and not at all where it throws. *)
Lemma chromaFetch_world {T} (path : string) (schema : ZodType T) (opts : FetchOpts) (w : World) :
  snd (chromaFetch network vite path schema opts w) =
  called (chromaRequest vite path opts w) w.
Proof.
  rewrite chromaFetch_unfold. cbn zeta. destruct (authReturns w) eqn:Hauth.
  - rewrite called_returns by exact Hauth.
    destruct (fst (fetch network _ w)) as [res|t]; [|reflexivity].
    destruct (res_ok res); [|reflexivity].
    destruct (res_json res) as [e|j]; [reflexivity|].
    destruct (schema (Some j)); reflexivity.
  - by rewrite called_throws.
Qed.

(** A call of [chromaFetch] that returns has called [fetch]. *)
Lemma chromaFetch_returns_auth {T} (path : string) (schema : ZodType T) (opts : FetchOpts)
    (w : World) (v : T) :
  fst (chromaFetch network vite path schema opts w) = Returns v -> authReturns w = true.
Proof.
  rewrite chromaFetch_unfold. cbn zeta. by destruct (authReturns w).
Qed.

Lemma probeUrl_unfold (path : string) (w : World) :
  probeUrl network vite path w =
  (Returns (probe_ok network vite path w), called (probeRequest vite path w) w).
Proof.
  unfold probe_ok. destruct (authReturns w) eqn:Hauth.
  - rewrite called_returns by exact Hauth.
    unfold probeUrl, try_catch. rewrite bind_gets. cbv beta.
    rewrite bind_auth_returns by exact Hauth.
    unfold mbind, M_bind. fold (probeRequest vite path w).
    pose proof (fetch_world (probeRequest vite path w) w) as Hw.
    destruct (fetch network (probeRequest vite path w) w) as [[res|t] w1];
      simpl in Hw; subst w1; reflexivity.
  - rewrite called_throws by exact Hauth.
    unfold probeUrl, try_catch. rewrite bind_gets. cbv beta.
    rewrite bind_auth_throws by exact Hauth. reflexivity.
Qed.

Lemma bind_probe {B} (path : string) (f : bool -> M B) (w : World) :
  (probeUrl network vite path ≫= f) w =
  f (probe_ok network vite path w) (called (probeRequest vite path w) w).
Proof. apply bind_returns, probeUrl_unfold. Qed.

Lemma probe_ok_auth (path : string) (w : World) :
  probe_ok network vite path w = true -> authReturns w = true.
Proof. unfold probe_ok. by destruct (authReturns w). Qed.

Lemma probe_ok_throws (path : string) (w : World) :
  authReturns w = false -> probe_ok network vite path w = false.
Proof. unfold probe_ok. by intros ->. Qed.




(** C5. If the [fetch] call of [chromaFetch] rejects with a [TypeError]
    whose message is "Failed to fetch", then, whatever the path, the schema
    and the options, [chromaFetch] raises a [ChromaError] with
    [isCors = true], no status, and the remediation guidance as message.
    ([chromaFetch] gets as far as its [fetch] call where [getAuthHeaders]
    returns.) *)
Theorem chromaFetch_failed_to_fetch_is_cors {T} (path : string) (schema : ZodType T)
    (opts : FetchOpts) (w : World) (e : JsError) :
  authReturns w = true ->
  err_name e = "TypeError" ->
  err_message e = "Failed to fetch" ->
  fst (fetch network (chromaRequest vite path opts w) w) = Throws (ThrownJs e) ->
  exists ce w',
    chromaFetch network vite path schema opts w = (Throws (ThrownChroma ce), w') /\
    isCors ce = true /\ status ce = None /\ message ce = corsGuidance.
Proof.
  intros Hauth Hname Hmsg Hfetch.
  rewrite chromaFetch_unfold. cbn zeta. rewrite Hauth, Hfetch.
  eexists _, _. split; [reflexivity|].
  unfold classify. rewrite Hname, Hmsg. simpl. auto.
Qed.


(** ** Version and capability detection *)

Lemma bind_ret {A B} (a : A) (f : A -> M B) (w : World) :
  (mret a ≫= f) w = f a w.
Proof. reflexivity. Qed.

Lemma bind_set_version {B} (v : ApiVersion) (f : unit -> M B) (w : World) :
  (set_detectedApiVersion v ≫= f) w =
  f tt (mkWorld (storage w) (Some v) (cachedCapabilities w) (log w)).
Proof. reflexivity. Qed.

Lemma bind_set_cached {B} (c : Capabilities) (f : unit -> M B) (w : World) :
  (set_cachedCapabilities c ≫= f) w = f tt (cached c w).
Proof. reflexivity. Qed.

Lemma bind_assoc {A B C} (m : M A) (f : A -> M B) (g : B -> M C) (w : World) :
  ((m ≫= f) ≫= g) w = (m ≫= (fun a => f a ≫= g)) w.
Proof. unfold mbind, M_bind. destruct (m w) as [[a|t] w']; reflexivity. Qed.

Lemma listCollections_unfold (w : World) :
  listCollections network vite w =
  chromaFetch network vite (apiPrefix w ++ "/collections") CollectionListSchema noOpts w.
Proof. reflexivity. Qed.

Lemma bind_try_catch_returns {A B} (body : M A) (h : Thrown -> M A) (f : A -> M B)
    (w w' : World) (a : A) :
  body w = (Returns a, w') -> (try_catch body h ≫= f) w = f a w'.
Proof. intros H. unfold mbind, M_bind, try_catch. rewrite H. reflexivity. Qed.

Lemma bind_try_catch_throws {A B} (body : M A) (h : Thrown -> M A) (f : A -> M B)
    (w w' : World) (t : Thrown) :
  body w = (Throws t, w') -> (try_catch body h ≫= f) w = (h t ≫= f) w'.
Proof. intros H. unfold mbind, M_bind, try_catch. rewrite H. reflexivity. Qed.

Lemma listCollections_cases (w : World) :
  let w' := called (chromaRequest vite (apiPrefix w ++ "/collections") noOpts w) w in
  (exists cols, listCollections network vite w = (Returns cols, w')) \/
  (exists t, listCollections network vite w = (Throws t, w')).
Proof.
  cbn zeta. rewrite listCollections_unfold.
  pose proof (chromaFetch_world (apiPrefix w ++ "/collections") CollectionListSchema noOpts w) as Hw.
  destruct (chromaFetch network vite _ CollectionListSchema noOpts w) as [[cols|t] w1];
    simpl in Hw; subst w1; eauto.
Qed.

(** One step of a run: the head action is replaced by its effect, and the
    world it leaves is given a name. *)
Ltac name_world :=
  repeat match goal with
  | |- context [called ?r ?w] =>
      is_var w; let w' := fresh "w" in set (w' := called r w)
  | |- context [cached ?c ?w] =>
      is_var w; let w' := fresh "w" in set (w' := cached c w)
  | |- context [mkWorld (storage ?w) ?v ?c ?l] =>
      is_var w; let w' := fresh "w" in set (w' := mkWorld (storage w) v c l)
  end.

Ltac run_step :=
  first [ rewrite bind_assoc | rewrite bind_probe | rewrite bind_gets
        | rewrite bind_set_version | rewrite bind_set_cached | rewrite bind_ret ];
  cbv beta; name_world.

Ltac unname_worlds :=
  repeat match goal with w := _ : World |- _ => subst w end;
  cbn [detectedApiVersion apiVersion cachedCapabilities storage log called cached].

(** [detectCapabilities] is [detectServer] followed by [detectCollections]. *)
Lemma detectCapabilities_split (w : World) :
  detectCapabilities network vite w =
  (detectServer network vite ≫= fun answers =>
     detectCollections network vite (fst answers) (snd answers)) w.
Proof.
  unfold detectCapabilities, detectServer, detectCollections.
  rewrite !bind_probe, !bind_assoc, !bind_probe.
  destruct (probe_ok network vite "/api/v2/heartbeat" w).
  - repeat first [ rewrite bind_assoc | rewrite bind_set_version | rewrite bind_gets
                 | rewrite bind_probe | rewrite bind_ret ].
    reflexivity.
  - repeat first [ rewrite bind_assoc | rewrite bind_set_version | rewrite bind_gets
                 | rewrite bind_probe | rewrite bind_ret ].
    reflexivity.
Qed.

(** Requests depend on the session only through the stored settings. *)
Lemma chromaRequest_storage (path : string) (opts : FetchOpts) (w w1 : World) :
  storage w1 = storage w -> chromaRequest vite path opts w1 = chromaRequest vite path opts w.
Proof. intros H. unfold chromaRequest, resolveUrl, authOf. by rewrite H. Qed.

Lemma probeRequest_storage (path : string) (w w1 : World) :
  storage w1 = storage w -> probeRequest vite path w1 = probeRequest vite path w.
Proof. intros H. unfold probeRequest, resolveUrl, authOf. by rewrite H. Qed.

Lemma issued_probe_storage (path : string) (w w1 : World) :
  storage w1 = storage w ->
  issued (probeRequest vite path w1) w1 = probes vite [path] w.
Proof.
  intros H. unfold issued, probes. rewrite (authReturns_storage w w1 H).
  by rewrite (probeRequest_storage path w w1 H).
Qed.

Lemma probes_app (l1 l2 : list string) (w : World) :
  (probes vite l1 w ++ probes vite l2 w)%list = probes vite (l1 ++ l2) w.
Proof. unfold probes. destruct (authReturns w); [by rewrite map_app|reflexivity]. Qed.

Lemma probes_Forall (P : Event -> Prop) (paths : list string) (w : World) :
  (forall path, In path paths -> P (EvFetch (probeRequest vite path w))) ->
  Forall P (probes vite paths w).
Proof.
  intros H. unfold probes. destruct (authReturns w); [|apply Forall_nil; exact I].
  apply List.Forall_map, List.Forall_forall. exact H.
Qed.

Lemma probes_length (paths : list string) (w : World) :
  length (probes vite paths w) = if authReturns w then length paths else 0%nat.
Proof. unfold probes. destruct (authReturns w); [apply length_map|reflexivity]. Qed.

(** [detectServer] always returns: it pins [pinnedVersion], leaves the
    settings and the cache alone, and has probed [detectServerPaths]. *)
Lemma detectServer_returns (w : World) :
  exists hb ver,
    detectServer network vite w = (Returns (hb, ver), snd (detectServer network vite w)) /\
    storage (snd (detectServer network vite w)) = storage w /\
    detectedApiVersion (snd (detectServer network vite w)) = Some (pinnedVersion network vite w) /\
    cachedCapabilities (snd (detectServer network vite w)) = cachedCapabilities w /\
    log (snd (detectServer network vite w)) =
      (log w ++ probes vite (detectServerPaths network vite w) w)%list.
Proof.
  unfold detectServer, detectServerPaths, pinnedVersion.
  rewrite bind_probe.
  destruct (probe_ok network vite "/api/v2/heartbeat" w).
  - repeat run_step. unfold mret, M_ret. cbn [snd].
    eexists _, _. split; [reflexivity|].
    do 3 (split; [reflexivity|]). unname_worlds.
    rewrite !(issued_probe_storage _ w) by reflexivity.
    rewrite <- !app_assoc. f_equal. rewrite !probes_app. reflexivity.
  - rewrite bind_assoc, bind_probe.
    destruct (probe_ok network vite "/api/v1/heartbeat" _);
      repeat run_step; unfold mret, M_ret; cbn [snd];
      eexists _, _; (split; [reflexivity|]);
      do 3 (split; [reflexivity|]); unname_worlds;
      rewrite !(issued_probe_storage _ w) by reflexivity;
      rewrite <- !app_assoc; f_equal; rewrite !probes_app; reflexivity.
Qed.

Lemma probeCollections_unfold (w : World) :
  probeCollections network vite w =
  (Returns (probe_ok network vite (apiPrefix w ++ "/collections") w),
   called (probeRequest vite (apiPrefix w ++ "/collections") w) w).
Proof. unfold probeCollections. rewrite bind_gets. apply probeUrl_unfold. Qed.

Lemma probeGetCollection_unfold (first : Collection) (w : World) :
  probeGetCollection network vite first w =
  (Returns (probe_ok network vite (apiPrefix w ++ "/collections/" ++ id first) w),
   called (probeRequest vite (apiPrefix w ++ "/collections/" ++ id first) w) w).
Proof. unfold probeGetCollection. rewrite bind_gets. apply probeUrl_unfold. Qed.

Lemma probeCountCollection_unfold (first : Collection) (w : World) :
  probeCountCollection network vite first w =
  (Returns (probe_ok network vite (apiPrefix w ++ "/collections/" ++ id first ++ "/count") w),
   called (probeRequest vite (apiPrefix w ++ "/collections/" ++ id first ++ "/count") w) w).
Proof. unfold probeCountCollection. rewrite bind_gets. apply probeUrl_unfold. Qed.

(** What [detectCollections] does, by the answers it gets: [w2] is the
    world in which it calls [listCollections], [w3] the one in which it
    probes the first collection. *)
Lemma detectCollections_unfold (hb ver : bool) (w1 : World) :
  let w2 := snd (probeCollections network vite w1) in
  let w3 := snd (listCollections network vite w2) in
  let det := detectedApiVersion w1 in
  detectCollections network vite hb ver w1 =
  match fst (probeCollections network vite w1) with
  | Returns true =>
      match fst (listCollections network vite w2) with
      | Returns [] =>
          let caps := mkCaps hb ver true true true true true det in
          (Returns caps, cached caps w3)
      | Returns (first :: _) =>
          let w4 := snd (probeGetCollection network vite first w3) in
          let caps :=
            mkCaps hb ver true
              (probe_ok network vite (apiPrefix w3 ++ "/collections/" ++ id first) w3)
              (probe_ok network vite (apiPrefix w4 ++ "/collections/" ++ id first ++ "/count") w4)
              true true det in
          (Returns caps, cached caps (snd (probeCountCollection network vite first w4)))
      | Throws _ =>
          let caps := mkCaps hb ver true false false false false det in
          (Returns caps, cached caps w3)
      end
  | _ =>
      let caps := mkCaps hb ver false false false false false det in
      (Returns caps, cached caps w2)
  end.
Proof.
  cbn zeta. rewrite probeCollections_unfold. cbn [fst snd].
  unfold detectCollections. rewrite bind_gets, bind_probe, bind_gets.
  destruct (probe_ok network vite (apiPrefix w1 ++ "/collections") w1); [|reflexivity].
  set (w2 := called _ w1).
  destruct (listCollections network vite w2) as [[[|first cols]|t] w3] eqn:Hl; cbn [fst snd].
  - erewrite bind_try_catch_returns by (erewrite bind_returns by exact Hl; reflexivity).
    reflexivity.
  - rewrite probeGetCollection_unfold. cbn [snd]. rewrite probeCountCollection_unfold. cbn [snd].
    erewrite bind_try_catch_returns;
      [| erewrite bind_returns by exact Hl; cbv beta iota;
         rewrite bind_gets, bind_probe, bind_gets, bind_probe; reflexivity].
    reflexivity.
  - erewrite bind_try_catch_throws by (apply bind_throws; exact Hl). reflexivity.
Qed.

(** [detectCapabilities] always returns; it pins [pinnedVersion], reports it
    in the snapshot, caches the snapshot and leaves the settings alone. *)
Lemma detectCapabilities_returns (w : World) :
  exists caps w',
    detectCapabilities network vite w = (Returns caps, w') /\
    detectedApiVersion w' = Some (pinnedVersion network vite w) /\
    apiVersion caps = Some (pinnedVersion network vite w) /\
    cachedCapabilities w' = Some caps /\
    storage w' = storage w.
Proof.
  rewrite detectCapabilities_split.
  destruct (detectServer_returns w) as (hb & ver & Hrun & Hst & Hv & _ & _).
  erewrite bind_returns by exact Hrun. cbn [fst snd].
  set (w1 := snd (detectServer network vite w)) in *.
  rewrite detectCollections_unfold. cbn zeta.
  rewrite probeCollections_unfold. cbn [fst snd].
  destruct (probe_ok network vite (apiPrefix w1 ++ "/collections") w1).
  - set (w2 := called _ w1).
    rewrite listCollections_unfold, (surjective_pairing (chromaFetch _ _ _ _ _ w2)).
    rewrite chromaFetch_world. cbn [fst snd].
    destruct (fst (chromaFetch network vite _ CollectionListSchema noOpts w2))
      as [[|first cols]|t].
    + eexists _, _. split; [reflexivity|]. cbn. rewrite Hv, Hst. auto.
    + rewrite probeGetCollection_unfold. cbn [snd]. rewrite probeCountCollection_unfold.
      eexists _, _. split; [reflexivity|]. cbn. rewrite Hv, Hst. auto.
    + eexists _, _. split; [reflexivity|]. cbn. rewrite Hv, Hst. auto.
  - eexists _, _. split; [reflexivity|]. cbn. rewrite Hv, Hst. auto.
Qed.


Lemma probeUrl_snd (path : string) (w : World) :
  snd (probeUrl network vite path w) = called (probeRequest vite path w) w.
Proof. rewrite probeUrl_unfold. reflexivity. Qed.


Lemma isServerLevelGet_storage (w w1 : World) (ev : Event) :
  storage w1 = storage w -> isServerLevelGet vite w1 ev -> isServerLevelGet vite w ev.
Proof.
  intros Hst (req & path & Hev & Hm & Hurl & Hin). exists req, path.
  repeat split; try done. rewrite Hurl. unfold resolveUrl. by rewrite Hst.
Qed.

Lemma issued_Forall (P : Event -> Prop) (req : Request) (w : World) :
  P (EvFetch req) -> Forall P (issued req w).
Proof.
  intros H. unfold issued. destruct (authReturns w); [|apply Forall_nil; exact I].
  apply Forall_cons. split; [exact H|]. apply Forall_nil; exact I.
Qed.

(** The requests of [detectServer] are GET requests for the heartbeat and
    version routes. *)
Lemma detectServerPaths_serverLevel (w : World) (path : string) :
  In path (detectServerPaths network vite w) -> In path serverLevelPaths.
Proof.
  unfold detectServerPaths, serverLevelPaths.
  destruct (pinnedVersion network vite w), (probe_ok network vite "/api/v2/heartbeat" w);
    cbn; intuition.
Qed.

(** C9. When, in a run of [detectCapabilities], the probe of the collections
    route succeeds and the call of [listCollections] that follows returns
    no collection, the run returns (and caches) a snapshot with
    [getCollection], [countCollection], [getItems] and [query] all true,
    although it issued nothing but GET requests for the heartbeat, version
    and collections paths.  [w1] is the world in which the run probes the
    collections route, [w2] the one in which it calls [listCollections]. *)
Theorem detectCapabilities_optimistic_without_collections (w : World) :
  let w1 := snd (detectServer network vite w) in
  let w2 := snd (probeCollections network vite w1) in
  fst (probeCollections network vite w1) = Returns true ->
  fst (listCollections network vite w2) = Returns [] ->
  exists caps w' events,
    detectCapabilities network vite w = (Returns caps, w') /\
    listCollections_cap caps = true /\
    getCollection_cap caps = true /\ countCollection_cap caps = true /\
    getItems_cap caps = true /\ query_cap caps = true /\
    cachedCapabilities w' = Some caps /\
    log w' = (log w ++ events)%list /\
    Forall (isServerLevelGet vite w) events.
Proof.
  cbn zeta. intros Hprobe Hlist.
  rewrite detectCapabilities_split.
  destruct (detectServer_returns w) as (hb & ver & Hrun & Hst & Hv & _ & Hlog).
  erewrite bind_returns by exact Hrun. cbn [fst snd].
  set (w1 := snd (detectServer network vite w)) in *.
  rewrite detectCollections_unfold. cbn zeta. rewrite Hprobe, Hlist.
  eexists _, _, _. split; [reflexivity|]. do 6 (split; [reflexivity|]).
  cbn [log cached]. rewrite listCollections_unfold, chromaFetch_world.
  rewrite probeCollections_unfold. cbn [snd log called]. rewrite Hlog, <- !app_assoc.
  split; [reflexivity|].
  assert (Hprefix : In (apiPrefix w1 ++ "/collections") serverLevelPaths).
  { unfold apiPrefix, effectiveVersion, serverLevelPaths. rewrite Hv.
    destruct (pinnedVersion network vite w); cbn; tauto. }
  apply Forall_app. split; [|apply Forall_app; split].
  - apply probes_Forall. intros path Hin. exists (probeRequest vite path w), path.
    repeat split. by apply (detectServerPaths_serverLevel w).
  - apply issued_Forall. apply (isServerLevelGet_storage w w1 _ Hst).
    eexists _, _. repeat split. exact Hprefix.
  - apply issued_Forall. apply (isServerLevelGet_storage w w1 _ Hst).
    eexists _, _. repeat split. exact Hprefix.
Qed.

(** ** Paginated export *)

Lemma getItems_unfold (cid : string) (params : GetItemsParams) (w : World) :
  getItems network vite cid params w =
  chromaFetch network vite (apiPrefix w ++ "/collections/" ++ cid ++ "/get")
    GetItemsResponseSchema (mkOpts (Some "POST") (Some (getItemsBody params)) ∅ None) w.
Proof. reflexivity. Qed.

(** A page request is observed whether or not it succeeds, unless
    [getAuthHeaders] threw before it was made. *)
Lemma getItems_page_world (cid : string) (off : Z) (w : World) :
  snd (getItems network vite cid (pageParams off) w) = called (pageRequest vite cid w off) w.
Proof. rewrite getItems_unfold. apply chromaFetch_world. Qed.

(** A page that was received was requested. *)
Lemma getItems_page_returns (cid : string) (off : Z) (w w1 : World) (p : GetItemsResponse) :
  getItems network vite cid (pageParams off) w = (Returns p, w1) ->
  authReturns w = true /\ w1 = record_event (EvFetch (pageRequest vite cid w off)) w.
Proof.
  intros H.
  assert (Hauth : authReturns w = true).
  { rewrite getItems_unfold in H. eapply chromaFetch_returns_auth. by rewrite H. }
  split; [exact Hauth|].
  pose proof (getItems_page_world cid off w) as Hw. rewrite H in Hw. cbn [snd] in Hw.
  by rewrite Hw, called_returns.
Qed.

Lemma pages_left_zero (total off : Z) :
  total <= off -> Z.to_nat ((total - off + 499) / 500) = 0%nat.
Proof.
  intros H. assert ((total - off + 499) / 500 <= 0); [|lia].
  assert ((total - off + 499) / 500 < 1); [|lia].
  apply Z.div_lt_upper_bound; lia.
Qed.

Lemma pages_left_succ (total off : Z) :
  off < total ->
  Z.to_nat ((total - off + 499) / 500) =
  S (Z.to_nat ((total - (off + 500) + 499) / 500)).
Proof.
  intros H.
  replace (total - off + 499) with ((total - (off + 500) + 499) + 1 * 500) by lia.
  rewrite Z.div_add by lia.
  assert (0 <= (total - (off + 500) + 499) / 500) by (apply Z.div_pos; lia).
  lia.
Qed.

Lemma pushAll_entries {A} (acc : list A) (field : Nullish (list A)) :
  pushAll acc field = (acc ++ entries field)%list.
Proof. destruct field; cbn; by rewrite ?app_nil_r. Qed.

Lemma accumulated_nil (acc : Accum) : accumulated acc [] = acc.
Proof. destruct acc. unfold accumulated. cbn. by rewrite !app_nil_r. Qed.

Lemma accumulated_cons (acc : Accum) (p : GetItemsResponse) (pages : list GetItemsResponse) :
  accumulated
    (mkAccum (allIds acc ++ ids p)
             (pushAll (allDocs acc) (documents p))
             (pushAll (allMetas acc) (metadatas p))
             (pushAll (allEmbeddings acc) (embeddings p))) pages =
  accumulated acc (p :: pages).
Proof.
  unfold accumulated. cbn [allIds allDocs allMetas allEmbeddings map concat].
  rewrite !pushAll_entries, <- !app_assoc. reflexivity.
Qed.

Lemma getAllItems_loop_S (cid : string) (total : Z) (onProgress : option (nat -> M unit))
    (fuel : nat) (off : Z) (acc : Accum) (w : World) :
  getAllItems_loop network vite (S fuel) cid total onProgress off acc w =
  if off <? total then
    (getItems network vite cid (pageParams off) ≫= fun page =>
       let acc' := mkAccum (allIds acc ++ ids page)
                           (pushAll (allDocs acc) (documents page))
                           (pushAll (allMetas acc) (metadatas page))
                           (pushAll (allEmbeddings acc) (embeddings page)) in
       callProgress onProgress (length (allIds acc')) ≫= fun _ =>
       getAllItems_loop network vite fuel cid total onProgress (off + pageSize) acc') w
  else (Returns acc, w).
Proof. cbn [getAllItems_loop]. by destruct (off <? total). Qed.

(** The loop of [getAllItems] when its page requests are answered: it
    returns what it received, field by field. *)
Lemma getAllItems_loop_receives (cid : string) (total : Z) (onProgress : option (nat -> M unit))
    (pages : list GetItemsResponse) :
  forall (fuel : nat) (off : Z) (acc : Accum) (w w' : World),
    total - off <= 500 * Z.of_nat fuel ->
    length pages = Z.to_nat ((total - off + 499) / 500) ->
    receives network vite cid onProgress off (length (allIds acc)) w pages w' ->
    getAllItems_loop network vite fuel cid total onProgress off acc w =
    (Returns (accumulated acc pages), w').
Proof.
  induction pages as [|p pages IH]; intros fuel off acc w w' Hfuel Hlen Hrec.
  - cbn [receives] in Hrec. subst w'. rewrite accumulated_nil.
    assert (total <= off).
    { destruct (Z_lt_le_dec off total) as [Hlt|Hge]; [|exact Hge].
      rewrite pages_left_succ in Hlen by exact Hlt. discriminate Hlen. }
    destruct fuel as [|fuel]; [reflexivity|].
    rewrite getAllItems_loop_S.
    assert ((off <? total) = false) as -> by (apply Z.ltb_ge; lia). reflexivity.
  - assert (off < total).
    { destruct (Z_lt_le_dec off total) as [Hlt|Hge]; [exact Hlt|].
      rewrite pages_left_zero in Hlen by exact Hge. discriminate Hlen. }
    destruct fuel as [|fuel]; [lia|].
    rewrite getAllItems_loop_S.
    assert ((off <? total) = true) as -> by (apply Z.ltb_lt; lia).
    cbn [receives] in Hrec. destruct Hrec as (w1 & w2 & Hget & Hcb & Hrec).
    erewrite bind_returns by exact Hget. cbv zeta.
    cbn [allIds]. rewrite length_app.
    erewrite bind_returns by exact Hcb.
    rewrite <- accumulated_cons. apply IH.
    + unfold pageSize. lia.
    + rewrite pages_left_succ in Hlen by lia. cbn [length] in Hlen. unfold pageSize. lia.
    + cbn [allIds]. by rewrite length_app.
Qed.

(** Conversely, a loop that returns has received pages, and returns what
    they carry. *)
Lemma getAllItems_loop_returns (cid : string) (total : Z) (onProgress : option (nat -> M unit)) :
  forall (fuel : nat) (off : Z) (acc acc' : Accum) (w w' : World),
    getAllItems_loop network vite fuel cid total onProgress off acc w = (Returns acc', w') ->
    exists pages,
      receives network vite cid onProgress off (length (allIds acc)) w pages w' /\
      acc' = accumulated acc pages.
Proof.
  induction fuel as [|fuel IH]; intros off acc acc' w w' Hrun.
  - cbn in Hrun. injection Hrun as <- <-. exists []. by rewrite accumulated_nil.
  - rewrite getAllItems_loop_S in Hrun. destruct (off <? total).
    + unfold mbind at 1, M_bind at 1 in Hrun.
      destruct (getItems network vite cid (pageParams off) w) as [[p|t] w1] eqn:Hget;
        [|discriminate Hrun].
      cbv zeta in Hrun. cbn [allIds] in Hrun. rewrite length_app in Hrun.
      unfold mbind at 1, M_bind at 1 in Hrun.
      destruct (callProgress onProgress (length (allIds acc) + length (ids p)) w1)
        as [[[]|t] w2] eqn:Hcb; [|discriminate Hrun].
      apply IH in Hrun as (pages & Hrec & ->).
      exists (p :: pages). split.
      * cbn [receives]. exists w1, w2. split; [exact Hget|]. split; [exact Hcb|].
        cbn [allIds] in Hrec. by rewrite length_app in Hrec.
      * apply accumulated_cons.
    + injection Hrun as <- <-. exists []. by rewrite accumulated_nil.
Qed.

(** What [getAllItems] makes of the accumulators. *)
Lemma exported_accumulated (pages : list GetItemsResponse) :
  exported pages =
  let acc := accumulated (mkAccum [] [] [] []) pages in
  mkItems (allIds acc) (nonEmptyOrUndefined (allEmbeddings acc))
          (nonEmptyOrUndefined (allDocs acc)) (nonEmptyOrUndefined (allMetas acc)) Undefined.
Proof. reflexivity. Qed.

(** What the pages received let an observer see. *)
Lemma receives_log (cid : string) (observe : bool) (pages : list GetItemsResponse) :
  forall (off : Z) (fetched : nat) (w w' : World),
    receives network vite cid (progressCallback observe) off fetched w pages w' ->
    storage w' = storage w /\ detectedApiVersion w' = detectedApiVersion w /\
    log w' = (log w ++ page_events observe (pageRequest vite cid w) off fetched pages)%list.
Proof.
  induction pages as [|p pages IH]; intros off fetched w w' Hrec.
  - cbn in Hrec. subst w'. cbn. by rewrite app_nil_r.
  - cbn [receives] in Hrec. destruct Hrec as (w1 & w2 & Hget & Hcb & Hrec).
    apply getItems_page_returns in Hget as [Hauth ->].
    destruct observe; cbn in Hcb; injection Hcb as <-;
      apply IH in Hrec as (Hst & Hv & Hlog);
      (split; [exact Hst|]); (split; [exact Hv|]);
      rewrite Hlog; cbn [page_events log record_event app];
      rewrite <- !app_assoc; reflexivity.
Qed.

(** A property of every page the server sends holds of the pages of a run. *)
Lemma receives_Forall (P : GetItemsResponse -> Prop) (cid : string)
    (onProgress : option (nat -> M unit)) (pages : list GetItemsResponse) :
  forall (off : Z) (fetched : nat) (w w' : World),
    receives network vite cid onProgress off fetched w pages w' ->
    (forall w0 off0 p, fst (getItems network vite cid (pageParams off0) w0) = Returns p -> P p) ->
    Forall P pages.
Proof.
  induction pages as [|p pages IH]; intros off fetched w w' Hrec HP; [apply Forall_nil; exact I|].
  cbn [receives] in Hrec. destruct Hrec as (w1 & w2 & Hget & Hcb & Hrec).
  apply Forall_cons. split.
  - apply (HP w off). by rewrite Hget.
  - eapply IH; eauto.
Qed.

Lemma fetches_app (l1 l2 : list Event) :
  fetches (l1 ++ l2) = (fetches l1 ++ fetches l2)%list.
Proof.
  induction l1 as [|[r|n] l1 IH]; [reflexivity|..].
  - change (r :: fetches (l1 ++ l2) = r :: (fetches l1 ++ fetches l2)%list). by rewrite IH.
  - exact IH.
Qed.

(** The requests of an export are the page requests at offsets 0, 500, ... *)
Lemma fetches_page_events (observe : bool) (request : Z -> Request)
    (pages : list GetItemsResponse) (off : Z) (fetched : nat) :
  fetches (page_events observe request off fetched pages) =
  map (fun i => request (off + 500 * Z.of_nat i)) (seq 0 (length pages)).
Proof.
  revert off fetched. induction pages as [|p pages IH]; intros off fetched; [reflexivity|].
  cbn [page_events length seq map].
  change (fetches (EvFetch (request off) :: ?l)) with (request off :: fetches l).
  rewrite fetches_app, IH.
  replace (fetches (if observe then [EvProgress (fetched + length (ids p))] else []))
    with (@nil Request) by (by destruct observe).
  replace (off + 500 * Z.of_nat 0) with off by lia. cbn [app]. f_equal.
  rewrite <- seq_shift, map_map. apply map_ext. intros i. f_equal. unfold pageSize. lia.
Qed.

Lemma progressCalls_page_events (observe : bool) (request : Z -> Request)
    (pages : list GetItemsResponse) (off : Z) (fetched : nat) :
  progressCalls (page_events observe request off fetched pages) =
  if observe then cumulative fetched pages else [].
Proof.
  revert off fetched. induction pages as [|p pages IH]; intros off fetched;
    [by destruct observe|].
  cbn [page_events cumulative].
  change (progressCalls (EvFetch (request off) :: ?l)) with (progressCalls l).
  destruct observe; cbn [app].
  - change (progressCalls (EvProgress ?n :: ?l)) with (n :: progressCalls l).
    by rewrite IH.
  - apply IH.
Qed.

(** Pages that are full chunks of 500 add up to the total. *)
Lemma full_chunks_total (total : Z) (pages : list GetItemsResponse) :
  forall off,
    (forall i p, pages !! i = Some p ->
       length (ids p) = Z.to_nat (Z.min 500 (total - (off + 500 * Z.of_nat i)))) ->
    length pages = Z.to_nat ((total - off + 499) / 500) ->
    length (concat (map ids pages)) = Z.to_nat (Z.max 0 (total - off)).
Proof.
  induction pages as [|p pages IH]; intros off Hchunk Hlen.
  - cbn in *. destruct (Z_lt_le_dec off total) as [Hlt|Hge]; [|lia].
    rewrite pages_left_succ in Hlen by lia. discriminate Hlen.
  - destruct (Z_lt_le_dec off total) as [Hlt|Hge].
    + rewrite pages_left_succ in Hlen by lia. cbn [length] in Hlen.
      cbn [map concat]. rewrite length_app.
      rewrite (IH (off + 500)); [|intros i q Hq|lia].
      * rewrite (Hchunk 0%nat p eq_refl). lia.
      * rewrite (Hchunk (S i) q Hq). f_equal. f_equal. lia.
    + rewrite pages_left_zero in Hlen by lia. discriminate Hlen.
Qed.

Lemma pageCount_ceiling (total : Z) :
  0 < total ->
  500 * (Z.of_nat (pageCount total) - 1) < total <= 500 * Z.of_nat (pageCount total).
Proof.
  intros Hpos. unfold pageCount.
  pose proof (Z.div_mod (total + 499) 500 ltac:(lia)) as Hdm.
  pose proof (Z.mod_pos_bound (total + 499) 500 ltac:(lia)) as Hmod.
  assert (0 <= (total + 499) / 500) by (apply Z.div_pos; lia).
  rewrite Z2Nat.id by lia. lia.
Qed.

(** The bound on the number of turns is never what ends the loop: one
    more turn allowed changes nothing, whatever the server and the callback
    do. *)
Lemma getAllItems_loop_fuel (cid : string) (total : Z) (onProgress : option (nat -> M unit))
    (fuel : nat) (off : Z) (acc : Accum) (w : World) :
  total - off <= 500 * Z.of_nat fuel ->
  getAllItems_loop network vite (S fuel) cid total onProgress off acc w =
  getAllItems_loop network vite fuel cid total onProgress off acc w.
Proof.
  revert off acc w. induction fuel as [|fuel IH]; intros off acc w Hfuel.
  - rewrite getAllItems_loop_S. destruct (off <? total) eqn:Hlt; [|reflexivity].
    apply Z.ltb_lt in Hlt. lia.
  - rewrite (getAllItems_loop_S cid total onProgress (S fuel) off acc w).
    rewrite (getAllItems_loop_S cid total onProgress fuel off acc w).
    destruct (off <? total) eqn:Hlt; [|reflexivity].
    unfold mbind at 1 3, M_bind at 1 3.
    destruct (getItems network vite cid (pageParams off) w) as [[page|t] w1]; [|reflexivity].
    cbv zeta. unfold mbind at 1 2, M_bind at 1 2.
    match goal with |- context [match ?cb ?wa with _ => _ end] =>
      destruct (cb wa) as [[[]|t] w2]; [|reflexivity] end.
    apply IH. unfold pageSize. lia.
Qed.

(** The first page-level error ends the export: it is rethrown after the
    one request that failed. *)
Lemma getAllItems_first_error (cid : string) (total : Z) (onProgress : option (nat -> M unit))
    (w : World) (t : Thrown) :
  0 < total ->
  fst (getItems network vite cid (pageParams 0) w) = Throws t ->
  getAllItems network vite cid total onProgress w =
  (Throws t, called (pageRequest vite cid w 0) w).
Proof.
  intros Hpos Hget. unfold getAllItems.
  destruct (Z.to_nat total) as [|fuel] eqn:Hfuel; [lia|].
  pose proof (getItems_page_world cid 0 w) as Hw.
  destruct (getItems network vite cid (pageParams 0) w) as [o w1] eqn:Hrun.
  cbn [fst snd] in Hget, Hw. subst o w1.
  apply bind_throws. cbn [getAllItems_loop].
  assert ((0 <? total) = true) as -> by (apply Z.ltb_lt; lia).
  by apply bind_throws.
Qed.

(** C2 (as amended). When the page requests of a run of [getAllItems] are
    answered ([pages] are the answers, [ceil(totalCount / 500)] of them),
    the run returns after exactly that many page requests, issued one after
    the other with limit 500 at offsets 0, 500, 1000, ...; the progress
    callback, when given, is called after every page with the number of ids
    accumulated so far; the result is the concatenation of the pages, field
    by field; and when the pages are full chunks of 500 the result holds
    [totalCount] records (3 requests for 1200). *)
Theorem getAllItems_page_requests (cid : string) (total : Z) (observe : bool)
    (pages : list GetItemsResponse) (w w' : World) :
  0 < total ->
  length pages = pageCount total ->
  receives network vite cid (progressCallback observe) 0 0 w pages w' ->
  getAllItems network vite cid total (progressCallback observe) w =
    (Returns (exported pages), w') /\
  500 * (Z.of_nat (pageCount total) - 1) < total <= 500 * Z.of_nat (pageCount total) /\
  log w' = (log w ++ page_events observe (pageRequest vite cid w) 0 0 pages)%list /\
  fetches (page_events observe (pageRequest vite cid w) 0 0 pages) =
    map (fun i => pageRequest vite cid w (500 * Z.of_nat i)) (seq 0 (pageCount total)) /\
  progressCalls (page_events observe (pageRequest vite cid w) 0 0 pages) =
    (if observe then cumulative 0 pages else []) /\
  (forall off,
     method (pageRequest vite cid w off) = "POST" /\
     body (pageRequest vite cid w off) =
       Some (JObj [("limit", JNum (number_of_Z 500));
                   ("offset", JNum (number_of_Z off));
                   ("include", JArr [JStr "documents"; JStr "metadatas"; JStr "embeddings"])])) /\
  ((forall i p, pages !! i = Some p ->
      length (ids p) = Z.to_nat (Z.min 500 (total - 500 * Z.of_nat i))) ->
   length (ids (exported pages)) = Z.to_nat total) /\
  pageCount 1200 = 3%nat.
Proof.
  intros Hpos Hlen Hrec.
  split.
  { unfold getAllItems.
    erewrite bind_returns.
    2:{ apply (getAllItems_loop_receives cid total (progressCallback observe) pages);
          [lia| |exact Hrec].
        rewrite Hlen. unfold pageCount. f_equal. f_equal. lia. }
    reflexivity. }
  split; [by apply pageCount_ceiling|].
  split; [by apply (receives_log cid observe pages 0 0%nat w w')|].
  split. { rewrite fetches_page_events, Hlen. apply map_ext. intros i. f_equal. }
  split; [apply progressCalls_page_events|].
  split. { intros off. split; reflexivity. }
  split; [|reflexivity].
  intros Hchunk. cbn [exported ids].
  rewrite (full_chunks_total total pages 0).
  - lia.
  - intros i p Hp. rewrite (Hchunk i p Hp). f_equal.
  - rewrite Hlen. unfold pageCount. f_equal. f_equal. lia.
Qed.

(** ** Alignment of the parallel arrays *)

Lemma z_all_length {A} (item : ZodType A) (l : list Json) (r : list A) :
  z_all item l = ZodOk r -> length r = length l.
Proof.
  revert r. induction l as [|j l IH]; intros r H; cbn [z_all] in H.
  - by injection H as <-.
  - destruct (item (Some j)) as [a|msg]; [|destruct (z_all item l); discriminate H].
    destruct (z_all item l) as [r'|msg]; [|discriminate H].
    injection H as <-. cbn [length]. f_equal. by apply IH.
Qed.

Lemma z_array_length {A} (item : ZodType A) (j : option Json) (r : list A) :
  z_array item j = ZodOk r -> json_array_length j = Some (length r).
Proof.
  destruct j as [[]|]; cbn; try discriminate.
  intros H. f_equal. symmetry. by eapply z_all_length.
Qed.

Lemma z_nullable_optional_length {A} (item : ZodType A) (j : option Json)
    (f : Nullish (list A)) (l : list A) :
  z_nullable_optional (z_array item) j = ZodOk f -> f = Present l ->
  json_array_length j = Some (length l).
Proof.
  intros H ->. destruct j as [j|]; [|discriminate H].
  destruct j; try discriminate H.
  unfold z_nullable_optional, fmap, zod_fmap in H.
  destruct (z_array item (Some (JArr items))) as [r|msg] eqn:Hr; [|discriminate H].
  injection H as <-. by apply z_array_length in Hr.
Qed.

(** The schema checks the types of the entries and keeps every array at
    the length the server sent. *)
Lemma GetItemsResponseSchema_lengths (j : Json) (b : GetItemsResponse) :
  GetItemsResponseSchema (Some j) = ZodOk b ->
  exists o, j = JObj o /\
    json_array_length (get_field "ids" o) = Some (length (ids b)) /\
    (forall l, documents b = Present l ->
       json_array_length (get_field "documents" o) = Some (length l)) /\
    (forall l, metadatas b = Present l ->
       json_array_length (get_field "metadatas" o) = Some (length l)) /\
    (forall l, embeddings b = Present l ->
       json_array_length (get_field "embeddings" o) = Some (length l)).
Proof.
  unfold GetItemsResponseSchema, z_object. destruct j; try discriminate.
  unfold mbind, zod_bind, mret, zod_ret.
  destruct (z_array z_string _) as [i|] eqn:Hi; [|discriminate].
  destruct (z_nullable_optional _ (get_field "embeddings" fields)) as [e|] eqn:He; [|discriminate].
  destruct (z_nullable_optional _ (get_field "documents" fields)) as [d|] eqn:Hd; [|discriminate].
  destruct (z_nullable_optional _ (get_field "metadatas" fields)) as [m|] eqn:Hm; [|discriminate].
  destruct (z_nullable_optional _ (get_field "uris" fields)) as [u|] eqn:Hu; [|discriminate].
  intros H. injection H as <-. cbn [ids documents metadatas embeddings].
  exists fields. split; [reflexivity|]. split; [by apply z_array_length in Hi|].
  repeat split; intros l Hl; eapply z_nullable_optional_length; eauto.
Qed.

(** A field that every page carries with one entry per id has one entry per
    id in the concatenation. *)
Lemma concat_entries_aligned {A} (field : GetItemsResponse -> Nullish (list A))
    (pages : list GetItemsResponse) :
  Forall (fun p => field_full (length (ids p)) (field p)) pages ->
  length (concat (map (fun p => entries (field p)) pages)) = length (concat (map ids pages)).
Proof.
  induction 1 as [|p pages (l & Hl & Hlen) _ IH]; [reflexivity|].
  cbn [map concat]. rewrite !length_app, IH, Hl. cbn [entries]. by rewrite Hlen.
Qed.

Lemma nonEmptyOrUndefined_aligned {A} (n : nat) (l : list A) :
  length l = n -> field_aligned n (nonEmptyOrUndefined l).
Proof. intros H. destruct l; [exact I|exact H]. Qed.

(** C1 (as amended). Schema validation checks the entries of a get-items
    response but not the lengths: the parsed batch has exactly the array
    lengths the server sent.  The result of [getAllItems] is the
    concatenation, field by field, of what the pages of the run carry (a page
    whose field is null or absent contributes nothing to that field, and a
    field that stays empty is [undefined]); so a field of the result has
    length [ids.length] when every page of the run carries it with one entry
    per id. *)
Theorem batch_alignment_follows_server :
  (forall j b,
     GetItemsResponseSchema (Some j) = ZodOk b ->
     exists o, j = JObj o /\
       json_array_length (get_field "ids" o) = Some (length (ids b)) /\
       (forall l, documents b = Present l ->
          json_array_length (get_field "documents" o) = Some (length l)) /\
       (forall l, metadatas b = Present l ->
          json_array_length (get_field "metadatas" o) = Some (length l)) /\
       (forall l, embeddings b = Present l ->
          json_array_length (get_field "embeddings" o) = Some (length l))) /\
  (forall cid total onProgress w res w',
     getAllItems network vite cid total onProgress w = (Returns res, w') ->
     exists pages,
       receives network vite cid onProgress 0 0 w pages w' /\
       ids res = concat (map ids pages) /\
       documents res =
         nonEmptyOrUndefined (concat (map (fun p => entries (documents p)) pages)) /\
       metadatas res =
         nonEmptyOrUndefined (concat (map (fun p => entries (metadatas p)) pages)) /\
       embeddings res =
         nonEmptyOrUndefined (concat (map (fun p => entries (embeddings p)) pages)) /\
       (Forall (fun p => field_full (length (ids p)) (documents p)) pages ->
        field_aligned (length (ids res)) (documents res)) /\
       (Forall (fun p => field_full (length (ids p)) (metadatas p)) pages ->
        field_aligned (length (ids res)) (metadatas res)) /\
       (Forall (fun p => field_full (length (ids p)) (embeddings p)) pages ->
        field_aligned (length (ids res)) (embeddings res))).
Proof.
  split; [exact GetItemsResponseSchema_lengths|].
  intros cid total onProgress w res w' Hrun.
  unfold getAllItems in Hrun. unfold mbind at 1, M_bind at 1 in Hrun.
  destruct (getAllItems_loop network vite _ cid total onProgress 0 _ w)
    as [[acc|t] w1] eqn:Hloop; [|discriminate Hrun].
  injection Hrun as <- <-.
  apply getAllItems_loop_returns in Hloop as (pages & Hrec & ->).
  exists pages. split; [exact Hrec|].
  cbn [ids documents metadatas embeddings accumulated allIds allDocs allMetas allEmbeddings app].
  do 4 (split; [reflexivity|]).
  repeat split; intros Hfull; apply nonEmptyOrUndefined_aligned;
    by apply concat_entries_aligned.
Qed.

End ClientFacts.


(** ** The example servers *)

Section ScenarioFacts.
Import Storage Zod Client Scenarios.

Lemma chromaFetch_failed_to_fetch_is_cors_witness :
  exists ce w',
    chromaFetch failingFetch None "/api/v2/heartbeat" HeartbeatSchema noOpts world0
      = (Throws (ThrownChroma ce), w') /\
    isCors ce = true /\ status ce = None /\ message ce = corsGuidance.
Proof.
  apply (chromaFetch_failed_to_fetch_is_cors failingFetch None "/api/v2/heartbeat"
           HeartbeatSchema noOpts world0 (mkJsError "TypeError" "Failed to fetch"));
    reflexivity.
Defined.




Lemma detectCapabilities_optimistic_without_collections_witness :
  exists caps w',
    detectCapabilities emptyServer None world0 = (Returns caps, w') /\
    getItems_cap caps = true /\ query_cap caps = true.
Proof.
  destruct (detectCapabilities_optimistic_without_collections emptyServer None world0)
    as (caps & w' & events & Hrun & _ & _ & _ & Hget & Hquery & _).
  - reflexivity.
  - reflexivity.
  - exists caps, w'. auto.
Defined.

Example detectCapabilities_on_empty_server :
  fst (detectCapabilities emptyServer None world0) =
  Returns (mkCaps true true true true true true true (Some v2)).
Proof. reflexivity. Qed.

Example detectCapabilities_on_v1_server_requests :
  map url (fetches (log (snd (detectCapabilities v1OnlyServer None world0)))) =
  ["http://localhost:8000/api/v2/heartbeat";
   "http://localhost:8000/api/v1/heartbeat";
   "http://localhost:8000/api/v1/heartbeat";
   "http://localhost:8000/api/v1/version";
   "http://localhost:8000/api/v1/collections";
   "http://localhost:8000/api/v1/collections"].
Proof. reflexivity. Qed.

End ScenarioFacts.

(** ** The paging server *)

Section PagingFacts.
Import Storage Zod Client Scenarios Servers.

Lemma z_all_map {A X} (item : ZodType A) (g : X -> Json) (h : X -> A) (l : list X) :
  (forall x, item (Some (g x)) = ZodOk (h x)) ->
  z_all item (map g l) = ZodOk (map h l).
Proof.
  intros H. induction l as [|x l IH]; [reflexivity|].
  cbn [map z_all]. by rewrite H, IH.
Qed.

(** Every page the paging server sends passes the schema. *)
Lemma pageJson_valid (page : list string) :
  GetItemsResponseSchema (Some (pageJson page)) =
  ZodOk (mkItems page
           (Present (map (fun _ => Some [0.5%float; 1%float]) page))
           (Present (map (fun i => Some ("text of " ++ i)) page))
           (Present (map (fun _ => None) page))
           Undefined).
Proof.
  unfold GetItemsResponseSchema, pageJson, z_object.
  cbn [get_field String.eqb Ascii.eqb Bool.eqb].
  unfold z_array, z_nullable_optional.
  rewrite (z_all_map z_string JStr (fun i => i)) by reflexivity.
  rewrite (z_all_map (z_nullable (fun j => match j with
                                           | Some (JArr l) => z_all z_number l
                                           | _ => ZodError "Expected array"
                                           end))
             (fun _ : string => JArr [JNum 0.5%float; JNum 1%float])
             (fun _ => Some [0.5%float; 1%float])) by reflexivity.
  rewrite (z_all_map (z_nullable z_string) (fun i => JStr ("text of " ++ i))
             (fun i => Some ("text of " ++ i))) by reflexivity.
  rewrite (z_all_map (z_nullable z_record_unknown) (fun _ : string => JNull)
             (fun _ => None)) by reflexivity.
  rewrite map_id. reflexivity.
Qed.

(** Every page the paging server sends is a valid batch in which every
    array has one entry per id. *)
Lemma pagingServer_page (n : nat) (cid : string) (w : World) (off : Z) (p : GetItemsResponse) :
  fst (getItems (pagingServer n) None cid (pageParams off) w) = Returns p ->
  exists l,
    p = mkItems l
          (Present (map (fun _ => Some [0.5%float; 1%float]) l))
          (Present (map (fun i => Some ("text of " ++ i)) l))
          (Present (map (fun _ => None) l))
          Undefined.
Proof.
  rewrite getItems_unfold, chromaFetch_unfold. cbn zeta.
  destruct (authReturns w); [|discriminate].
  set (page := firstn (Z.to_nat (Z_of_number (number_of_Z pageSize)))
                 (skipn (Z.to_nat (Z_of_number (number_of_Z off))) (sampleIds n))).
  assert (Hfetch : fst (fetch (pagingServer n)
                     (chromaRequest None (apiPrefix w ++ "/collections/" ++ cid ++ "/get")
                        (mkOpts (Some "POST") (Some (getItemsBody (pageParams off))) ∅ None) w) w)
                   = Returns (mkResponse 200 "OK" None (inr (pageJson page)))) by reflexivity.
  rewrite Hfetch. cbn [res_ok res_status res_json andb Z.leb Z.ltb Z.compare Pos.compare
                       Pos.compare_cont].
  rewrite pageJson_valid. cbn [fst]. intros H. injection H as <-. eexists. reflexivity.
Qed.

(** A run of the export that observes its progress receives a page when
    the request of that page is answered. *)
Lemma receives_page (network : Network) (vite : option string) (cid : string) (observe : bool)
    (off : Z) (fetched : nat) (w w' : World) (p : GetItemsResponse)
    (rest : list GetItemsResponse) :
  fst (getItems network vite cid (pageParams off) w) = Returns p ->
  receives network vite cid (progressCallback observe) (off + pageSize)
    (fetched + length (ids p))
    (snd (callProgress (progressCallback observe) (fetched + length (ids p))
            (snd (getItems network vite cid (pageParams off) w)))) rest w' ->
  receives network vite cid (progressCallback observe) off fetched w (p :: rest) w'.
Proof.
  intros Hget Hrest. cbn [receives]. eexists _, _. split; [|split; [|exact Hrest]].
  - rewrite (surjective_pairing (getItems network vite cid (pageParams off) w)).
    by rewrite Hget.
  - by destruct observe.
Qed.

(** The export of a collection of 1200 records: three requests, progress
    reported after every page, the 1200 records returned. *)
Lemma getAllItems_page_requests_witness :
  let pages := [samplePage 1200 0; samplePage 1200 500; samplePage 1200 1000] in
  exists w',
    getAllItems (pagingServer 1200) None "c1" 1200 (progressCallback true) world0 =
      (Returns (exported pages), w') /\
    fetches (log w') = map (fun i => pageRequest None "c1" world0 (500 * Z.of_nat i)) (seq 0 3) /\
    progressCalls (log w') = [500; 1000; 1200]%nat /\
    length (ids (exported pages)) = 1200%nat /\
    field_full 1200 (documents (exported pages)).
Proof.
  intros pages.
  exists (snd (getAllItems (pagingServer 1200) None "c1" 1200 (progressCallback true) world0)).
  assert (Hrec : receives (pagingServer 1200) None "c1" (progressCallback true) 0 0
                   world0 pages
                   (snd (getAllItems (pagingServer 1200) None "c1" 1200
                           (progressCallback true) world0))).
  { do 3 (apply receives_page; [vm_compute; reflexivity|]). vm_compute. reflexivity. }
  destruct (getAllItems_page_requests (pagingServer 1200) None "c1" 1200 true pages world0 _
              ltac:(lia) eq_refl Hrec)
    as (Hrun & _ & Hlog & Hf & Hp & _ & Htotal & _).
  split; [exact Hrun|]. rewrite Hlog. cbn [log world0 initialWorld app].
  split; [exact Hf|]. split; [rewrite Hp; vm_compute; reflexivity|].
  split; [vm_compute; reflexivity|].
  eexists. split; [vm_compute; reflexivity|]. vm_compute. reflexivity.
Defined.

(** C2, as the claim states it, fails: against a server that fails from
    the second page on, the export of 1200 records issues two page requests,
    not three, and throws the error of the second. *)
Lemma getAllItems_page_requests_counterexample :
  pageCount 1200 = 3%nat /\
  fst (getAllItems truncatedServer None "c1" 1200 None world0) =
    Throws (ThrownChroma (mkChromaError "Chroma HTTP 500: boom" (Some 500) false)) /\
  map body (fetches (log (snd (getAllItems truncatedServer None "c1" 1200 None world0)))) =
    [Some (getItemsBody (pageParams 0)); Some (getItemsBody (pageParams 500))].
Proof. split; [reflexivity|]. split; vm_compute; reflexivity. Qed.

(** C1, as the claim states it, fails twice: the schema accepts a response
    with two ids and one document; and an export whose first page carries
    documents and whose second page answers [documents: null] returns three
    ids with two documents, although each page on its own is aligned. *)
Lemma batch_alignment_counterexample :
  GetItemsResponseSchema (Some misalignedJson) =
    ZodOk (mkItems ["a"; "b"] Undefined (Present [Some "only one"]) Undefined Undefined) /\
  ~ aligned (mkItems ["a"; "b"] Undefined (Present [Some "only one"]) Undefined Undefined) /\
  fst (getAllItems sparseServer None "c1" 1000 None world0) =
    Returns (mkItems ["a"; "b"; "c"] Undefined (Present [Some "x"; Some "y"])
               Undefined Undefined) /\
  ~ aligned (mkItems ["a"; "b"; "c"] Undefined (Present [Some "x"; Some "y"])
               Undefined Undefined).
Proof.
  split; [reflexivity|]. split; [by intros [H _]|].
  split; [reflexivity|]. by intros [H _].
Qed.

Lemma batch_alignment_follows_server_witness :
  json_array_length
    (get_field "documents"
       [("ids", JArr [JStr "a"; JStr "b"]); ("documents", JArr [JStr "only one"])]) = Some 1%nat /\
  match getAllItems (pagingServer 1200) None "c1" 1200 None world0 with
  | (Returns res, _) => field_aligned (length (ids res)) (documents res)
  | _ => True
  end.
Proof.
  destruct (batch_alignment_follows_server (pagingServer 1200) None) as [Hschema Hexport].
  split.
  - destruct (Hschema misalignedJson
                (mkItems ["a"; "b"] Undefined (Present [Some "only one"]) Undefined Undefined)
                eq_refl) as (o & Ho & _ & Hdocs & _).
    injection Ho as <-. apply (Hdocs [Some "only one"]). reflexivity.
  - destruct (getAllItems (pagingServer 1200) None "c1" 1200 None world0)
      as [[res|t] w'] eqn:Hrun; [|exact I].
    destruct (Hexport _ _ _ _ _ _ Hrun) as (pages & Hrec & _ & _ & _ & _ & Hdocs & _).
    apply Hdocs.
    apply (receives_Forall (pagingServer 1200) None _ "c1" None pages 0 0%nat world0 w' Hrec).
    intros w0 off p Hp. apply pagingServer_page in Hp as [l ->].
    eexists. split; [reflexivity|]. apply length_map.
Defined.

End PagingFacts.

(** ** k-means and PCA *)

Section AnalysisFacts.
Import Analysis.
Context {F : Type} {num : Num F}.

(** A [for] loop over [start .. start + len - 1], by its invariant. *)
Lemma fold_left_seq_invariant {A} (P : nat -> A -> Prop) (f : A -> nat -> A)
    (start len : nat) (a : A) :
  P start a ->
  (forall j a', (start <= j < start + len)%nat -> P j a' -> P (S j) (f a' j)) ->
  P (start + len)%nat (fold_left f (seq start len) a).
Proof.
  revert start a. induction len as [|len IH]; intros start a H0 Hstep; cbn [seq fold_left].
  - by rewrite Nat.add_0_r.
  - replace (start + S len)%nat with (S start + len)%nat by lia.
    apply IH.
    + apply Hstep; [lia|exact H0].
    + intros j a' Hj. apply Hstep. lia.
Qed.

Lemma seedNext_length (points : list (Point F)) (cs : list (Point F)) (g : Rng F) :
  length (fst (seedNext points (cs, g))) = S (length cs).
Proof.
  unfold seedNext. destruct (random g) as [u g1].
  destruct (weightedPick _ _ _) as [p|].
  - cbn [fst]. rewrite length_app. cbn. lia.
  - destruct (randomPoint points g1) as [p g2]. cbn [fst]. rewrite length_app. cbn. lia.
Qed.

Lemma seedCentroids_length (points : list (Point F)) (k : nat) (g : Rng F) :
  (1 <= k)%nat -> length (fst (seedCentroids points k g)) = k.
Proof.
  intros Hk. unfold seedCentroids. destruct (randomPoint points g) as [p0 g0].
  pose proof (fold_left_seq_invariant
                (fun c (st : list (Point F) * Rng F) => length (fst st) = c)
                (fun st _ => seedNext points st) 1 (k - 1) ([p0], g0)) as H.
  replace (1 + (k - 1))%nat with k in H by lia. apply H; [reflexivity|].
  intros j [cs g'] _ Hlen. rewrite seedNext_length. cbn [fst] in Hlen. by rewrite Hlen.
Qed.

Lemma assign_lt (cs : list (Point F)) (k : nat) (p : Point F) :
  (1 <= k)%nat -> (assign cs k p < k)%nat.
Proof.
  intros Hk. unfold assign.
  pose proof (fold_left_seq_invariant
                (fun _ (st : F * nat) => (snd st < k)%nat)
                (fun '(minD, best) c =>
                   let d := squaredDistance p (pointAt cs (Some c)) in
                   if n_ltb d minD then (d, c) else (minD, best))
                0 k (n_infinity, 0%nat)) as H.
  apply H; [exact Hk|].
  intros j [minD best] Hj Hbest. cbn zeta.
  destruct (n_ltb _ minD); cbn [snd] in *; lia.
Qed.

Lemma updateCentroids_length (points : list (Point F)) (newLabels : list nat) (k : nat)
    (cs : list (Point F)) :
  length (fst (updateCentroids points newLabels k cs)) = length cs.
Proof.
  unfold updateCentroids.
  apply (fold_left_seq_invariant
           (fun _ (st : list (Point F) * bool) => length (fst st) = length cs)); [reflexivity|].
  intros j [cs' changed] _ Hlen.
  destruct (clusterSums points newLabels j n_zero n_zero 0) as [[sumX sumY] [|cnt]];
    cbn [fst] in *; [exact Hlen|].
  by rewrite length_insert.
Qed.

Lemma iterate_spec (maxIter : nat) (points : list (Point F)) (k : nat)
    (ls : list nat) (cs : list (Point F)) :
  (1 <= k)%nat -> length ls = length points -> Forall (fun l => (l < k)%nat) ls ->
  let res := iterate maxIter points k ls cs in
  length (fst res) = length points /\
  Forall (fun l => (l < k)%nat) (fst res) /\
  length (snd res) = length cs.
Proof.
  intros Hk. revert ls cs. induction maxIter as [|maxIter IH]; intros ls cs Hlen Hall.
  - cbn. auto.
  - cbn [iterate].
    pose proof (updateCentroids_length points (map (assign cs k) points) k cs) as Hup.
    destruct (updateCentroids points (map (assign cs k) points) k cs) as [cs' changed].
    cbn [fst] in Hup.
    assert (Hnew : Forall (fun l => (l < k)%nat) (map (assign cs k) points)).
    { apply Forall_forall. intros l Hin. apply list_elem_of_fmap in Hin as (p & -> & _).
      by apply assign_lt. }
    destruct changed.
    + destruct (IH (map (assign cs k) points) cs') as (H1 & H2 & H3);
        [apply length_map|exact Hnew|].
      cbn zeta in *. rewrite H3, Hup. auto.
    + cbn zeta. cbn [fst snd]. rewrite length_map. auto.
Qed.

(** C8. For every non-empty list of points and every [k >= 1], [kMeans]
    returns one label per point, every label below [k], and exactly [k]
    centroids; with [maxIter = 0] the centroids are the seeded ones, unmoved,
    and the assignment puts every point in cluster 0. *)
Theorem kMeans_labels_and_centroids (points : list (Point F)) (k maxIter : nat) (g : Rng F) :
  points <> [] -> (1 <= k)%nat ->
  length (labels (fst (kMeans points k maxIter g))) = length points /\
  Forall (fun l => (l < k)%nat) (labels (fst (kMeans points k maxIter g))) /\
  length (centroids (fst (kMeans points k maxIter g))) = k /\
  centroids (fst (kMeans points k 0 g)) = fst (seedCentroids points k g) /\
  labels (fst (kMeans points k 0 g)) = replicate (length points) 0%nat.
Proof.
  intros Hne Hk. destruct points as [|p0 points]; [done|].
  unfold kMeans.
  pose proof (seedCentroids_length (p0 :: points) k g Hk) as Hseed.
  destruct (seedCentroids (p0 :: points) k g) as [seeds g'] eqn:Hs. cbn [fst] in Hseed.
  destruct (iterate_spec maxIter (p0 :: points) k
              (replicate (length (p0 :: points)) 0%nat) seeds Hk) as (H1 & H2 & H3).
  { apply length_replicate. }
  { apply Forall_replicate. lia. }
  destruct (iterate maxIter (p0 :: points) k _ seeds) as [ls cs].
  cbn [fst snd labels centroids iterate] in *.
  rewrite H3, Hseed. auto.
Qed.

Lemma pairUp_map {X} (f h : X -> F) (l : list X) :
  pairUp (map f l) (map h l) = map (fun v => mkPoint (f v) (h v)) l.
Proof. induction l as [|x l IH]; [reflexivity|]. cbn. by rewrite IH. Qed.

(** C7. [pcaProject] returns one pair per input vector, in input order:
    the i-th pair is the projection of the i-th vector, centred on the mean,
    onto the two components; the empty list gives the empty list. *)
Theorem pcaProject_one_pair_per_vector (embeddings : list (list F)) (g : Rng F) :
  length (fst (pcaProject embeddings g)) = length embeddings /\
  fst (pcaProject [] g) = [] /\
  exists mean pc1 pc2,
    forall i v,
      embeddings !! i = Some v ->
      fst (pcaProject embeddings g) !! i =
      Some (mkPoint (dotWith (subtractMean v mean) pc1 n_zero)
                    (dotWith (subtractMean v mean) pc2 n_zero)).
Proof.
  destruct embeddings as [|first rest].
  - cbn. split; [reflexivity|]. split; [reflexivity|].
    exists [], [], []. intros i v H. by rewrite lookup_nil in H.
  - unfold pcaProject.
    set (embeddings := first :: rest).
    set (mean := meanOf embeddings (length first)).
    set (centered := map (fun vec => subtractMean vec mean) embeddings).
    destruct (powerIteration (length first) centered g) as [pc1 g1].
    destruct (powerIteration (length first) _ g1) as [pc2 g2].
    cbn [fst]. unfold projectOnto. subst centered.
    rewrite !map_map, pairUp_map.
    split; [apply length_map|]. split; [reflexivity|].
    exists mean, pc1, pc2. intros i v Hi.
    rewrite list_lookup_fmap, Hi. reflexivity.
Qed.

End AnalysisFacts.

(** ** The similarity matrix *)

Section MatrixFacts.
Import Analysis.
Context {F : Type} {num : Num F}.

Lemma validData_loop_present (embeddings : list (option (list F))) (ids : list string)
    (cap : nat) (i : nat) (items : list (string * list F)) :
  (length items <= cap)%nat ->
  map snd (validData_loop i embeddings ids cap items) =
  (map snd items ++ take (cap - length items) (presentEmbeddings embeddings))%list.
Proof.
  unfold presentEmbeddings.
  revert i items. induction embeddings as [|e rest IH]; intros i items Hlen.
  - cbn [validData_loop omap list_omap]. by rewrite take_nil, app_nil_r.
  - cbn [validData_loop]. destruct (length items <? cap)%nat eqn:Hlt.
    + apply Nat.ltb_lt in Hlt. destruct e as [v|].
      * rewrite IH by (rewrite length_app; cbn; lia).
        rewrite map_app, length_app. cbn [map length snd omap list_omap].
        replace (cap - length items)%nat with (S (cap - (length items + 1)))%nat by lia.
        cbn [take]. by rewrite <- app_assoc.
      * rewrite IH by lia. reflexivity.
    + apply Nat.ltb_ge in Hlt. replace (cap - length items)%nat with 0%nat by lia.
      cbn. by rewrite app_nil_r.
Qed.

Lemma setCell_square (n a b : nat) (v : F) (mat : list (list F)) :
  isSquare n mat -> isSquare n (setCell a b v mat).
Proof.
  intros [Hlen Hrows]. split.
  - unfold setCell. by rewrite length_alter.
  - unfold setCell. apply Forall_alter; [exact Hrows|].
    intros row _ Hrow. by rewrite length_insert.
Qed.

Lemma cell_setCell (n a b : nat) (v : F) (mat : list (list F)) (i j : nat) :
  isSquare n mat -> (a < n)%nat -> (b < n)%nat ->
  cell (setCell a b v mat) i j =
  if decide (i = a /\ j = b) then Some v else cell mat i j.
Proof.
  intros [Hlen Hrows] Ha Hb. unfold cell, setCell.
  destruct (decide (i = a)) as [->|Hia].
  - rewrite list_lookup_alter_eq.
    destruct (mat !! a) as [row|] eqn:Hrow.
    + cbn. assert (length row = n) as Hr.
      { rewrite Forall_lookup in Hrows. by eapply Hrows. }
      destruct (decide (j = b)) as [->|Hjb].
      * rewrite decide_True by done. apply list_lookup_insert_eq. lia.
      * rewrite decide_False by tauto. by apply list_lookup_insert_ne.
    + apply lookup_ge_None in Hrow. lia.
  - rewrite list_lookup_alter_ne by done. rewrite decide_False by tauto. reflexivity.
Qed.

(** The cells of the finished matrix. *)
Lemma similarityMatrix_cells (data : list (string * list F)) :
  isSquare (length data) (similarityMatrix data) /\
  forall i j, (i < length data)%nat -> (j < length data)%nat ->
    cell (similarityMatrix data) i j = Some (similarityOf data i j).
Proof.
  set (n := length data).
  pose (filled := fun (k : nat) (mat : list (list F)) =>
          isSquare n mat /\
          forall i j, (i < n)%nat -> (j < n)%nat ->
            cell mat i j =
            Some (if decide (i < k \/ j < k)%nat then similarityOf data i j else n_zero)).
  assert (Hfinal : filled (0 + n)%nat (similarityMatrix data)).
  { unfold similarityMatrix. fold n.
    apply (fold_left_seq_invariant filled).
    - split.
      + split; [apply length_replicate|]. apply Forall_replicate, length_replicate.
      + intros i j Hi Hj. unfold cell. rewrite lookup_replicate_2 by done. cbn.
        rewrite lookup_replicate_2 by done. by rewrite decide_False by lia.
    - intros i0 mat Hi0 [Hsq Hcells].
      pose (row_filled := fun (m : nat) (mat' : list (list F)) =>
              isSquare n mat' /\
              forall i j, (i < n)%nat -> (j < n)%nat ->
                cell mat' i j =
                Some (if decide (i < i0 \/ j < i0 \/
                                 (i = i0 /\ i0 <= j < m) \/ (j = i0 /\ i0 <= i < m))%nat
                      then similarityOf data i j else n_zero)).
      assert (Hrow : row_filled (S i0 + (n - S i0))%nat
                (fold_left
                   (fun mat' j =>
                      let sim := cosineSimilarity (embAt data i0) (embAt data j) in
                      setCell j i0 sim (setCell i0 j sim mat'))
                   (seq (S i0) (n - S i0)) (setCell i0 i0 n_one mat))).
      { apply (fold_left_seq_invariant row_filled).
        - split; [by apply setCell_square|].
          intros i j Hi Hj. rewrite (cell_setCell n) by (done || lia).
          destruct (decide (i = i0 /\ j = i0)) as [[-> ->]|Hne].
          + rewrite decide_True by lia. unfold similarityOf. by rewrite decide_True.
          + rewrite Hcells by done.
            destruct (decide (i < i0 \/ j < i0)%nat).
            * by rewrite decide_True by lia.
            * by rewrite decide_False by lia.
        - intros m mat' Hm [Hsq' Hcells']. cbn zeta. split.
          + by do 2 apply setCell_square.
          + intros i j Hi Hj.
            rewrite (cell_setCell n) by (done || lia || by apply setCell_square).
            destruct (decide (i = m /\ j = i0)) as [[-> ->]|Hne1].
            * rewrite decide_True by lia. unfold similarityOf.
              rewrite decide_False by lia. by rewrite decide_False by lia.
            * rewrite (cell_setCell n) by (done || lia).
              destruct (decide (i = i0 /\ j = m)) as [[-> ->]|Hne2].
              -- rewrite decide_True by lia. unfold similarityOf.
                 rewrite decide_False by lia. by rewrite decide_True by lia.
              -- rewrite Hcells' by done.
                 destruct (decide (i < i0 \/ j < i0 \/
                                   (i = i0 /\ i0 <= j < m) \/ (j = i0 /\ i0 <= i < m))%nat).
                 ++ by rewrite decide_True by lia.
                 ++ by rewrite decide_False by lia. }
      destruct Hrow as [Hsq' Hcells']. split; [exact Hsq'|].
      intros i j Hi Hj. rewrite Hcells' by done.
      destruct (decide (i < S i0 \/ j < S i0)%nat).
      + by rewrite decide_True by lia.
      + by rewrite decide_False by lia. }
  destruct Hfinal as [Hsq Hcells]. split; [exact Hsq|].
  intros i j Hi Hj. rewrite Hcells by done. by rewrite decide_True by lia.
Qed.

End MatrixFacts.

(** ** Cosine similarity on doubles *)

Section CosineSums.
Import Analysis.
Context {F : Type} {num : Num F}.

(** For two vectors of one dimension the loop of [cosineSimilarity]
    computes the three sums. *)
Lemma cosine_sums_folds (a b : list F) (dot magA magB : F) :
  length a = length b ->
  cosine_sums a b dot magA magB =
  (fold_left (fun s xy => n_add s (n_mul (fst xy) (snd xy))) (zip a b) dot,
   fold_left (fun s x => n_add s (n_mul x x)) a magA,
   fold_left (fun s x => n_add s (n_mul x x)) b magB).
Proof.
  revert b dot magA magB. induction a as [|x a IH]; intros [|y b] dot magA magB Hlen;
    try discriminate Hlen; [reflexivity|].
  cbn [cosine_sums hd tl zip zip_with fold_left fst snd].
  apply IH. by injection Hlen.
Qed.

Lemma cosineSimilarity_unfold (a b : list F) :
  length a = length b ->
  cosineSimilarity a b =
  if n_eqb (n_mul (magnitude a) (magnitude b)) n_zero then n_zero
  else n_div (sumOfProducts a b) (n_mul (magnitude a) (magnitude b)).
Proof.
  intros Hlen. unfold cosineSimilarity. by rewrite cosine_sums_folds.
Qed.

End CosineSums.

Section DoubleFacts.
Import Analysis.

(** A double that compares equal to 0 is one of the two zeros. *)
Lemma eqb_zero_inv (x : float) :
  PrimFloat.eqb x 0 = true -> exists s, Prim2SF x = S754_zero s.
Proof.
  rewrite FloatAxioms.eqb_spec. change (Prim2SF 0) with (S754_zero false).
  destruct (Prim2SF x) as [s|s| |s m e]; cbn; try discriminate; eauto; by destruct s.
Qed.

(** A finite double is a zero or a finite non-zero number. *)
Lemma is_finite_inv (x : float) :
  PrimFloat.is_finite x = true ->
  (exists s, Prim2SF x = S754_zero s) \/ (exists s m e, Prim2SF x = S754_finite s m e).
Proof.
  unfold PrimFloat.is_finite, PrimFloat.is_nan, PrimFloat.is_infinity.
  rewrite !FloatAxioms.eqb_spec, FloatAxioms.abs_spec. change (Prim2SF infinity) with (S754_infinity false).
  destruct (Prim2SF x) as [s|s| |s m e]; cbn; try discriminate; eauto 6; by destruct s.
Qed.

(** Zero times a finite number is a zero, on either side. *)
Lemma mul_zero_finite (x y : float) :
  PrimFloat.eqb x 0 = true -> PrimFloat.is_finite y = true ->
  PrimFloat.eqb (x * y) 0 = true /\ PrimFloat.eqb (y * x) 0 = true.
Proof.
  intros Hx Hy. apply eqb_zero_inv in Hx as [sx Hx].
  rewrite !FloatAxioms.eqb_spec, !FloatAxioms.mul_spec, Hx. change (Prim2SF 0) with (S754_zero false).
  apply is_finite_inv in Hy as [[sy ->]|(sy & m & e & ->)]; split; reflexivity.
Qed.

(** A sum of squares of zeros is a zero, and so is its square root. *)
Lemma sumOfSquares_zeros (a : list float) (acc : float) :
  Prim2SF acc = S754_zero false ->
  Forall (fun x => PrimFloat.eqb x 0 = true) a ->
  Prim2SF (fold_left (fun s x => s + x * x)%float a acc) = S754_zero false.
Proof.
  intros Hacc Ha. revert acc Hacc. induction Ha as [|x a Hx _ IH]; intros acc Hacc;
    [exact Hacc|].
  cbn [fold_left]. apply IH.
  apply eqb_zero_inv in Hx as [sx Hx].
  rewrite FloatAxioms.add_spec, FloatAxioms.mul_spec, Hacc, Hx. by destruct sx.
Qed.

Lemma magnitude_zeros (a : list float) :
  Forall (fun x => PrimFloat.eqb x 0 = true) a ->
  PrimFloat.eqb (magnitude a) 0 = true.
Proof.
  intros Ha. unfold magnitude, sumOfSquares. cbn [n_sqrt n_add n_mul n_zero float_num].
  rewrite FloatAxioms.eqb_spec, FloatAxioms.sqrt_spec, (sumOfSquares_zeros a 0 eq_refl Ha). reflexivity.
Qed.

(** On doubles the similarity is 0 when one magnitude is zero and the
    other is finite. *)
Lemma cosineSimilarity_zero_magnitude (a b : list float) :
  length a = length b ->
  (PrimFloat.eqb (magnitude a) 0 = true /\ PrimFloat.is_finite (magnitude b) = true) \/
  (PrimFloat.eqb (magnitude b) 0 = true /\ PrimFloat.is_finite (magnitude a) = true) ->
  cosineSimilarity a b = 0%float.
Proof.
  intros Hlen H. rewrite cosineSimilarity_unfold by exact Hlen.
  cbn [n_eqb n_mul n_zero n_div float_num].
  destruct H as [[Hz Hf]|[Hz Hf]]; destruct (mul_zero_finite _ _ Hz Hf) as [H1 H2].
  - by rewrite H1.
  - by rewrite H2.
Qed.

End DoubleFacts.

(** ** The similarity matrix: structure, and pairs with a zero vector *)

Section SimilarityClaims.
Import Analysis.

(** C6 (as amended). The matrix is computed over the first at most
    [sampleSize] present embeddings, in their order; it is square; its
    diagonal is exactly 1; it is exactly symmetric; above the diagonal cell
    [(i, j)] is [cosineSimilarity] of vectors [i] and [j], the quotient as
    the doubles round it.  On doubles, for two vectors of one dimension of
    which one has magnitude zero and the other a finite magnitude, the
    similarity is 0; a vector whose components are all zero has magnitude
    zero. *)
Theorem similarityMatrix_structure_and_zero_vectors :
  (forall (F : Type) (num : Num F) (embeddings : list (option (list F)))
          (ids : list string) (sampleSize : nat),
     let data := validData embeddings ids sampleSize in
     let mat := similarityMatrix data in
     map snd data = take sampleSize (presentEmbeddings embeddings) /\
     isSquare (length data) mat /\
     forall i j, (i < length data)%nat -> (j < length data)%nat ->
       cell mat i i = Some n_one /\
       cell mat i j = cell mat j i /\
       ((i < j)%nat ->
        cell mat i j = Some (cosineSimilarity (embAt data i) (embAt data j)))) /\
  (forall a b : list float,
     length a = length b ->
     (PrimFloat.eqb (magnitude a) 0 = true /\ PrimFloat.is_finite (magnitude b) = true) \/
     (PrimFloat.eqb (magnitude b) 0 = true /\ PrimFloat.is_finite (magnitude a) = true) ->
     cosineSimilarity a b = 0%float) /\
  (forall a : list float,
     Forall (fun x => PrimFloat.eqb x 0 = true) a -> PrimFloat.eqb (magnitude a) 0 = true).
Proof.
  split; [|split; [exact cosineSimilarity_zero_magnitude|exact magnitude_zeros]].
  intros F num embeddings ids sampleSize data mat.
  split.
  { unfold data, validData. rewrite validData_loop_present by (cbn; lia).
    cbn [map length app]. by rewrite Nat.sub_0_r. }
  destruct (similarityMatrix_cells data) as [Hsq Hcells]. split; [exact Hsq|].
  intros i j Hi Hj. unfold mat. rewrite !Hcells by done.
  unfold similarityOf. split; [by rewrite decide_True|]. split.
  + destruct (decide (i = j)) as [->|Hne].
    * by rewrite decide_True.
    * rewrite (decide_False (P := j = i)) by lia.
      destruct (decide (i < j)%nat).
      -- by rewrite (decide_False (P := (j < i)%nat)) by lia.
      -- by rewrite (decide_True (P := (j < i)%nat)) by lia.
  + intros Hlt. rewrite decide_False by lia. by rewrite decide_True.
Qed.

End SimilarityClaims.

(** ** The analysis engine on doubles *)

Section AnalysisScenarios.
Import Analysis Scenarios.

Example cosine_of_proportional_vectors :
  cosineSimilarity [1; 2; 3]%float [2; 4; 6]%float = 1%float.
Proof. reflexivity. Qed.

Example cosine_of_orthogonal_vectors :
  cosineSimilarity [1; 0]%float [0; 1]%float = 0%float.
Proof. reflexivity. Qed.

(** C6, as the claim states it, fails in double arithmetic: two records
    with the embedding [1, 1, 1] get the similarity 1.0000000000000002,
    above 1; and the zero vector against a vector whose squared magnitude
    overflows gets NaN, not 0. *)
Lemma similarity_entry_above_one :
  similarityMatrix (validData twoEqualVectors ["a"; "b"] 50) =
    [[1; 0x1.0000000000001p+0]; [0x1.0000000000001p+0; 1]]%float /\
  PrimFloat.leb 0x1.0000000000001p+0 1 = false /\
  PrimFloat.is_nan (cosineSimilarity [0]%float [0x1p+600]%float) = true.
Proof. split; [|split]; vm_compute; reflexivity. Qed.

Lemma similarityMatrix_structure_and_zero_vectors_witness :
  cell (similarityMatrix (validData twoEqualVectors ["a"; "b"] 50)) 0 1 =
  cell (similarityMatrix (validData twoEqualVectors ["a"; "b"] 50)) 1 0 /\
  cosineSimilarity [0; -0; 0]%float [3; 4; 12]%float = 0%float /\
  cosineSimilarity [0x1p+500; 1]%float [0x1p-600; 0]%float = 0%float.
Proof.
  destruct similarityMatrix_structure_and_zero_vectors as (Hstructure & Hzero & _).
  split; [|split].
  - destruct (Hstructure float float_num twoEqualVectors ["a"; "b"] 50%nat) as (_ & _ & Hcells).
    apply (Hcells 0%nat 1%nat); cbn; lia.
  - apply Hzero; [reflexivity|]. left. split; vm_compute; reflexivity.
  - apply Hzero; [reflexivity|]. right. split; vm_compute; reflexivity.
Defined.

Lemma kMeans_labels_and_centroids_witness :
  length (labels (fst (kMeans samplePoints 2 50 sampleRng))) = length samplePoints /\
  Forall (fun l => (l < 2)%nat) (labels (fst (kMeans samplePoints 2 50 sampleRng))) /\
  length (centroids (fst (kMeans samplePoints 2 50 sampleRng))) = 2%nat /\
  centroids (fst (kMeans samplePoints 2 0 sampleRng)) = fst (seedCentroids samplePoints 2 sampleRng) /\
  labels (fst (kMeans samplePoints 2 0 sampleRng)) = replicate (length samplePoints) 0%nat.
Proof.
  apply (kMeans_labels_and_centroids samplePoints 2 50 sampleRng); [discriminate|lia].
Defined.

Example kMeans_on_sample :
  fst (kMeans samplePoints 2 50 sampleRng) =
  mkClustering [0; 0; 1; 1; 0]%nat
    [mkPoint 0x1.aaaaaaaaaaaabp+0 2; mkPoint 10 10.5]%float.
Proof. vm_compute. reflexivity. Qed.

Example kMeans_without_iterations :
  fst (kMeans samplePoints 3 0 sampleRng) =
  mkClustering [0; 0; 0; 0; 0]%nat
    [mkPoint 0 0; mkPoint 10 11; mkPoint 5 5]%float.
Proof. vm_compute. reflexivity. Qed.

Lemma pcaProject_one_pair_per_vector_witness :
  length (fst (pcaProject sampleVectors sampleRng)) = 4%nat.
Proof. apply (pcaProject_one_pair_per_vector sampleVectors sampleRng). Defined.

End AnalysisScenarios.

(* ===================================================================== *)
(** * Properties of the rest of the code *)
(* ===================================================================== *)

(** Stepping through a run of the client: the head action is replaced by
    its effect and the world it leaves is given a name. *)
Ltac name_worlds :=
  repeat match goal with
  | |- context [Client.called ?r ?w] =>
      is_var w; let w' := fresh "w" in set (w' := Client.called r w)
  | |- context [Client.cached ?c ?w] =>
      is_var w; let w' := fresh "w" in set (w' := Client.cached c w)
  | |- context [Client.mkWorld (Client.storage ?w) ?v ?c ?l] =>
      is_var w; let w' := fresh "w" in set (w' := Client.mkWorld (Client.storage w) v c l)
  end.

Ltac run_call :=
  first [ rewrite bind_assoc | rewrite bind_probe | rewrite bind_gets
        | rewrite bind_set_version | rewrite bind_set_cached | rewrite bind_ret ];
  cbv beta; name_worlds.

Ltac forget_names :=
  repeat match goal with w := _ : Client.World |- _ => subst w end;
  cbn [Client.detectedApiVersion Client.apiVersion Client.cachedCapabilities
       Client.storage Client.log Client.called Client.cached].

(* ===================================================================== *)
(** ** More of the protocol client *)
(* ===================================================================== *)

Section ClientOpsFacts.
Import Storage Zod Client ClientOps.

Variable network : Network.
Variable vite : option string.
Variable encodeURIComponent : string -> string.

(** A request without a signal settles the way the transport says,
    however long that takes. *)
Lemma fetch_without_signal (req : Request) (w : World) :
  signal req = None ->
  fetch network req w =
  (match outcome (network (log w) req) with
   | Rejects e => Throws (ThrownJs e)
   | Responds r => Returns r
   end, record_event (EvFetch req) w).
Proof.
  intros Hs. unfold fetch. rewrite Hs.
  destruct (outcome (network (log w) req)); reflexivity.
Qed.

(** X1. [chromaFetch] and the configured authentication.  Where
    [getAuthHeaders] returns, [chromaFetch] calls [fetch] once, and for every
    header name the request carries the caller's value, else the value of
    the authentication, else the default "Content-Type: application/json".
    Where [getAuthHeaders] throws, [chromaFetch] does not call [fetch]: it
    raises a [ChromaError] that carries the message of [btoa]'s exception,
    no status, and [isCors = false]. *)
Theorem chromaFetch_headers_or_no_request {T} (path : string) (schema : ZodType T)
    (opts : FetchOpts) (w : World) :
  match getAuthHeaders (storage w) with
  | Some auth =>
      exists req,
        log (snd (chromaFetch network vite path schema opts w)) = (log w ++ [EvFetch req])%list /\
        forall k,
          headers req !! k =
            match opt_headers opts !! k with
            | Some v => Some v
            | None =>
                match auth !! k with
                | Some v => Some v
                | None => if decide (k = "Content-Type") then Some "application/json" else None
                end
            end
  | None =>
      chromaFetch network vite path schema opts w =
      (Throws (ThrownChroma (mkChromaError (err_message invalidCharacterError) None false)), w)
  end.
Proof.
  destruct (getAuthHeaders (storage w)) as [auth|] eqn:Hauth.
  - assert (Hret : authReturns w = true) by (unfold authReturns; by rewrite Hauth).
    exists (chromaRequest vite path opts w). split.
    + rewrite chromaFetch_world, called_returns by exact Hret. reflexivity.
    + intros k. cbn [chromaRequest headers]. unfold authOf. rewrite Hauth. cbn [default].
      destruct (opt_headers opts !! k) as [v|] eqn:Ho.
      * apply lookup_union_Some_l, lookup_union_Some_l, Ho.
      * destruct (auth !! k) as [v|] eqn:Ha.
        -- apply lookup_union_Some_l. rewrite lookup_union_r by exact Ho. exact Ha.
        -- rewrite lookup_union_r by (rewrite lookup_union_r by exact Ho; exact Ha).
           destruct (decide (k = "Content-Type")) as [->|Hne].
           ++ by simplify_map_eq.
           ++ by simplify_map_eq.
  - assert (Hret : authReturns w = false) by (unfold authReturns; by rewrite Hauth).
    rewrite chromaFetch_unfold. cbn zeta. by rewrite Hret.
Qed.

(** X2. [probeUrl] never throws.  It calls [fetch] once where
    [getAuthHeaders] returns and not at all where it throws; it answers
    [true] exactly when [getAuthHeaders] returns, the transport delivers a
    response in less than 5000 ms, and the status of that response is in
    200..299. *)
Theorem probeUrl_true_iff (path : string) (w : World) :
  exists b w',
    probeUrl network vite path w = (Returns b, w') /\
    storage w' = storage w /\ detectedApiVersion w' = detectedApiVersion w /\
    cachedCapabilities w' = cachedCapabilities w /\
    log w' =
      (log w ++ match getAuthHeaders (storage w) with
                | Some _ => [EvFetch (probeRequest vite path w)]
                | None => []
                end)%list /\
    (b = true <->
     getAuthHeaders (storage w) <> None /\
     exists res,
       outcome (network (log w) (probeRequest vite path w)) = Responds res /\
       latency (network (log w) (probeRequest vite path w)) < 5000 /\
       200 <= res_status res < 300).
Proof.
  exists (probe_ok network vite path w), (called (probeRequest vite path w) w).
  split; [apply probeUrl_unfold|]. do 3 (split; [reflexivity|]).
  split. { cbn [log called]. unfold issued, authReturns. by destruct (getAuthHeaders _). }
  unfold probe_ok, authReturns.
  destruct (getAuthHeaders (storage w)) as [auth|]; cbn [andb];
    [|split; [discriminate|by intros [H _]]].
  unfold fetch.
  change (signal (probeRequest vite path w)) with (Some (mkSignal 5000 "TimeoutError")).
  cbv iota beta. cbn [abort_after].
  set (reply := network (log w) (probeRequest vite path w)).
  destruct (5000 <=? latency reply) eqn:Hl.
  - apply Z.leb_le in Hl. cbn [fst]. split; [discriminate|].
    intros (_ & res & _ & Hlt & _). lia.
  - apply Z.leb_gt in Hl.
    destruct (outcome reply) as [e|r]; cbn [fst].
    + split; [discriminate|]. intros (_ & res & Hr & _). discriminate.
    + unfold res_ok. split.
      * intros Hok. apply andb_true_iff in Hok as [H1 H2]. split; [discriminate|].
        exists r. split; [reflexivity|]. lia.
      * intros (_ & res & Hr & _ & H1 & H2). injection Hr as <-.
        apply andb_true_iff. lia.
Qed.

End ClientOpsFacts.

(** ** Connection test and capability detection, the other cases *)

Section DetectionFacts.
Import Storage Zod Client ClientOps.

Variable network : Network.
Variable vite : option string.

Lemma issued_chroma_storage (path : string) (opts : FetchOpts) (w w1 : World) :
  storage w1 = storage w ->
  issued (chromaRequest vite path opts w1) w1 = issued (chromaRequest vite path opts w) w.
Proof.
  intros H. unfold issued. rewrite (authReturns_storage w w1 H).
  by rewrite (chromaRequest_storage vite path opts w w1 H).
Qed.

(** [chromaFetch] returns a validated value or throws a [ChromaError],
    after its one request at most. *)
Lemma chromaFetch_cases {T} (path : string) (schema : ZodType T) (opts : FetchOpts) (w : World) :
  let w' := called (chromaRequest vite path opts w) w in
  (exists v, chromaFetch network vite path schema opts w = (Returns v, w') /\
             authReturns w = true) \/
  (exists e, chromaFetch network vite path schema opts w = (Throws (ThrownChroma e), w')).
Proof.
  cbn zeta. rewrite chromaFetch_unfold. cbn zeta. destruct (authReturns w) eqn:Hauth.
  - rewrite called_returns by exact Hauth.
    destruct (fst (fetch network _ w)) as [res|t]; [|eauto].
    destruct (res_ok res); [|eauto].
    destruct (res_json res) as [e|j]; [eauto|].
    destruct (schema (Some j)); eauto.
  - rewrite called_throws by exact Hauth. eauto.
Qed.

Lemma testConnection_version (w : World) :
  detectedApiVersion (snd (testConnection network vite w)) =
  Some (if probe_ok network vite "/api/v2/heartbeat" w then v2 else v1).
Proof.
  unfold testConnection. rewrite bind_probe, bind_set_version, bind_gets.
  match goal with |- context [mbind _ (chromaFetch network vite ?p ?s ?o) ?w1] =>
    destruct (chromaFetch_cases p s o w1) as [(hb & H & _)|[e H]] end.
  - erewrite bind_returns by exact H. rewrite bind_gets.
    match goal with |- context [mbind _ (chromaFetch network vite ?p ?s ?o) ?w1] =>
      destruct (chromaFetch_cases p s o w1) as [(ver & H2 & _)|[e H2]] end.
    + erewrite bind_returns by exact H2. reflexivity.
    + erewrite bind_throws by exact H2. reflexivity.
  - erewrite bind_throws by exact H. reflexivity.
Qed.

(** X3. [testConnection] pins the API version before it knows whether the
    server answers: "v2" when the v2 heartbeat probe succeeds and "v1"
    otherwise, without probing v1.  It then requests the heartbeat and the
    version of the pinned API in this order; it stops at the first one that
    fails, always with a [ChromaError], and the pinned version stays.  The
    stored settings and the cached capabilities are not touched.  ([issued]
    is the one request where [getAuthHeaders] returns, and nothing where it
    throws before [fetch] is called.) *)
Theorem testConnection_pins_before_it_fetches (w : World) :
  let v := if probe_ok network vite "/api/v2/heartbeat" w then v2 else v1 in
  let r1 := probeRequest vite "/api/v2/heartbeat" w in
  let r2 := chromaRequest vite ("/api/" ++ versionString v ++ "/heartbeat") noOpts w in
  let r3 := chromaRequest vite ("/api/" ++ versionString v ++ "/version") noOpts w in
  exists o w',
    testConnection network vite w = (o, w') /\
    detectedApiVersion w' = Some v /\
    storage w' = storage w /\
    cachedCapabilities w' = cachedCapabilities w /\
    match o with
    | Returns _ => log w' = (log w ++ [EvFetch r1; EvFetch r2; EvFetch r3])%list
    | Throws t =>
        (exists e, t = ThrownChroma e) /\
        (log w' = (log w ++ issued r1 w ++ issued r2 w)%list \/
         log w' = (log w ++ issued r1 w ++ issued r2 w ++ issued r3 w)%list)
    end.
Proof.
  cbn zeta. unfold testConnection. rewrite bind_probe, bind_set_version, bind_gets.
  set (v := if probe_ok network vite "/api/v2/heartbeat" w then v2 else v1).
  set (w1 := mkWorld _ (Some v) _ _).
  assert (Hst1 : storage w1 = storage w) by reflexivity.
  assert (Hbase : forall w2, detectedApiVersion w2 = Some v ->
            apiBase w2 = "/api/" ++ versionString v).
  { intros w2 H2. unfold apiBase, effectiveVersion. by rewrite H2. }
  rewrite (Hbase w1 eq_refl).
  destruct (chromaFetch_cases ("/api/" ++ versionString v ++ "/heartbeat")
              HeartbeatSchema noOpts w1) as [(hb & H & Hauth)|[e H]].
  - erewrite bind_returns by exact H. rewrite bind_gets.
    set (w2 := called _ w1).
    rewrite (Hbase w2 eq_refl).
    destruct (chromaFetch_cases ("/api/" ++ versionString v ++ "/version")
                VersionSchema noOpts w2) as [(ver & H2 & _)|[e H2]].
    + erewrite bind_returns by exact H2.
      eexists _, _. split; [reflexivity|]. do 3 (split; [reflexivity|]).
      rewrite (chromaRequest_storage _ _ _ w w2) by reflexivity.
      subst w2. rewrite (chromaRequest_storage _ _ _ w w1) by reflexivity.
      subst w1. cbn [log called]. unfold issued.
      change (authReturns (called _ _)) with (authReturns w).
      change (authReturns (mkWorld _ _ _ _)) with (authReturns w).
      change (authReturns (mkWorld _ _ _ _)) with (authReturns w) in Hauth.
      rewrite Hauth. by rewrite <- !app_assoc.
    + erewrite bind_throws by exact H2.
      eexists _, _. split; [reflexivity|]. do 3 (split; [reflexivity|]).
      split; [eauto|]. right.
      rewrite (chromaRequest_storage _ _ _ w w2) by reflexivity.
      subst w2. rewrite (chromaRequest_storage _ _ _ w w1) by reflexivity.
      subst w1. cbn [log called]. by rewrite <- !app_assoc.
  - erewrite bind_throws by exact H.
    eexists _, _. split; [reflexivity|]. do 3 (split; [reflexivity|]).
    split; [eauto|]. left.
    rewrite (chromaRequest_storage _ _ _ w w1) by reflexivity.
    subst w1. cbn [log called]. by rewrite <- !app_assoc.
Qed.

(** X4. When neither heartbeat answers, the two detection routines leave
    the session on different API versions: [testConnection] on "v1",
    [detectCapabilities] on "v2". *)
Theorem unreachable_server_pins_differ (w : World) :
  probe_ok network vite "/api/v2/heartbeat" w = false ->
  probe_ok network vite "/api/v1/heartbeat"
    (snd (probeUrl network vite "/api/v2/heartbeat" w)) = false ->
  detectedApiVersion (snd (testConnection network vite w)) = Some v1 /\
  detectedApiVersion (snd (detectCapabilities network vite w)) = Some v2.
Proof.
  intros H2 H1. rewrite probeUrl_snd in H1. split.
  - rewrite testConnection_version. by rewrite H2.
  - destruct (detectCapabilities_returns network vite w) as (caps & w' & Hrun & Hv & _).
    rewrite Hrun. cbn [snd]. rewrite Hv. unfold pinnedVersion. by rewrite H2, H1.
Qed.

End DetectionFacts.

Lemma unreachable_server_pins_differ_witness :
  Client.detectedApiVersion (snd (Client.testConnection Scenarios.failingFetch None Scenarios.world0))
    = Some Client.v1 /\
  Client.detectedApiVersion (snd (Client.detectCapabilities Scenarios.failingFetch None Scenarios.world0))
    = Some Client.v2.
Proof.
  apply (unreachable_server_pins_differ Scenarios.failingFetch None Scenarios.world0);
    reflexivity.
Defined.

Section CapabilityFacts.
Import Storage Zod Client ClientOps.

Variable network : Network.
Variable vite : option string.

Lemma issued_length (req : Request) (w : World) :
  length (issued req w) = if authReturns w then 1%nat else 0%nat.
Proof. unfold issued. by destruct (authReturns w). Qed.

Lemma detectServerPaths_length (w : World) :
  (3 <= length (detectServerPaths network vite w) <= 4)%nat.
Proof.
  unfold detectServerPaths. destruct (probe_ok network vite "/api/v2/heartbeat" w); cbn; lia.
Qed.

(** The run of [detectCapabilities] in a world where [getAuthHeaders]
    throws: every probe answers [false] without a request. *)
Lemma detectCapabilities_auth_throws (w : World) :
  authReturns w = false ->
  let caps := mkCaps false false false false false false false (Some v2) in
  detectCapabilities network vite w =
  (Returns caps, mkWorld (storage w) (Some v2) (Some caps) (log w)).
Proof.
  intros Hauth. cbn zeta. unfold detectCapabilities.
  assert (Hp : forall {B} path (f : bool -> M B) w0,
            storage w0 = storage w -> (probeUrl network vite path ≫= f) w0 = f false w0).
  { intros B path f w0 Hst. rewrite bind_probe.
    assert (Ha : authReturns w0 = false) by (by rewrite (authReturns_storage w w0 Hst)).
    by rewrite (probe_ok_throws network vite path w0 Ha), called_throws. }
  rewrite Hp by reflexivity. rewrite bind_assoc, Hp by reflexivity.
  rewrite bind_set_version, bind_gets, Hp by reflexivity.
  rewrite bind_gets, Hp by reflexivity. rewrite bind_gets, Hp by reflexivity.
  reflexivity.
Qed.

(** X5. [detectCapabilities] only ever issues GET requests without a body,
    at most eight of them: between four and eight where [getAuthHeaders]
    returns, and none where it throws (the snapshot then says that the server
    has no capability).  The flags [getItems] and [query] of the snapshot
    are therefore never tested.  They are always equal, and true only when
    the collections could be listed. *)
Theorem detectCapabilities_never_posts (w : World) :
  exists caps w' events,
    detectCapabilities network vite w = (Returns caps, w') /\
    log w' = (log w ++ events)%list /\
    Forall plainGet events /\
    match getAuthHeaders (storage w) with
    | Some _ => (4 <= length events <= 8)%nat
    | None =>
        events = [] /\
        caps = mkCaps false false false false false false false (Some v2)
    end /\
    getItems_cap caps = query_cap caps /\
    (getItems_cap caps = true -> listCollections_cap caps = true).
Proof.
  destruct (authReturns w) eqn:Hauth.
  2:{ rewrite (detectCapabilities_auth_throws w Hauth). cbn zeta.
      eexists _, _, []. split; [reflexivity|]. cbn [log]. rewrite app_nil_r.
      split; [reflexivity|]. split; [apply Forall_nil; exact I|].
      unfold authReturns in Hauth. destruct (getAuthHeaders (storage w)); [discriminate|].
      repeat split; done. }
  assert (Hsome : match getAuthHeaders (storage w) with
                  | Some _ => True | None => False end).
  { unfold authReturns in Hauth. by destruct (getAuthHeaders (storage w)). }
  rewrite detectCapabilities_split.
  destruct (detectServer_returns network vite w) as (hb & ver & Hrun & Hst & Hv & _ & Hlog).
  erewrite bind_returns by exact Hrun. cbn [fst snd].
  set (w1 := snd (detectServer network vite w)) in *.
  assert (Hauth1 : authReturns w1 = true) by (by rewrite (authReturns_storage w w1 Hst)).
  pose proof (detectServerPaths_length w) as Hpaths.
  assert (Hprobes : Forall plainGet (probes vite (detectServerPaths network vite w) w)).
  { apply probes_Forall. intros path _. eexists. repeat split. }
  assert (Hplen : length (probes vite (detectServerPaths network vite w) w) =
                  length (detectServerPaths network vite w)).
  { by rewrite probes_length, Hauth. }
  rewrite detectCollections_unfold. cbn zeta.
  rewrite probeCollections_unfold. cbn [fst snd].
  set (w2 := called _ w1).
  assert (Hauth2 : authReturns w2 = true) by exact Hauth1.
  assert (Hlog2 : log w2 = (log w ++ probes vite (detectServerPaths network vite w) w ++
                            [EvFetch (probeRequest vite (apiPrefix w1 ++ "/collections") w1)])%list).
  { subst w2. cbn [log called]. rewrite (issued_returns _ w1 Hauth1), Hlog.
    by rewrite <- app_assoc. }
  destruct (probe_ok network vite (apiPrefix w1 ++ "/collections") w1).
  - rewrite listCollections_unfold, (surjective_pairing (chromaFetch _ _ _ _ _ w2)).
    rewrite chromaFetch_world. cbn [fst snd].
    set (w3 := called _ w2).
    assert (Hlog3 : log w3 = (log w2 ++ [EvFetch (chromaRequest vite
                                (apiPrefix w2 ++ "/collections") noOpts w2)])%list).
    { subst w3. cbn [log called]. by rewrite (issued_returns _ w2 Hauth2). }
    destruct (fst (chromaFetch network vite _ CollectionListSchema noOpts w2))
      as [[|first cols]|t].
    + eexists _, _, _. split; [reflexivity|]. cbn [log cached]. rewrite Hlog3, Hlog2.
      rewrite <- !app_assoc. split; [reflexivity|].
      split.
      { apply Forall_app. split; [exact Hprobes|].
        repeat (apply Forall_cons; split; [eexists; repeat split|]). apply Forall_nil; exact I. }
      destruct (getAuthHeaders (storage w)); [|done].
      split; [rewrite length_app, Hplen; cbn [length app]; lia|]. done.
    + rewrite probeGetCollection_unfold. cbn [snd]. rewrite probeCountCollection_unfold.
      cbn [snd]. eexists _, _, _. split; [reflexivity|]. cbn [log cached called].
      rewrite !issued_returns by exact Hauth2. rewrite Hlog3, Hlog2.
      rewrite <- !app_assoc. split; [reflexivity|].
      split.
      { apply Forall_app. split; [exact Hprobes|].
        repeat (apply Forall_cons; split; [eexists; repeat split|]). apply Forall_nil; exact I. }
      destruct (getAuthHeaders (storage w)); [|done].
      split; [rewrite length_app, Hplen; cbn [length app]; lia|]. done.
    + eexists _, _, _. split; [reflexivity|]. cbn [log cached]. rewrite Hlog3, Hlog2.
      rewrite <- !app_assoc. split; [reflexivity|].
      split.
      { apply Forall_app. split; [exact Hprobes|].
        repeat (apply Forall_cons; split; [eexists; repeat split|]). apply Forall_nil; exact I. }
      destruct (getAuthHeaders (storage w)); [|done].
      split; [rewrite length_app, Hplen; cbn [length app]; lia|]. done.
  - eexists _, _, _. split; [reflexivity|]. cbn [log cached]. rewrite Hlog2.
    split; [reflexivity|].
    split.
    { apply Forall_app. split; [exact Hprobes|].
      repeat (apply Forall_cons; split; [eexists; repeat split|]). apply Forall_nil; exact I. }
    destruct (getAuthHeaders (storage w)); [|done].
    split; [rewrite length_app, Hplen; cbn [length app]; lia|]. done.
Qed.

End CapabilityFacts.

Section CapabilityCases.
Import Storage Zod Client ClientOps.

Variable network : Network.
Variable vite : option string.

(** X6. When, in a run of [detectCapabilities], the probe of the
    collections route fails, the run never calls [listCollections]: it
    issues only its 5-second probes, at most five of them, and reports the
    five collection-level capabilities as absent.  [w1] is the world in
    which the run probes the collections route. *)
Theorem detectCapabilities_without_collections_route (w : World) :
  let w1 := snd (detectServer network vite w) in
  fst (probeCollections network vite w1) = Returns false ->
  exists caps w' events,
    detectCapabilities network vite w = (Returns caps, w') /\
    listCollections_cap caps = false /\
    getCollection_cap caps = false /\ countCollection_cap caps = false /\
    getItems_cap caps = false /\ query_cap caps = false /\
    cachedCapabilities w' = Some caps /\
    log w' = (log w ++ events)%list /\
    (length events <= 5)%nat /\
    Forall (fun ev => exists path, ev = EvFetch (probeRequest vite path w)) events.
Proof.
  cbn zeta. intros Hprobe.
  rewrite detectCapabilities_split.
  destruct (detectServer_returns network vite w) as (hb & ver & Hrun & Hst & Hv & _ & Hlog).
  erewrite bind_returns by exact Hrun. cbn [fst snd].
  set (w1 := snd (detectServer network vite w)) in *.
  rewrite detectCollections_unfold. cbn zeta. rewrite Hprobe.
  eexists _, _, _. split; [reflexivity|]. do 6 (split; [reflexivity|]).
  cbn [log cached]. rewrite probeCollections_unfold. cbn [snd log called].
  rewrite Hlog, (issued_probe_storage vite _ w w1 Hst), <- app_assoc, probes_app.
  split; [reflexivity|]. split.
  - rewrite probes_length. pose proof (detectServerPaths_length network vite w).
    destruct (authReturns w); [rewrite length_app; cbn [length]|]; lia.
  - apply probes_Forall. intros path _. by exists path.
Qed.

(** X7. When, in a run of [detectCapabilities], the collections route
    answers the probe but the call of [listCollections] that follows fails
    (an error status, a body that does not validate, a timeout), the error is
    swallowed: the run still returns, reports [listCollections] as available
    and the other four collection-level capabilities as absent. *)
Theorem detectCapabilities_when_listing_fails (w : World) (t : Thrown) :
  let w1 := snd (detectServer network vite w) in
  let w2 := snd (probeCollections network vite w1) in
  fst (probeCollections network vite w1) = Returns true ->
  fst (listCollections network vite w2) = Throws t ->
  exists caps w',
    detectCapabilities network vite w = (Returns caps, w') /\
    listCollections_cap caps = true /\
    getCollection_cap caps = false /\ countCollection_cap caps = false /\
    getItems_cap caps = false /\ query_cap caps = false /\
    cachedCapabilities w' = Some caps.
Proof.
  cbn zeta. intros Hprobe Hlist.
  rewrite detectCapabilities_split.
  destruct (detectServer_returns network vite w) as (hb & ver & Hrun & _).
  erewrite bind_returns by exact Hrun. cbn [fst snd].
  rewrite detectCollections_unfold. cbn zeta. rewrite Hprobe, Hlist.
  eexists _, _. split; [reflexivity|]. repeat split.
Qed.

(** X8. When, in a run of [detectCapabilities], at least one collection is
    listed, the run judges [getCollection] and [countCollection] by two
    probes on the first collection of the list only (they are the last two
    requests), and reports [getItems] and [query] as available without
    testing them.  [w3] is the world in which the first collection is
    probed. *)
Theorem detectCapabilities_judges_first_collection (first : Collection) (others : list Collection)
    (gc cc : bool) (w : World) :
  let w1 := snd (detectServer network vite w) in
  let w2 := snd (probeCollections network vite w1) in
  let w3 := snd (listCollections network vite w2) in
  let w4 := snd (probeGetCollection network vite first w3) in
  fst (probeCollections network vite w1) = Returns true ->
  fst (listCollections network vite w2) = Returns (first :: others) ->
  fst (probeGetCollection network vite first w3) = Returns gc ->
  fst (probeCountCollection network vite first w4) = Returns cc ->
  exists caps w' events,
    detectCapabilities network vite w = (Returns caps, w') /\
    listCollections_cap caps = true /\
    getCollection_cap caps = gc /\ countCollection_cap caps = cc /\
    getItems_cap caps = true /\ query_cap caps = true /\
    cachedCapabilities w' = Some caps /\
    log w' =
      (log w ++ events ++
       [EvFetch (probeRequest vite (apiPrefix w' ++ "/collections/" ++ id first) w);
        EvFetch (probeRequest vite (apiPrefix w' ++ "/collections/" ++ id first ++ "/count") w)])%list /\
    (5 <= length events <= 6)%nat.
Proof.
  cbn zeta. intros Hprobe Hlist Hgc Hcc.
  rewrite detectCapabilities_split.
  destruct (detectServer_returns network vite w) as (hb & ver & Hrun & Hst & Hv & _ & Hlog).
  erewrite bind_returns by exact Hrun. cbn [fst snd].
  set (w1 := snd (detectServer network vite w)) in *.
  assert (Hauth1 : authReturns w1 = true).
  { rewrite probeCollections_unfold in Hprobe. cbn [fst] in Hprobe.
    injection Hprobe as Hprobe. by apply probe_ok_auth in Hprobe. }
  assert (Hauth : authReturns w = true) by (by rewrite <- (authReturns_storage w w1 Hst)).
  rewrite detectCollections_unfold. cbn zeta. rewrite Hprobe, Hlist.
  rewrite probeGetCollection_unfold in Hgc, Hcc |- *. cbn [fst snd] in Hgc, Hcc |- *.
  rewrite probeCountCollection_unfold in Hcc |- *. cbn [fst snd] in Hcc |- *.
  injection Hgc as Hgc. injection Hcc as Hcc. rewrite Hgc, Hcc.
  rewrite listCollections_unfold, chromaFetch_world, probeCollections_unfold. cbn [snd].
  eexists _, _, (probes vite (detectServerPaths network vite w) w ++ [_; _])%list.
  split; [reflexivity|]. do 6 (split; [reflexivity|]).
  split.
  - cbn [log cached called].
    rewrite !issued_returns by exact Hauth1. rewrite Hlog, <- !app_assoc. cbn [app].
    do 2 f_equal. apply f_equal2; [reflexivity|]. apply f_equal2; [reflexivity|].
    rewrite <- !(probeRequest_storage vite _ w w1 Hst). reflexivity.
  - rewrite length_app, probes_length, Hauth. cbn [length].
    pose proof (detectServerPaths_length network vite w). lia.
Qed.

End CapabilityCases.

Section DetectionOnServers.
Import Storage Zod Client ClientOps Scenarios Servers.

Lemma detectCapabilities_without_collections_route_witness :
  exists caps w',
    detectCapabilities failingFetch None world0 = (Returns caps, w') /\
    listCollections_cap caps = false /\ query_cap caps = false /\
    length (fetches (log w')) = 5%nat.
Proof.
  destruct (detectCapabilities_without_collections_route failingFetch None world0)
    as (caps & w' & events & Hrun & Hlc & _ & _ & _ & Hq & _ & Hlog & _).
  - reflexivity.
  - exists caps, w'. do 3 (split; [assumption|]).
    assert (Hw : w' = snd (detectCapabilities failingFetch None world0)) by (by rewrite Hrun).
    rewrite Hw. reflexivity.
Defined.

Lemma detectCapabilities_when_listing_fails_witness :
  exists caps w',
    detectCapabilities wrongShapeServer None world0 = (Returns caps, w') /\
    listCollections_cap caps = true /\ getItems_cap caps = false.
Proof.
  destruct (detectCapabilities_when_listing_fails wrongShapeServer None world0
              (ThrownChroma (mkChromaError "Invalid response shape: Expected array" None false)))
    as (caps & w' & Hrun & Hlc & _ & _ & Hg & _).
  - reflexivity.
  - reflexivity.
  - exists caps, w'. auto.
Defined.

Lemma detectCapabilities_judges_first_collection_witness :
  exists caps w',
    detectCapabilities catalogServer None world0 = (Returns caps, w') /\
    getCollection_cap caps = false /\ countCollection_cap caps = false /\
    getItems_cap caps = true /\ query_cap caps = true.
Proof.
  destruct (detectCapabilities_judges_first_collection catalogServer None
              (mkCollection "c-1" "docs" Undefined None None) [] false false world0)
    as (caps & w' & events & Hrun & _ & Hgc & Hcc & Hgi & Hq & _).
  - reflexivity.
  - reflexivity.
  - reflexivity.
  - reflexivity.
  - exists caps, w'. auto.
Defined.

End DetectionOnServers.

(** ** The write operations, the query and the connection indicator *)

Section WriteFacts.
Import Storage Zod Client ClientOps.

Variable network : Network.
Variable vite : option string.
Variable encodeURIComponent : string -> string.

Lemma deleteCollection_unfold (name : string) (w : World) :
  deleteCollection network vite encodeURIComponent name w =
  writeRun network "Delete" (deleteCollectionRequest vite encodeURIComponent name w) w.
Proof.
  unfold deleteCollection, writeRun. rewrite !bind_gets.
  destruct (authReturns w) eqn:Hauth.
  - rewrite bind_auth_returns by exact Hauth.
    fold (deleteCollectionRequest vite encodeURIComponent name w).
    unfold mbind, M_bind. rewrite fetch_without_signal by reflexivity.
    destruct (outcome _) as [e|res]; [reflexivity|].
    cbn [writeOutcome]. destruct (res_ok res); reflexivity.
  - by rewrite bind_auth_throws.
Qed.

Lemma addItems_unfold (cid : string) (data : AddItemsData) (w : World) :
  addItems network vite cid data w =
  writeRun network "Add items" (addItemsRequest vite cid data w) w.
Proof.
  unfold addItems, writeRun. rewrite !bind_gets.
  destruct (authReturns w) eqn:Hauth.
  - rewrite bind_auth_returns by exact Hauth.
    fold (addItemsRequest vite cid data w).
    unfold mbind, M_bind. rewrite fetch_without_signal by reflexivity.
    destruct (outcome _) as [e|res]; [reflexivity|].
    cbn [writeOutcome]. destruct (res_ok res); reflexivity.
  - by rewrite bind_auth_throws.
Qed.

Lemma deleteItems_unfold (cid : string) (ids : list string) (w : World) :
  deleteItems network vite cid ids w =
  writeRun network "Delete items" (deleteItemsRequest vite cid ids w) w.
Proof.
  unfold deleteItems, writeRun. rewrite !bind_gets.
  destruct (authReturns w) eqn:Hauth.
  - rewrite bind_auth_returns by exact Hauth.
    fold (deleteItemsRequest vite cid ids w).
    unfold mbind, M_bind. rewrite fetch_without_signal by reflexivity.
    destruct (outcome _) as [e|res]; [reflexivity|].
    cbn [writeOutcome]. destruct (res_ok res); reflexivity.
  - by rewrite bind_auth_throws.
Qed.

(** X9. The write operations have no timeout.  In a session whose
    [getAuthHeaders] returns, when the server answers the request of
    [deleteCollection], [addItems] or [deleteItems] with a 2xx status, the
    operation returns however long the answer takes, whereas a read through
    [chromaFetch] gives up with "Request timed out after 15000ms" once the
    answer to its request takes 15 seconds or more. *)
Theorem write_operations_never_time_out (res : Response) (w : World) :
  authReturns w = true ->
  res_ok res = true ->
  (forall name,
     outcome (network (log w) (deleteCollectionRequest vite encodeURIComponent name w))
       = Responds res ->
     deleteCollection network vite encodeURIComponent name w =
     (Returns tt,
      record_event (EvFetch (deleteCollectionRequest vite encodeURIComponent name w)) w)) /\
  (forall cid data,
     outcome (network (log w) (addItemsRequest vite cid data w)) = Responds res ->
     addItems network vite cid data w =
     (Returns tt, record_event (EvFetch (addItemsRequest vite cid data w)) w)) /\
  (forall cid ids,
     outcome (network (log w) (deleteItemsRequest vite cid ids w)) = Responds res ->
     deleteItems network vite cid ids w =
     (Returns tt, record_event (EvFetch (deleteItemsRequest vite cid ids w)) w)) /\
  (forall T path (schema : ZodType T),
     15000 <= latency (network (log w) (chromaRequest vite path noOpts w)) ->
     exists e,
       fst (chromaFetch network vite path schema noOpts w) = Throws (ThrownChroma e) /\
       message e = "Request timed out after 15000ms").
Proof.
  intros Hauth Hok. repeat split.
  - intros name Hnet. rewrite deleteCollection_unfold. unfold writeRun.
    rewrite Hauth, Hnet. cbn [writeOutcome]. by rewrite Hok.
  - intros cid data Hnet. rewrite addItems_unfold. unfold writeRun.
    rewrite Hauth, Hnet. cbn [writeOutcome]. by rewrite Hok.
  - intros cid ids Hnet. rewrite deleteItems_unfold. unfold writeRun.
    rewrite Hauth, Hnet. cbn [writeOutcome]. by rewrite Hok.
  - intros T path schema Hlat. rewrite chromaFetch_unfold. cbn zeta. rewrite Hauth.
    unfold fetch at 1.
    change (signal (chromaRequest vite path noOpts w))
      with (Some (mkSignal 15000 "AbortError")).
    cbv iota beta. cbn [abort_after abort_name].
    apply Z.leb_le in Hlat. rewrite Hlat. cbn [fst]. eexists. split; reflexivity.
Qed.

(** X10. A transport failure of a write operation is not classified: in
    a session whose [getAuthHeaders] returns, when the request of a write
    operation is rejected, the platform's error is rethrown as it is, whereas
    a read through [chromaFetch] whose request is rejected always raises a
    [ChromaError] (with the CORS guidance when the rejection is a
    [TypeError] "Failed to fetch" that comes before the timeout). *)
Theorem write_operations_rethrow_transport_errors (e : JsError) (w : World) :
  authReturns w = true ->
  (forall name,
     outcome (network (log w) (deleteCollectionRequest vite encodeURIComponent name w))
       = Rejects e ->
     fst (deleteCollection network vite encodeURIComponent name w) = Throws (ThrownJs e)) /\
  (forall cid data,
     outcome (network (log w) (addItemsRequest vite cid data w)) = Rejects e ->
     fst (addItems network vite cid data w) = Throws (ThrownJs e)) /\
  (forall cid ids,
     outcome (network (log w) (deleteItemsRequest vite cid ids w)) = Rejects e ->
     fst (deleteItems network vite cid ids w) = Throws (ThrownJs e)) /\
  (forall T path (schema : ZodType T),
     outcome (network (log w) (chromaRequest vite path noOpts w)) = Rejects e ->
     (exists ce, fst (chromaFetch network vite path schema noOpts w) = Throws (ThrownChroma ce)) /\
     (err_name e = "TypeError" -> err_message e = "Failed to fetch" ->
      latency (network (log w) (chromaRequest vite path noOpts w)) < 15000 ->
      fst (chromaFetch network vite path schema noOpts w) =
      Throws (ThrownChroma (mkChromaError corsGuidance None true)))).
Proof.
  intros Hauth. repeat split.
  - intros name Hnet. rewrite deleteCollection_unfold. unfold writeRun.
    by rewrite Hauth, Hnet.
  - intros cid data Hnet. rewrite addItems_unfold. unfold writeRun. by rewrite Hauth, Hnet.
  - intros cid ids Hnet. rewrite deleteItems_unfold. unfold writeRun. by rewrite Hauth, Hnet.
  - rewrite chromaFetch_unfold. cbn zeta. rewrite Hauth.
    unfold fetch at 1. rewrite H.
    destruct (signal _) as [s|]; [destruct (_ <=? _)|]; cbn [fst]; eauto.
  - intros Hname Hmsg Hlat. rewrite chromaFetch_unfold. cbn zeta. rewrite Hauth.
    unfold fetch at 1. rewrite H.
    change (signal (chromaRequest vite path noOpts w))
      with (Some (mkSignal 15000 "AbortError")).
    cbv iota beta. cbn [abort_after abort_name].
    apply Z.leb_gt in Hlat. rewrite Hlat. cbn [fst].
    unfold classify. rewrite Hname, Hmsg. reflexivity.
Qed.

(** X11. In a session whose [getAuthHeaders] returns, a status outside
    200..299 in the answer to its request makes each write operation throw a
    [ChromaError] that carries the status, is not flagged as a cross-origin
    failure, and whose message names the operation, the status and the
    response text (empty when the text cannot be read). *)
Theorem write_operations_report_status (res : Response) (w : World) :
  authReturns w = true ->
  res_ok res = false ->
  let failure label :=
    Throws (ThrownChroma (mkChromaError
      (label ++ " failed: " ++ string_of_Z (res_status res) ++ " " ++ default "" (res_text res))
      (Some (res_status res)) false)) in
  (forall name,
     outcome (network (log w) (deleteCollectionRequest vite encodeURIComponent name w))
       = Responds res ->
     fst (deleteCollection network vite encodeURIComponent name w) = failure "Delete") /\
  (forall cid data,
     outcome (network (log w) (addItemsRequest vite cid data w)) = Responds res ->
     fst (addItems network vite cid data w) = failure "Add items") /\
  (forall cid ids,
     outcome (network (log w) (deleteItemsRequest vite cid ids w)) = Responds res ->
     fst (deleteItems network vite cid ids w) = failure "Delete items").
Proof.
  intros Hauth Hok. cbn zeta. repeat split.
  - intros name Hnet. rewrite deleteCollection_unfold. unfold writeRun.
    rewrite Hauth, Hnet. cbn [fst writeOutcome]. by rewrite Hok.
  - intros cid data Hnet. rewrite addItems_unfold. unfold writeRun.
    rewrite Hauth, Hnet. cbn [fst writeOutcome]. by rewrite Hok.
  - intros cid ids Hnet. rewrite deleteItems_unfold. unfold writeRun.
    rewrite Hauth, Hnet. cbn [fst writeOutcome]. by rewrite Hok.
Qed.

(** X12. [queryCollection] issues one POST to the query route of the
    collection (none where [getAuthHeaders] throws before [fetch] is
    called), and its body always carries [query_embeddings] (an empty
    list when none are given), [n_results] (10 by default) and [include]
    (documents, metadatas and distances by default); [query_texts] and
    [where] are present exactly when they are given. *)
Theorem queryCollection_body_always_complete (cid : string) (params : QueryParams) (w : World) :
  exists req fields,
    snd (queryCollection network vite cid params w) =
      (if authReturns w then record_event (EvFetch req) w else w) /\
    method req = "POST" /\
    url req = resolveUrl vite (apiPrefix w ++ "/collections/" ++ cid ++ "/query") w /\
    body req = Some (JObj fields) /\
    get_field "query_embeddings" fields =
      Some (JArr (map (fun v => JArr (map JNum v)) (default [] (query_embeddings params)))) /\
    get_field "n_results" fields =
      Some (JNum (number_of_Z (default 10 (n_results params)))) /\
    get_field "include" fields =
      Some (JArr (map JStr (default ["documents"; "metadatas"; "distances"]
                              (query_include params)))) /\
    get_field "query_texts" fields = (l ← query_texts params; Some (JArr (map JStr l))) /\
    get_field "where" fields = (o ← query_where params; Some (JObj o)).
Proof.
  unfold queryCollection. rewrite bind_gets, chromaFetch_world, called_cases.
  eexists _, _. split; [reflexivity|]. do 3 (split; [reflexivity|]).
  destruct params as [[texts|] embs n inc [wh|]]; cbn; repeat split; reflexivity.
Qed.

(** X13. In proxy mode the stored base URL plays no part: every request
    goes to "/api" followed by the path, and the rewrite of the development
    proxy gives the server the path itself (with its leading slash). *)
Theorem proxy_forwards_the_path (path : string) (w : World) :
  getConnectionMode (storage w) = proxy ->
  resolveUrl vite path w = "/api" ++ (if String.prefix "/" path then path else "/" ++ path) /\
  viteProxyRewrite (resolveUrl vite path w) =
    (if String.prefix "/" path then path else "/" ++ path).
Proof.
  intros Hmode. unfold resolveUrl. rewrite Hmode. split; [reflexivity|].
  generalize (if String.prefix "/" path then path else "/" ++ path). intros s.
  unfold viteProxyRewrite.
  change ("/api" ++ s) with (String "/" (String "a" (String "p" (String "i" s)))).
  assert (String.prefix "/api" (String "/" (String "a" (String "p" (String "i" s)))) = true)
    as -> by (by destruct s).
  cbn [String.length Nat.sub String.substring]. rewrite Nat.sub_0_r.
  induction s as [|c s IH]; [reflexivity|]. cbn [String.substring String.length]. by rewrite IH.
Qed.

(** X14. The connection indicator ([check] of the connection context)
    builds its URLs itself, yet issues exactly the requests of the client's
    heartbeat probes: v2 first and, only when that fails, v1.  It never
    throws, and reports "connected" exactly when one of the two probes
    succeeds. *)
Theorem checkConnection_is_the_version_probe (w : World) :
  let w1 := snd (probeUrl network vite "/api/v2/heartbeat" w) in
  checkConnection network vite w =
    (if probe_ok network vite "/api/v2/heartbeat" w then (Returns true, w1)
     else probeUrl network vite "/api/v1/heartbeat" w1) /\
  (forall path, String.prefix "/" path = true ->
     checkHeartbeat network (getConnectionMode (storage w)) (getBaseUrl vite (storage w)) path w
     = probeUrl network vite path w).
Proof.
  assert (Hsame : forall path w0, String.prefix "/" path = true ->
            checkHeartbeat network (getConnectionMode (storage w0))
              (getBaseUrl vite (storage w0)) path w0 = probeUrl network vite path w0).
  { intros path w0 Hp. unfold checkHeartbeat, probeUrl.
    unfold try_catch. rewrite !bind_gets. unfold resolveUrl. rewrite Hp.
    by destruct (getConnectionMode (storage w0)). }
  cbn zeta. split; [|intros path; apply Hsame].
  unfold checkConnection. rewrite !bind_gets.
  erewrite bind_returns by (rewrite Hsame by reflexivity; apply probeUrl_unfold).
  rewrite probeUrl_snd.
  destruct (probe_ok network vite "/api/v2/heartbeat" w); [reflexivity|].
  set (w1 := called (probeRequest vite "/api/v2/heartbeat" w) w).
  change (storage w) with (storage w1).
  by rewrite Hsame.
Qed.

End WriteFacts.

Section WriteFactsOnServers.
Import Storage Zod Client ClientOps Scenarios Servers.

Lemma write_operations_never_time_out_witness :
  fst (deleteCollection slowServer None (fun s => s) "docs" world0) = Returns tt /\
  exists e,
    fst (chromaFetch slowServer None "/api/v2/version" VersionSchema noOpts world0)
      = Throws (ThrownChroma e) /\
    message e = "Request timed out after 15000ms".
Proof.
  destruct (write_operations_never_time_out slowServer None (fun s => s)
              (mkResponse 200 "OK" None (inr (JStr "1.0.0"))) world0)
    as (Hdel & _ & _ & Hread).
  - reflexivity.
  - reflexivity.
  - split; [by rewrite Hdel|]. apply Hread. vm_compute. discriminate.
Defined.

Lemma write_operations_rethrow_transport_errors_witness :
  fst (addItems failingFetch None "c-1" (mkAddItems ["a"] None None None) world0)
    = Throws (ThrownJs (mkJsError "TypeError" "Failed to fetch")) /\
  exists ce, fst (listCollections failingFetch None world0) = Throws (ThrownChroma ce).
Proof.
  destruct (write_operations_rethrow_transport_errors failingFetch None (fun s => s)
              (mkJsError "TypeError" "Failed to fetch") world0)
    as (_ & Hadd & _ & Hread).
  - reflexivity.
  - split; [by apply Hadd|].
    destruct (Hread _ (apiPrefix world0 ++ "/collections") CollectionListSchema eq_refl)
      as [_ Hcors].
    rewrite listCollections_unfold. eexists. apply Hcors; [reflexivity..|]. vm_compute.
    reflexivity.
Defined.

Lemma write_operations_report_status_witness :
  fst (deleteItems unavailableServer None "c-1" ["a"; "b"] world0) =
  Throws (ThrownChroma (mkChromaError "Delete items failed: 503 overloaded" (Some 503) false)).
Proof.
  destruct (write_operations_report_status unavailableServer None (fun s => s)
              (mkResponse 503 "Service Unavailable" (Some "overloaded") (inr JNull)) world0)
    as (_ & _ & Hdel).
  - reflexivity.
  - reflexivity.
  - by apply Hdel.
Defined.

Lemma proxy_forwards_the_path_witness :
  viteProxyRewrite (resolveUrl (Some "https://chroma.example") "api/v2/heartbeat" proxyWorld)
  = "/api/v2/heartbeat".
Proof.
  apply (proxy_forwards_the_path (Some "https://chroma.example") "api/v2/heartbeat" proxyWorld).
  reflexivity.
Defined.

End WriteFactsOnServers.

(** ** The export, when there is nothing to fetch and when a page fails *)

Section ExportFacts.
Import Storage Zod Client ClientOps.

Variable network : Network.
Variable vite : option string.

(** X15. With a total of zero or less [getAllItems] issues no request and
    never calls the progress callback; it returns no ids, and the optional
    fields are [undefined], not empty lists. *)
Theorem getAllItems_nothing_to_fetch (cid : string) (total : Z)
    (onProgress : option (nat -> M unit)) (w : World) :
  total <= 0 ->
  getAllItems network vite cid total onProgress w =
  (Returns (mkItems [] Undefined Undefined Undefined Undefined), w).
Proof.
  intros H. unfold getAllItems.
  assert (Z.to_nat total = 0%nat) as -> by lia. reflexivity.
Qed.

(** The loop of [getAllItems] when the pages of the run are received and
    the request that follows them fails. *)
Lemma getAllItems_loop_stops (cid : string) (total : Z) (onProgress : option (nat -> M unit))
    (t : Thrown) (pages : list GetItemsResponse) :
  forall (fuel : nat) (off : Z) (acc : Accum) (w wk : World),
    receives network vite cid onProgress off (length (allIds acc)) w pages wk ->
    off + 500 * Z.of_nat (length pages) < total ->
    (length pages < fuel)%nat ->
    fst (getItems network vite cid (pageParams (off + 500 * Z.of_nat (length pages))) wk)
      = Throws t ->
    getAllItems_loop network vite fuel cid total onProgress off acc w =
    (Throws t,
     snd (getItems network vite cid (pageParams (off + 500 * Z.of_nat (length pages))) wk)).
Proof.
  induction pages as [|p pages IH]; intros fuel off acc w wk Hrec Htotal Hfuel Hfail;
    (destruct fuel as [|fuel]; [cbn in Hfuel; lia|]); rewrite getAllItems_loop_S.
  - cbn [receives] in Hrec. subst wk. cbn [length] in *.
    replace (off + 500 * Z.of_nat 0) with off in * by lia.
    assert ((off <? total) = true) as -> by (apply Z.ltb_lt; lia).
    apply bind_throws.
    rewrite (surjective_pairing (getItems network vite cid (pageParams off) w)).
    by rewrite Hfail.
  - cbn [length] in Htotal, Hfuel, Hfail.
    assert ((off <? total) = true) as -> by (apply Z.ltb_lt; lia).
    cbn [receives] in Hrec. destruct Hrec as (w1 & w2 & Hget & Hcb & Hrec).
    erewrite bind_returns by exact Hget. cbv zeta.
    cbn [allIds]. rewrite length_app.
    erewrite bind_returns by exact Hcb.
    replace (off + 500 * Z.of_nat (length (p :: pages)))
      with (off + pageSize + 500 * Z.of_nat (length pages))
      by (cbn [length]; unfold pageSize; lia).
    apply IH.
    + cbn [allIds]. by rewrite length_app.
    + unfold pageSize. lia.
    + lia.
    + rewrite <- Hfail. do 3 f_equal. unfold pageSize. lia.
Qed.

(** X16. The export stops at the first page that fails.  When, in a run
    of [getAllItems] in a session whose [getAuthHeaders] returns, the first k
    page requests are answered ([pages] are the answers) and the request
    that follows them, at offset 500k below the total, fails, the run
    rethrows that request's error after exactly k+1 requests, has called the
    progress callback k times, and returns none of the records it had
    fetched.  [wk] is the world in which the failing request is made. *)
Theorem getAllItems_stops_at_first_failing_page (cid : string) (total : Z) (observe : bool)
    (pages : list GetItemsResponse) (t : Thrown) (w wk : World) :
  let k := length pages in
  authReturns w = true ->
  500 * Z.of_nat k < total ->
  receives network vite cid (progressCallback observe) 0 0 w pages wk ->
  fst (getItems network vite cid (pageParams (500 * Z.of_nat k)) wk) = Throws t ->
  exists w',
    getAllItems network vite cid total (progressCallback observe) w = (Throws t, w') /\
    log w' = (log w ++ page_events observe (pageRequest vite cid w) 0 0 pages
                    ++ [EvFetch (pageRequest vite cid w (500 * Z.of_nat k))])%list /\
    fetches (page_events observe (pageRequest vite cid w) 0 0 pages
             ++ [EvFetch (pageRequest vite cid w (500 * Z.of_nat k))]) =
      map (fun i => pageRequest vite cid w (500 * Z.of_nat i)) (seq 0 (S k)) /\
    progressCalls (page_events observe (pageRequest vite cid w) 0 0 pages
                   ++ [EvFetch (pageRequest vite cid w (500 * Z.of_nat k))]) =
      (if observe then cumulative 0 pages else []).
Proof.
  cbn zeta. intros Hauth Htotal Hrec Hfail.
  pose proof (getAllItems_loop_stops cid total (progressCallback observe) t pages
                (Z.to_nat total) 0 (mkAccum [] [] [] []) w wk Hrec) as Hrun.
  cbn [allIds length] in Hrun.
  change (0 + 500 * Z.of_nat (length pages)) with (500 * Z.of_nat (length pages)) in Hrun.
  specialize (Hrun Htotal ltac:(lia) Hfail).
  destruct (receives_log network vite cid observe pages 0 0%nat w wk Hrec)
    as (Hst & Hv & Hlog).
  eexists. split; [|split; [|split]].
  - unfold getAllItems. by erewrite bind_throws by exact Hrun.
  - rewrite getItems_page_world.
    rewrite called_returns by (by rewrite (authReturns_storage w wk Hst)).
    cbn [log record_event]. rewrite Hlog, <- app_assoc. do 2 f_equal.
    unfold pageRequest, apiPrefix, effectiveVersion. rewrite Hv.
    do 2 f_equal. by apply chromaRequest_storage.
  - rewrite fetches_app, fetches_page_events.
    rewrite seq_S, map_app. reflexivity.
  - unfold progressCalls. rewrite omap_app. cbn [omap list_omap]. rewrite app_nil_r.
    apply progressCalls_page_events.
Qed.

Lemma concat_ids_at_most (m : nat) (pages : list GetItemsResponse) :
  Forall (fun p => (length (ids p) <= m)%nat) pages ->
  (length (concat (map ids pages)) <= m * length pages)%nat.
Proof.
  induction 1 as [|p pages Hp _ IH]; [cbn; lia|].
  cbn [map concat length]. rewrite length_app. lia.
Qed.

(** X18. The export trusts the server to fill its pages: it asks once for
    each of the offsets 0, 500, 1000, ... below the total and never asks again
    for records a short page left out.  When the pages of the run hold at
    most [m] records each, the run returns at most [m] records per page
    requested; with [m < 500] and a total that is a multiple of 500 this is
    fewer than the total. *)
Theorem getAllItems_trusts_the_page_size (cid : string) (total : Z) (observe : bool) (m : nat)
    (pages : list GetItemsResponse) (w w' : World) :
  0 < total ->
  length pages = pageCount total ->
  receives network vite cid (progressCallback observe) 0 0 w pages w' ->
  Forall (fun p => (length (ids p) <= m)%nat) pages ->
  exists res events,
    getAllItems network vite cid total (progressCallback observe) w = (Returns res, w') /\
    log w' = (log w ++ events)%list /\
    fetches events =
      map (fun i => pageRequest vite cid w (500 * Z.of_nat i)) (seq 0 (pageCount total)) /\
    ids res = concat (map ids pages) /\
    (length (ids res) <= m * pageCount total)%nat /\
    ((m < 500)%nat -> total mod 500 = 0 -> Z.of_nat (length (ids res)) < total).
Proof.
  intros Hpos Hlen Hrec Hcap.
  pose proof (getAllItems_loop_receives network vite cid total (progressCallback observe) pages
                (Z.to_nat total) 0 (mkAccum [] [] [] []) w w') as Hrun.
  cbn [allIds length] in Hrun.
  specialize (Hrun ltac:(lia)).
  rewrite Hlen in Hrun. unfold pageCount in Hrun at 1.
  replace (total - 0 + 499) with (total + 499) in Hrun by lia.
  specialize (Hrun eq_refl Hrec).
  destruct (receives_log network vite cid observe pages 0 0%nat w w' Hrec) as (_ & _ & Hlog).
  assert (Hbound : (length (concat (map ids pages)) <= m * pageCount total)%nat).
  { rewrite <- Hlen. by apply concat_ids_at_most. }
  eexists _, _. split.
  { unfold getAllItems. erewrite bind_returns by exact Hrun. reflexivity. }
  cbn [ids accumulated allIds app]. split; [exact Hlog|]. split.
  { rewrite fetches_page_events, Hlen. apply map_ext. intros i. f_equal. }
  split; [reflexivity|]. split; [exact Hbound|].
  intros Hm Hmod.
  assert (Hcount : Z.of_nat (pageCount total) * 500 = total).
  { unfold pageCount. apply Z.mod_divide in Hmod as [q Hq]; [|lia]. subst total.
    replace (q * 500 + 499) with (499 + q * 500) by lia.
    rewrite Z.div_add by lia. change (499 / 500) with 0. rewrite Z2Nat.id by lia. lia. }
  assert (0 < pageCount total)%nat by lia. nia.
Qed.

End ExportFacts.

Section ExportOnServers.
Import Storage Zod Client ClientOps Scenarios Servers.

Lemma getAllItems_nothing_to_fetch_witness :
  getAllItems (pagingServer 0) None "c1" 0 (progressCallback true) world0 =
  (Returns (mkItems [] Undefined Undefined Undefined Undefined), world0).
Proof. apply getAllItems_nothing_to_fetch. lia. Defined.

Lemma getAllItems_stops_at_first_failing_page_witness :
  exists w',
    getAllItems truncatedServer None "c1" 1200 (progressCallback true) world0 =
      (Throws (ThrownChroma (mkChromaError "Chroma HTTP 500: boom" (Some 500) false)), w') /\
    length (fetches (log w')) = 2%nat /\
    progressCalls (log w') = [2%nat].
Proof.
  destruct (getAllItems_stops_at_first_failing_page truncatedServer None "c1" 1200 true
              [twoRecordPage]
              (ThrownChroma (mkChromaError "Chroma HTTP 500: boom" (Some 500) false)) world0
              (snd (callProgress (progressCallback true) 2
                      (snd (getItems truncatedServer None "c1" (pageParams 0) world0)))))
    as (w' & Hrun & Hlog & Hf & Hp).
  - reflexivity.
  - cbn. lia.
  - apply receives_page; [vm_compute; reflexivity|]. reflexivity.
  - vm_compute. reflexivity.
  - exists w'. split; [exact Hrun|]. rewrite Hlog. cbn [log world0 initialWorld app].
    rewrite Hf, Hp. split; reflexivity.
Defined.

Lemma getAllItems_trusts_the_page_size_witness :
  exists res w',
    getAllItems twoRecordServer None "c1" 1000 (progressCallback false) world0
      = (Returns res, w') /\
    ids res = ["a"; "b"; "a"; "b"] /\
    Z.of_nat (length (ids res)) < 1000.
Proof.
  destruct (getAllItems_trusts_the_page_size twoRecordServer None "c1" 1000 false 2
              [twoRecordPage; twoRecordPage] world0
              (snd (getAllItems twoRecordServer None "c1" 1000 (progressCallback false) world0)))
    as (res & events & Hrun & _ & _ & Hids & _ & Hshort).
  - lia.
  - reflexivity.
  - do 2 (apply receives_page; [vm_compute; reflexivity|]). vm_compute. reflexivity.
  - repeat (apply Forall_cons; split; [cbn; lia|]). apply Forall_nil; exact I.
  - eexists res, _. split; [exact Hrun|]. split; [exact Hids|].
    apply Hshort; [lia|reflexivity].
Defined.

End ExportOnServers.

(* ===================================================================== *)
(** ** Base URL and server profiles *)
(* ===================================================================== *)

Section ProfileFacts.
Import Storage Profiles.

Lemma strip_decompose (s : string) :
  exists n, s = stripTrailingSlashes s ++ slashes n.
Proof.
  induction s as [|c rest [n IH]]; [by exists 0%nat|].
  cbn [stripTrailingSlashes].
  destruct (stripTrailingSlashes rest) as [|d r'] eqn:Hrest.
  - destruct (Ascii.eqb_spec c "/") as [->|Hc].
    + exists (S n). cbn [slashes append]. by rewrite IH at 1.
    + exists n. cbn [append]. by rewrite IH at 1.
  - exists n. cbn [append]. by rewrite IH at 1.
Qed.

Lemma append_slash_nonempty (t : string) : t ++ "/" <> "".
Proof. by destruct t. Qed.

Lemma strip_no_trailing_slash (s t : string) : stripTrailingSlashes s <> t ++ "/".
Proof.
  revert t. induction s as [|c rest IH]; intros t; cbn [stripTrailingSlashes].
  { intros H. by apply (append_slash_nonempty t). }
  destruct (stripTrailingSlashes rest) as [|d r'] eqn:Hrest.
  - destruct (Ascii.eqb_spec c "/") as [->|Hc].
    + intros H. by apply (append_slash_nonempty t).
    + destruct t as [|c' t']; cbn [append]; intros H.
      * injection H as H1. by subst c.
      * injection H as H1 H2. by apply (append_slash_nonempty t').
  - destruct t as [|c' t']; cbn [append]; intros H.
    + injection H as H1 H2. discriminate.
    + injection H as H1 H2. by apply (IH t').
Qed.

Lemma strip_slashes (n : nat) : stripTrailingSlashes (slashes n) = "".
Proof. induction n as [|n IH]; [reflexivity|]. cbn [slashes stripTrailingSlashes]. by rewrite IH. Qed.

Lemma strip_append_slashes (s : string) (n : nat) :
  stripTrailingSlashes (s ++ slashes n) = stripTrailingSlashes s.
Proof.
  induction s as [|c rest IH]; [apply strip_slashes|].
  change (String c rest ++ slashes n) with (String c (rest ++ slashes n)).
  cbn [stripTrailingSlashes]. by rewrite IH.
Qed.

(** X17. [setBaseUrl] stores the URL without the slashes that end it and
    changes nothing else of it: the stored base never ends with a slash,
    storing the stored value again changes nothing, and a URL made of
    slashes only is stored as the empty string, which [getBaseUrl] then
    returns instead of a default. *)
Theorem setBaseUrl_strips_trailing_slashes (vite : option string) (url_ : string)
    (ls : LocalStorage) :
  let stored := getBaseUrl vite (setBaseUrl url_ ls) in
  (exists n, url_ = stored ++ slashes n) /\
  (forall s, stored <> s ++ "/") /\
  setBaseUrl stored ls = setBaseUrl url_ ls /\
  (forall n, getBaseUrl vite (setBaseUrl (slashes n) ls) = "").
Proof.
  cbn zeta. unfold getBaseUrl, setBaseUrl. cbn [BASE_URL].
  split; [apply strip_decompose|]. split; [apply strip_no_trailing_slash|].
  split; [|apply strip_slashes].
  f_equal. f_equal. destruct (strip_decompose url_) as [n Hn].
  rewrite Hn at 2. by rewrite strip_append_slashes.
Qed.

(** [applyProfile] leaves nothing of the previous connection: the stored
    settings afterwards are a function of the profile alone (the URL
    without its trailing slashes, the mode, the authentication), and the
    profile becomes the active one; the list of profiles is not changed. *)
Lemma applyProfile_replaces_connection (profile : ServerProfile) (ps ps0 : ProfileStorage)
    (vite : option string) :
  settings (applyProfile profile ps) = settings (applyProfile profile ps0) /\
  getBaseUrl vite (settings (applyProfile profile ps)) =
    stripTrailingSlashes (url (fields profile)) /\
  getConnectionMode (settings (applyProfile profile ps)) = mode (fields profile) /\
  getAuthHeaders (settings (applyProfile profile ps)) =
    getAuthHeaders (setAuth (authType (fields profile)) (authCredentials (fields profile))
                      emptyStorage) /\
  getActiveProfileId (applyProfile profile ps) = Some (id profile) /\
  getProfiles (applyProfile profile ps) = getProfiles ps.
Proof. repeat split. Qed.

(** X19. [deleteProfile] removes every profile with the given id and keeps
    the others in their order.  The active profile id is cleared (there is
    no active profile afterwards) exactly when it is the deleted id, and is
    what it was otherwise; the connection settings (base URL, mode,
    credentials) stay as they are, also when the deleted profile was the
    active one. *)
Theorem deleteProfile_clears_active (id_ : string) (ps : ProfileStorage) :
  getProfiles (deleteProfile id_ ps) = filter (fun p => id p <> id_) (getProfiles ps) /\
  (forall p, p ∈ getProfiles (deleteProfile id_ ps) <-> p ∈ getProfiles ps /\ id p <> id_) /\
  getActiveProfileId (deleteProfile id_ ps) =
    (if decide (getActiveProfileId ps = Some id_) then None else getActiveProfileId ps) /\
  (getActiveProfileId (deleteProfile id_ ps) = None <->
   getActiveProfileId ps = Some id_ \/ getActiveProfileId ps = None) /\
  settings (deleteProfile id_ ps) = settings ps.
Proof.
  unfold deleteProfile, getActiveProfileId. cbn [ACTIVE_PROFILE].
  destruct (decide (ACTIVE_PROFILE ps = Some id_)) as [Heq|Hne]; cbn;
    (split; [reflexivity|]); (split; [intros p; rewrite list_elem_of_filter; tauto|]);
    (split; [reflexivity|]); (split; [|reflexivity]).
  - split; [by left|reflexivity].
  - split; [by right|]. intros [H|H]; [by destruct Hne|exact H].
Qed.

Lemma filter_keeps_all {A} (P : A -> Prop) `{!forall x, Decision (P x)} (l : list A) :
  (forall x, x ∈ l -> P x) -> filter P l = l.
Proof.
  induction l as [|x l IH]; intros Hall; [reflexivity|].
  rewrite filter_cons_True by (apply Hall; left).
  f_equal. apply IH. intros y Hy. apply Hall. by right.
Qed.

(** X20. A profile saved under an id that no stored profile has can be
    deleted again without a trace: the list of profiles is the one before
    the save.  [saveProfile] appends, and returns the profile it stored. *)
Theorem saveProfile_then_deleteProfile (now_id now_created : Z) (suffix : string)
    (profile : ProfileFields) (ps : ProfileStorage) :
  let saved := saveProfile now_id now_created suffix profile ps in
  (forall p, p ∈ getProfiles ps -> id p <> id (fst saved)) ->
  getProfiles (snd saved) = (getProfiles ps ++ [fst saved])%list /\
  fields (fst saved) = profile /\
  createdAt (fst saved) = now_created /\
  getProfiles (deleteProfile (id (fst saved)) (snd saved)) = getProfiles ps.
Proof.
  cbn zeta. intros Hfresh. repeat split.
  set (new := fst (saveProfile now_id now_created suffix profile ps)) in *.
  unfold deleteProfile, getActiveProfileId.
  assert (Hf : filter (fun p => id p <> id new)
                 (getProfiles (snd (saveProfile now_id now_created suffix profile ps)))
               = getProfiles ps).
  { change (getProfiles (snd (saveProfile now_id now_created suffix profile ps)))
      with (getProfiles ps ++ [new])%list.
    rewrite filter_app.
    replace (filter (fun p => id p <> id new) [new]) with (@nil ServerProfile).
    - rewrite app_nil_r. apply filter_keeps_all. exact Hfresh.
    - symmetry. rewrite filter_cons_False by (by intros Hne). reflexivity. }
  destruct (decide _); cbn [getProfiles PROFILES]; exact Hf.
Qed.

End ProfileFacts.

Section ProfileExamples.
Import Storage Profiles.

Lemma saveProfile_then_deleteProfile_witness :
  let ps0 := mkProfileStorage emptyStorage None None in
  let fields0 := mkFields "local" "http://localhost:8000/" direct auth_none (mkCreds None None None) in
  getProfiles (deleteProfile "sp-1700000000000-k3x9"
                 (snd (saveProfile 1700000000000 1700000000001 "k3x9" fields0 ps0))) = [].
Proof.
  cbn zeta.
  apply (saveProfile_then_deleteProfile 1700000000000 1700000000001 "k3x9"
           (mkFields "local" "http://localhost:8000/" direct auth_none (mkCreds None None None))
           (mkProfileStorage emptyStorage None None)).
  intros p Hp. by apply elem_of_nil in Hp.
Defined.

End ProfileExamples.

(* ===================================================================== *)
(** ** Sorting and trimming of the stored logs *)
(* ===================================================================== *)

Section SortFacts.
Import JsArray.

Context {A : Type} (before : A -> A -> bool).

Lemma insertSorted_perm (x : A) (l : list A) : insertSorted before x l ≡ₚ x :: l.
Proof.
  induction l as [|y l IH]; [reflexivity|]. cbn [insertSorted].
  destruct (before x y); [reflexivity|]. rewrite IH. apply Permutation_swap.
Qed.

Lemma sort_perm (l : list A) : sort before l ≡ₚ l.
Proof.
  induction l as [|x l IH]; [reflexivity|].
  cbn [sort fold_right]. rewrite insertSorted_perm. by constructor.
Qed.

Hypothesis before_total : forall a b, before a b = false -> before b a = true.
Hypothesis before_trans :
  forall a b c, before a b = true -> before b c = true -> before a c = true.

Lemma insertSorted_sorted (x : A) (l : list A) :
  StronglySorted (fun a b => before a b = true) l ->
  StronglySorted (fun a b => before a b = true) (insertSorted before x l).
Proof.
  induction l as [|y l IH]; intros Hs; cbn [insertSorted].
  { constructor; [constructor|constructor]. }
  apply StronglySorted_inv in Hs as [Hl Hy].
  destruct (before x y) eqn:Hxy.
  - constructor; [by constructor|]. constructor; [exact Hxy|].
    eapply Forall_impl; [exact Hy|]. intros z Hz. by apply (before_trans _ y).
  - constructor; [by apply IH|].
    rewrite insertSorted_perm. constructor; [by apply before_total|exact Hy].
Qed.

Lemma sort_sorted (l : list A) : StronglySorted (fun a b => before a b = true) (sort before l).
Proof.
  induction l as [|x l IH]; [constructor|]. by apply insertSorted_sorted.
Qed.

(** The sort is stable: the elements of one rank keep their order. *)
Lemma sort_stable (P : A -> Prop) `{!forall x, Decision (P x)} (l : list A) :
  (forall x y, P x -> before x y = false -> ~ P y) ->
  filter P (sort before l) = filter P l.
Proof.
  intros Hrank.
  assert (Hins : forall x l', filter P (insertSorted before x l') = filter P (x :: l')).
  { intros x l'. induction l' as [|y l' IH]; [reflexivity|]. cbn [insertSorted].
    destruct (before x y) eqn:Hxy; [reflexivity|].
    destruct (decide (P x)) as [Hx|Hx].
    - rewrite (filter_cons_False P y) by by apply (Hrank x).
      rewrite (filter_cons_True P x) by done.
      rewrite (filter_cons_False P y) by by apply (Hrank x).
      rewrite IH. by rewrite filter_cons_True.
    - rewrite (filter_cons_False P x) by done.
      rewrite (filter_cons P y), IH. rewrite (filter_cons_False P x) by done.
      by rewrite <- filter_cons. }
  induction l as [|x l IH]; [reflexivity|].
  cbn [sort fold_right]. rewrite Hins. fold (sort before l).
  rewrite !filter_cons, IH. reflexivity.
Qed.

End SortFacts.

Section SortedFacts.

Context {A : Type}.

Lemma strongly_sorted_weaken (R S : A -> A -> Prop) (l : list A) :
  (forall a b, R a b -> S a b) -> StronglySorted R l -> StronglySorted S l.
Proof.
  intros HRS Hs. induction Hs as [|x l Hl IH Hx]; constructor; [exact IH|].
  eapply Forall_impl; [exact Hx|]. intros b. apply HRS.
Qed.

Lemma strongly_sorted_filter (R : A -> A -> Prop) (P : A -> Prop) `{!forall x, Decision (P x)}
    (l : list A) :
  StronglySorted R l -> StronglySorted R (filter P l).
Proof.
  intros Hs. induction Hs as [|x l Hl IH Hx]; [constructor|].
  rewrite filter_cons. destruct (decide (P x)); [|exact IH].
  constructor; [exact IH|]. apply Forall_forall. intros y Hy.
  apply list_elem_of_filter in Hy as [_ Hy]. rewrite Forall_forall in Hx. by apply Hx.
Qed.

End SortedFacts.

Section TrimFacts.
Import JsArray.

Context {A : Type}.

Lemma last_skipn (k : nat) (l : list A) :
  (k < length l)%nat -> last (skipn k l) = last l.
Proof.
  intros Hk. rewrite <- (firstn_skipn k l) at 2. rewrite last_app.
  destruct (last (skipn k l)) eqn:Hlast; [reflexivity|].
  apply last_None in Hlast. apply (f_equal length) in Hlast.
  rewrite length_skipn in Hlast. simpl in Hlast. lia.
Qed.

(** What the two stores keep of a log of which at most [bound] entries
    may stay: a suffix, never empty when the log is not. *)
Lemma trimmed_or_half (fits : list A -> bool) (bound : nat) (l : list A) :
  let trimmed := if Nat.ltb bound (length l) then sliceLast bound l else l in
  let half := skipn (Nat.div (length trimmed) 2) trimmed in
  (0 < bound)%nat -> l <> [] ->
  forall kept, kept = trimmed \/ kept = half ->
  exists k, (k < length l)%nat /\ kept = skipn k l /\ (length l - k <= bound)%nat.
Proof.
  cbn zeta. intros Hbound Hne kept Hkept.
  assert (Hlen : (0 < length l)%nat) by (destruct l; [done|simpl; lia]).
  assert (Htrim : exists k, (k < length l)%nat /\
            (if Nat.ltb bound (length l) then sliceLast bound l else l) = skipn k l /\
            (length l - k <= bound)%nat).
  { destruct (Nat.ltb bound (length l)) eqn:Hlt.
    - apply Nat.ltb_lt in Hlt. exists (length l - bound)%nat. unfold sliceLast.
      repeat split; lia.
    - apply Nat.ltb_ge in Hlt. exists 0%nat. repeat split; lia. }
  destruct Htrim as (k & Hk & Htrim & Hkb). rewrite Htrim in Hkept.
  destruct Hkept as [->| ->]; [by exists k|].
  rewrite length_skipn. exists (k + (length l - k) / 2)%nat.
  assert ((length l - k) / 2 < length l - k)%nat by (apply Nat.div_lt; lia).
  split; [lia|]. split; [|lia].
  rewrite skipn_skipn. f_equal. lia.
Qed.

End TrimFacts.

(* ===================================================================== *)
(** ** The audit log *)
(* ===================================================================== *)

Section AuditLogFacts.
Import JsArray AuditLog.

Variable fits : list AuditEntry -> bool.

(** X21. Whenever [logOperation] manages to store the log, the new entry
    is its last entry, the stored log is what is left of the old log and the
    new entry after dropping entries from the front, and it holds at most
    500 entries; when the log was below 500 entries and the store accepts
    it, nothing is dropped. *)
Theorem logOperation_keeps_newest (now_id now : Z) (suffix : string) (op : AuditOperation)
    (opts : LogOpts) (st st' : AuditStore) :
  logOperation fits now_id now suffix op opts st = Some st' ->
  let entry := newEntry now_id now suffix op opts in
  last (load st') = Some entry /\
  (getAuditLogCount st' <= 500)%nat /\
  (exists dropped, (load st ++ [entry])%list = (dropped ++ load st')%list) /\
  ((getAuditLogCount st < 500)%nat -> fits (load st ++ [entry])%list = true ->
   load st' = (load st ++ [entry])%list).
Proof.
  cbn zeta. unfold logOperation, save.
  set (entry := newEntry now_id now suffix op opts).
  set (entries := (load st ++ [entry])%list).
  intros Hsave.
  assert (Hne : entries <> []) by (subst entries; by destruct (load st)).
  pose proof (trimmed_or_half fits MAX_ENTRIES entries ltac:(unfold MAX_ENTRIES; lia) Hne)
    as Hkept. cbn zeta in Hkept.
  assert (Hst : exists k, (k < length entries)%nat /\ load st' = skipn k entries /\
                          (length entries - k <= MAX_ENTRIES)%nat).
  { destruct (fits _) in Hsave.
    - injection Hsave as <-. apply Hkept. by left.
    - destruct (fits _) in Hsave; [|discriminate].
      injection Hsave as <-. apply Hkept. by right. }
  destruct Hst as (k & Hk & Hload & Hbound).
  split; [|split; [|split]].
  - rewrite Hload, last_skipn by exact Hk. subst entries. by rewrite last_snoc.
  - unfold getAuditLogCount. rewrite Hload, length_skipn. unfold MAX_ENTRIES in Hbound. lia.
  - exists (firstn k entries). rewrite Hload. by rewrite firstn_skipn.
  - unfold getAuditLogCount. intros Hlt Hfits.
    assert (Hnlt : Nat.ltb MAX_ENTRIES (length entries) = false).
    { apply Nat.ltb_ge. subst entries. rewrite length_app. cbn [length]. unfold MAX_ENTRIES. lia. }
    rewrite Hnlt in Hsave. fold entries in Hfits. rewrite Hfits in Hsave.
    by injection Hsave as <-.
Qed.

Lemma newerFirst_total (a b : AuditEntry) : newerFirst a b = false -> newerFirst b a = true.
Proof. unfold newerFirst. intros H. apply Z.leb_gt in H. apply Z.leb_le. lia. Qed.

Lemma newerFirst_trans (a b c : AuditEntry) :
  newerFirst a b = true -> newerFirst b c = true -> newerFirst a c = true.
Proof. unfold newerFirst. rewrite !Z.leb_le. lia. Qed.

(** X22. [getAuditLog] returns the stored entries, each as often as it is
    stored, newest first: no entry comes before an entry with a later
    timestamp, and entries of one timestamp keep the order in which they
    were logged. *)
Theorem getAuditLog_newest_first (st : AuditStore) :
  getAuditLog st ≡ₚ load st /\
  StronglySorted (fun a b => timestamp b <= timestamp a) (getAuditLog st) /\
  (forall t, filter (fun e => timestamp e = t) (getAuditLog st) =
             filter (fun e => timestamp e = t) (load st)) /\
  length (getAuditLog st) = getAuditLogCount st.
Proof.
  unfold getAuditLog, getAuditLogCount. split; [apply sort_perm|].
  split; [|split].
  - eapply strongly_sorted_weaken; [|apply sort_sorted; [apply newerFirst_total|apply newerFirst_trans]].
    intros a b. unfold newerFirst. rewrite Z.leb_le. lia.
  - intros t. apply sort_stable. intros x y Hx Hxy Hy.
    unfold newerFirst in Hxy. apply Z.leb_gt in Hxy. lia.
  - by rewrite sort_perm.
Qed.

(** X23. The filtered view holds exactly the stored entries of the given
    operation, newest first; without an operation it is the whole log. *)
Theorem getAuditLogFiltered_exact (op : AuditOperation) (st : AuditStore) :
  (forall e, e ∈ getAuditLogFiltered (Some op) st <-> e ∈ load st /\ operation e = op) /\
  StronglySorted (fun a b => timestamp b <= timestamp a) (getAuditLogFiltered (Some op) st) /\
  getAuditLogFiltered (Some op) st ≡ₚ filter (fun e => operation e = op) (load st) /\
  getAuditLogFiltered None st = getAuditLog st.
Proof.
  unfold getAuditLogFiltered, getAuditLog. split; [|split; [|split; [|reflexivity]]].
  - intros e. rewrite list_elem_of_filter, sort_perm. tauto.
  - apply strongly_sorted_filter.
    eapply strongly_sorted_weaken; [|apply sort_sorted; [apply newerFirst_total|apply newerFirst_trans]].
    intros a b. unfold newerFirst. rewrite Z.leb_le. lia.
  - by rewrite sort_perm.
Qed.

End AuditLogFacts.

Section AuditLogExamples.
Import JsArray AuditLog.

Lemma logOperation_keeps_newest_witness :
  last (load (Some [newEntry 1700000000000 1700000000000 "a1b2c3" query
                      (mkLogOpts (Some "docs") None None (Some 42))])) =
  Some (mkEntry "audit-1700000000000-a1b2c3" 1700000000000 query (Some "docs") None success
          (Some 42)).
Proof.
  apply (logOperation_keeps_newest (fun _ => true) 1700000000000 1700000000000 "a1b2c3" query
           (mkLogOpts (Some "docs") None None (Some 42)) None).
  reflexivity.
Defined.

End AuditLogExamples.

(* ===================================================================== *)
(** ** The growth tracker *)
(* ===================================================================== *)

Section MoreSortFacts.
Import JsArray.

Context {A : Type} (before : A -> A -> bool).

Lemma sort_of_sorted (l : list A) :
  StronglySorted (fun a b => before a b = true) l -> sort before l = l.
Proof.
  intros Hs. induction Hs as [|x l Hl IH Hx]; [reflexivity|].
  cbn [sort fold_right]. fold (sort before l). rewrite IH.
  destruct l as [|y l']; [reflexivity|]. cbn [insertSorted].
  apply Forall_cons in Hx as [Hxy _]. by rewrite Hxy.
Qed.

Lemma strongly_sorted_snoc (R : A -> A -> Prop) (l : list A) (x : A) :
  StronglySorted R l -> Forall (fun a => R a x) l -> StronglySorted R (l ++ [x]).
Proof.
  intros Hs Hall. induction Hs as [|y l Hl IH Hy]; cbn [app].
  { constructor; constructor. }
  apply Forall_cons in Hall as [Hyx Hall].
  constructor; [by apply IH|]. apply Forall_app. split; [exact Hy|]. by constructor.
Qed.

Lemma strongly_sorted_skipn (R : A -> A -> Prop) (k : nat) (l : list A) :
  StronglySorted R l -> StronglySorted R (skipn k l).
Proof.
  revert l. induction k as [|k IH]; intros l Hs; [exact Hs|].
  destruct Hs as [|x l Hl Hx]; [constructor|]. by apply IH.
Qed.

End MoreSortFacts.

Section GrowthFacts.
Import JsArray GrowthTracker.

Variable fits : list GrowthSnapshot -> bool.

Lemma olderFirst_total (a b : GrowthSnapshot) : olderFirst a b = false -> olderFirst b a = true.
Proof. unfold olderFirst. intros H. apply Z.leb_gt in H. apply Z.leb_le. lia. Qed.

Lemma olderFirst_trans (a b c : GrowthSnapshot) :
  olderFirst a b = true -> olderFirst b c = true -> olderFirst a c = true.
Proof. unfold olderFirst. rewrite !Z.leb_le. lia. Qed.

Lemma getSnapshots_sorted (cid : string) (st : gmap string (list GrowthSnapshot)) :
  StronglySorted (fun a b => olderFirst a b = true) (getSnapshots cid st).
Proof.
  unfold getSnapshots. destruct (st !! cid); [|constructor].
  apply sort_sorted; [apply olderFirst_total|apply olderFirst_trans].
Qed.

Lemma getSnapshots_insert (cid : string) (l : list GrowthSnapshot) (st : gmap string (list GrowthSnapshot)) :
  getSnapshots cid (<[cid := l]> st) = sort olderFirst l.
Proof. unfold getSnapshots. by rewrite lookup_insert_eq. Qed.

(** What a call that is not skipped stores. *)
Lemma recordSnapshot_cases (now : Z) (cid : string) (c : Z) (st st' : gmap string (list GrowthSnapshot)) :
  recordSnapshot fits now cid c st = Some st' ->
  st' = st \/
  exists k,
    (k < length (getSnapshots cid st ++ [mkSnapshot now c]))%nat /\
    (length (getSnapshots cid st ++ [mkSnapshot now c]) - k <= 200)%nat /\
    st' = <[cid := skipn k (getSnapshots cid st ++ [mkSnapshot now c])]> st.
Proof.
  unfold recordSnapshot.
  set (entries := (getSnapshots cid st ++ [mkSnapshot now c])%list).
  destruct (match last (getSnapshots cid st) with Some l => _ | None => false end);
    [intros [= <-]; by left|].
  intros Hrec. right.
  assert (Hne : entries <> []) by (subst entries; by destruct (getSnapshots cid st)).
  pose proof (trimmed_or_half fits 200 entries ltac:(lia) Hne) as Hkept. cbn zeta in Hkept.
  destruct (fits _) in Hrec.
  - injection Hrec as <-. edestruct Hkept as (k & Hk & Heq & Hb); [by left|].
    exists k. rewrite <- Heq. auto.
  - destruct (fits _) in Hrec; [|discriminate].
    injection Hrec as <-. edestruct Hkept as (k & Hk & Heq & Hb); [by right|].
    exists k. rewrite <- Heq. auto.
Qed.

(** X24. A call of [recordSnapshot] that does not run out of storage
    leaves the snapshots of the other collections alone and, unless it
    skipped the snapshot, leaves at most 200 snapshots for its collection,
    the new one being the last stored; read back, the snapshots are in
    ascending order of time.  So a store in which every collection has at
    most 200 snapshots stays such a store. *)
Theorem recordSnapshot_keeps_bound (now : Z) (cid : string) (c : Z) (st st' : gmap string (list GrowthSnapshot)) :
  recordSnapshot fits now cid c st = Some st' ->
  (forall other, other <> cid -> st' !! other = st !! other) /\
  (st' = st \/
   ((length (getSnapshots cid st') <= 200)%nat /\
    exists stored, st' !! cid = Some stored /\ last stored = Some (mkSnapshot now c))) /\
  StronglySorted (fun a b => timestamp a <= timestamp b) (getSnapshots cid st') /\
  ((forall other, (length (getSnapshots other st) <= 200)%nat) ->
   forall other, (length (getSnapshots other st') <= 200)%nat).
Proof.
  intros Hrec.
  assert (Hsorted : StronglySorted (fun a b => timestamp a <= timestamp b) (getSnapshots cid st')).
  { eapply strongly_sorted_weaken; [|apply getSnapshots_sorted].
    intros a b. unfold olderFirst. rewrite Z.leb_le. lia. }
  destruct (recordSnapshot_cases now cid c st st' Hrec) as [->|(k & Hk & Hb & ->)].
  { split; [done|]. split; [by left|]. split; [exact Hsorted|]. done. }
  assert (Hlen : (length (getSnapshots cid
             (<[cid := skipn k (getSnapshots cid st ++ [mkSnapshot now c])]> st)) <= 200)%nat).
  { rewrite getSnapshots_insert, sort_perm, length_skipn. lia. }
  split; [intros other Hother; by rewrite lookup_insert_ne|].
  split; [right; split; [exact Hlen|]|split; [exact Hsorted|]].
  - eexists. split; [apply lookup_insert_eq|].
    rewrite last_skipn by exact Hk. by rewrite last_snoc.
  - intros Hall other. destruct (decide (other = cid)) as [->|Hne]; [exact Hlen|].
    unfold getSnapshots. rewrite lookup_insert_ne by done. apply Hall.
Qed.

(** X25. With a clock that has not run backwards, a repeat of the
    count just recorded is skipped as long as less than five minutes have
    passed: the store stays as the first call left it. *)
Theorem recordSnapshot_repeat_is_skipped (now1 now2 : Z) (cid : string) (c : Z)
    (st st1 : gmap string (list GrowthSnapshot)) :
  (forall s, s ∈ getSnapshots cid st -> timestamp s <= now1) ->
  recordSnapshot fits now1 cid c st = Some st1 ->
  st1 <> st ->
  now2 - now1 < 300000 ->
  recordSnapshot fits now2 cid c st1 = Some st1.
Proof.
  intros Hclock Hrec Hchanged Hsoon.
  destruct (recordSnapshot_cases now1 cid c st st1 Hrec) as [->|(k & Hk & Hb & ->)]; [done|].
  set (entries := (getSnapshots cid st ++ [mkSnapshot now1 c])%list) in *.
  assert (Hsorted : StronglySorted (fun a b => olderFirst a b = true) (skipn k entries)).
  { apply strongly_sorted_skipn. apply strongly_sorted_snoc; [apply getSnapshots_sorted|].
    apply Forall_forall. intros s Hs. unfold olderFirst. cbn [timestamp].
    apply Z.leb_le. specialize (Hclock s Hs). lia. }
  unfold recordSnapshot.
  assert (Hget : getSnapshots cid (<[cid := skipn k entries]> st) = skipn k entries).
  { rewrite getSnapshots_insert. by apply sort_of_sorted. }
  rewrite Hget, last_skipn by exact Hk. subst entries. rewrite last_snoc.
  cbn [count timestamp]. rewrite Z.eqb_refl.
  assert ((now2 - now1 <? 5 * 60 * 1000) = true) as -> by (apply Z.ltb_lt; lia).
  reflexivity.
Qed.

End GrowthFacts.

Section GrowthExamples.
Import JsArray GrowthTracker.

Lemma recordSnapshot_first_call :
  recordSnapshot (fun _ => true) 1700000000000 "c-1" 42 ∅ =
  Some (<["c-1" := [mkSnapshot 1700000000000 42]]> ∅).
Proof. unfold recordSnapshot, getSnapshots. rewrite lookup_empty. reflexivity. Qed.

Lemma recordSnapshot_keeps_bound_witness :
  (forall other, other <> "c-1" ->
     (<["c-1" := [mkSnapshot 1700000000000 42]]> (∅ : gmap string (list GrowthSnapshot)))
       !! other = None) /\
  forall other,
    (length (getSnapshots other (<["c-1" := [mkSnapshot 1700000000000 42]]> ∅)) <= 200)%nat.
Proof.
  destruct (recordSnapshot_keeps_bound (fun _ => true) 1700000000000 "c-1" 42 ∅
              (<["c-1" := [mkSnapshot 1700000000000 42]]> ∅) recordSnapshot_first_call)
    as (Hother & _ & _ & Hbound).
  split.
  - intros other Hne. by rewrite Hother.
  - apply Hbound. intros other. unfold getSnapshots. rewrite lookup_empty. simpl. lia.
Defined.

Lemma recordSnapshot_repeat_is_skipped_witness :
  recordSnapshot (fun _ => true) 1700000060000 "c-1" 42
    (<["c-1" := [mkSnapshot 1700000000000 42]]> ∅) =
  Some (<["c-1" := [mkSnapshot 1700000000000 42]]> ∅).
Proof.
  apply (recordSnapshot_repeat_is_skipped (fun _ => true) 1700000000000 1700000060000
           "c-1" 42 ∅).
  - intros s Hs. unfold getSnapshots in Hs. rewrite lookup_empty in Hs. by apply elem_of_nil in Hs.
  - apply recordSnapshot_first_call.
  - intros H. apply (f_equal (fun m => m !! "c-1")) in H.
    rewrite lookup_insert_eq, lookup_empty in H. discriminate.
  - lia.
Defined.

End GrowthExamples.

(* ===================================================================== *)
(** ** The callers of the analysis engine *)
(* ===================================================================== *)

Section VisualizeFacts.
Import Zod Analysis Charts.

Lemma pcaProject_length {F} {num : Num F} (embeddings : list (list F)) (g : Rng F) :
  length (fst (pcaProject embeddings g)) = length embeddings.
Proof.
  destruct embeddings as [|first rest]; [reflexivity|].
  unfold pcaProject.
  destruct (powerIteration (length first) _ g) as [pc1 g1].
  destruct (powerIteration (length first) _ g1) as [pc2 g2].
  cbn [fst]. unfold projectOnto. rewrite !map_map, pairUp_map. apply length_map.
Qed.

(** The embeddings kept are the non-empty ones, with their indices, in
    ascending order of index. *)
Lemma validFrom_lookup (start : nat) (embs : list (option (list float))) (idx i : nat)
    (v : list float) :
  validFrom start embs !! idx = Some (i, v) ->
  (start <= i)%nat /\ embs !! (i - start)%nat = Some (Some v) /\ v <> [].
Proof.
  revert start idx. induction embs as [|emb rest IH]; intros start idx H; [done|].
  cbn [validFrom] in H.
  assert (Hrest : forall idx', validFrom (S start) rest !! idx' = Some (i, v) ->
            (start <= i)%nat /\ (emb :: rest) !! (i - start)%nat = Some (Some v) /\ v <> []).
  { intros idx' H'. destruct (IH _ _ H') as (Hle & Hl & Hv).
    split; [lia|]. split; [|exact Hv].
    replace (i - start)%nat with (S (i - S start)) by lia. exact Hl. }
  destruct emb as [[|x xs]|]; [by eapply Hrest|..|by eapply Hrest].
  destruct idx as [|idx]; [|by eapply Hrest].
  injection H as <- <-. rewrite Nat.sub_diag. done.
Qed.

Lemma validFrom_ascending (start : nat) (embs : list (option (list float))) :
  StronglySorted lt (map fst (validFrom start embs)) /\
  Forall (fun i => (start <= i)%nat) (map fst (validFrom start embs)).
Proof.
  revert start. induction embs as [|emb rest IH]; intros start.
  { split; constructor. }
  destruct (IH (S start)) as [Hs Hall].
  assert (Hall' : Forall (fun i => (start <= i)%nat) (map fst (validFrom (S start) rest))).
  { eapply Forall_impl; [exact Hall|]. intros i Hi. cbn beta in Hi. lia. }
  cbn [validFrom]. destruct emb as [[|x xs]|]; [done| |done].
  cbn [map fst]. split.
  - constructor; [exact Hs|]. eapply Forall_impl; [exact Hall|]. intros i Hi. cbn beta in Hi. lia.
  - constructor; [lia|exact Hall'].
Qed.

Lemma validFrom_complete (start : nat) (embs : list (option (list float))) (j : nat)
    (v : list float) :
  embs !! j = Some (Some v) -> v <> [] ->
  exists idx, validFrom start embs !! idx = Some ((start + j)%nat, v).
Proof.
  revert start j. induction embs as [|emb rest IH]; intros start j Hj Hv; [done|].
  destruct j as [|j].
  - injection Hj as ->. destruct v as [|x xs]; [done|]. exists 0%nat.
    cbn [validFrom]. by rewrite Nat.add_0_r.
  - cbn in Hj. destruct (IH (S start) j Hj Hv) as [idx Hidx].
    replace (start + S j)%nat with (S start + j)%nat by lia.
    cbn [validFrom]. destruct emb as [[|x xs]|]; [by exists idx|by exists (S idx)|by exists idx].
Qed.

(** X26. The points of the Visualize tab are the projections of the records
    whose embedding is present and not empty, in the order of the
    records: the point at position [idx] has the coordinates PCA gives the
    [idx]-th such embedding and carries the id, the metadata and the
    document found at that record's index in the batch.  Records without an
    embedding, or with an empty one, give no point; a batch without the
    embeddings field gives none at all. *)
Theorem visualizePoints_follow_records (d : GetItemsResponse)
    (embs : list (option (list float))) (g : Rng float) :
  embeddings d = Present embs ->
  let pts := fst (visualizePoints (Some d) g) in
  let valid := validFrom 0 embs in
  let projected := fst (pcaProject (map snd valid) g) in
  length pts = length valid /\
  StronglySorted lt (map fst valid) /\
  (forall i v, embs !! i = Some (Some v) -> v <> [] -> exists idx, valid !! idx = Some (i, v)) /\
  (forall idx i v, valid !! idx = Some (i, v) ->
     embs !! i = Some (Some v) /\ v <> [] /\
     exists p, projected !! idx = Some p /\
       pts !! idx =
       Some (mkEmbeddingPoint (ids d !! i) (px p) (py p)
               (nullishAt (metadatas d) i) (nullishAt (documents d) i) None)) /\
  (forall d', (forall l, embeddings d' <> Present l) -> fst (visualizePoints (Some d') g) = []).
Proof.
  intros Hemb. cbn zeta.
  assert (Hpts : fst (visualizePoints (Some d) g) =
            imap (fun idx p =>
                    let origIdx := map fst (validFrom 0 embs) !! idx in
                    mkEmbeddingPoint (origIdx ≫= fun i => ids d !! i) (px p) (py p)
                      (origIdx ≫= nullishAt (metadatas d))
                      (origIdx ≫= nullishAt (documents d)) None)
                 (fst (pcaProject (map snd (validFrom 0 embs)) g))).
  { unfold visualizePoints. rewrite Hemb.
    destruct (map snd (validFrom 0 embs)) as [|e es] eqn:Hvalid; [reflexivity|].
    by destruct (pcaProject (e :: es) g). }
  split; [|split; [|split; [|split]]].
  - rewrite Hpts, length_imap, pcaProject_length. apply length_map.
  - apply validFrom_ascending.
  - intros i v Hi Hv. apply (validFrom_complete 0 embs i v Hi Hv).
  - intros idx i v Hidx.
    destruct (validFrom_lookup 0 embs idx i v Hidx) as (_ & Hi & Hv).
    rewrite Nat.sub_0_r in Hi. split; [exact Hi|]. split; [exact Hv|].
    assert (Hlt : (idx < length (fst (pcaProject (map snd (validFrom 0 embs)) g)))%nat).
    { rewrite pcaProject_length, length_map. by eapply lookup_lt_Some. }
    apply lookup_lt_is_Some in Hlt as [p Hp]. exists p. split; [exact Hp|].
    rewrite Hpts, list_lookup_imap, Hp. cbn [fmap option_fmap option_map].
    rewrite list_lookup_fmap, Hidx. reflexivity.
  - intros d' Hnone. unfold visualizePoints.
    destruct (embeddings d') as [| |l]; [reflexivity..|]. by destruct (Hnone l).
Qed.

End VisualizeFacts.

Section VisualizeExamples.
Import Zod Analysis Charts Scenarios.

Lemma visualizePoints_follow_records_witness :
  length (fst (visualizePoints
                 (Some (mkItems ["a"; "b"; "c"]
                          (Present [Some [1; 2]; None; Some [3; 5]]%float)
                          Undefined Undefined Undefined)) sampleRng)) = 2%nat.
Proof.
  apply (visualizePoints_follow_records
           (mkItems ["a"; "b"; "c"] (Present [Some [1; 2]; None; Some [3; 5]]%float)
              Undefined Undefined Undefined)
           [Some [1; 2]; None; Some [3; 5]]%float sampleRng eq_refl).
Defined.

End VisualizeExamples.

(** ** The groups of the scatter plot *)

Section PushFacts.
Import Charts.

Context {A B : Type}.

Lemma pushInto_keys (label : string) (p : A) (gs : list (string * list A)) :
  map fst (pushInto label p gs) =
  if decide (label ∈ map fst gs) then map fst gs else (map fst gs ++ [label])%list.
Proof.
  induction gs as [|[l ps] gs IH]; cbn [pushInto map fst].
  { rewrite decide_False by apply not_elem_of_nil. reflexivity. }
  destruct (String.eqb_spec l label) as [->|Hne]; cbn [map fst].
  - rewrite decide_True by left. reflexivity.
  - rewrite IH. destruct (decide (label ∈ map fst gs)) as [Hin|Hnin].
    + rewrite decide_True by (by right). reflexivity.
    + rewrite decide_False; [reflexivity|]. intros Hin. apply elem_of_cons in Hin as [->|Hin]; done.
Qed.

Lemma pushInto_members (label : string) (p : A) (gs : list (string * list A)) :
  concat (map snd (pushInto label p gs)) ≡ₚ (concat (map snd gs) ++ [p])%list.
Proof.
  induction gs as [|[l ps] gs IH]; cbn [pushInto map snd concat]; [reflexivity|].
  destruct (String.eqb l label); cbn [map snd concat].
  - rewrite <- !app_assoc. apply Permutation_app_head. apply Permutation_app_comm.
  - rewrite IH. by rewrite app_assoc.
Qed.

Lemma pushInto_groups (Q : string -> A -> Prop) (label : string) (p : A)
    (gs : list (string * list A)) :
  Forall (fun g => snd g <> [] /\ Forall (Q (fst g)) (snd g)) gs ->
  Q label p ->
  Forall (fun g => snd g <> [] /\ Forall (Q (fst g)) (snd g)) (pushInto label p gs).
Proof.
  intros Hgs Hp. induction Hgs as [|[l ps] gs [Hne Hall] Hgs IH]; cbn [pushInto].
  { constructor; [|constructor]. split; [done|]. by constructor. }
  destruct (String.eqb_spec l label) as [->|Hneq].
  - constructor; [|exact Hgs]. cbn [fst snd] in *. split; [by destruct ps|].
    apply Forall_app. split; [exact Hall|]. by constructor.
  - constructor; [by split|exact IH].
Qed.

(** A loop that pushes one element per item into the groups. *)
Lemma fold_pushInto (Q : string -> A -> Prop) (key : B -> string) (val : B -> A)
    (f : list (string * list A) -> B -> list (string * list A)) (items : list B) :
  (forall m b, f m b = pushInto (key b) (val b) m) ->
  Forall (fun b => Q (key b) (val b)) items ->
  forall gs0,
    NoDup (map fst gs0) ->
    Forall (fun g => snd g <> [] /\ Forall (Q (fst g)) (snd g)) gs0 ->
    let gs := fold_left f items gs0 in
    NoDup (map fst gs) /\
    Forall (fun g => snd g <> [] /\ Forall (Q (fst g)) (snd g)) gs /\
    concat (map snd gs) ≡ₚ (concat (map snd gs0) ++ map val items)%list /\
    (forall l, l ∈ map fst gs -> l ∈ map fst gs0 \/ l ∈ map key items).
Proof.
  intros Hf HQ. induction HQ as [|b items Hb HQ IH]; intros gs0 Hnd Hgs0; cbn zeta.
  { cbn [fold_left map]. rewrite app_nil_r. auto. }
  cbn [fold_left]. rewrite Hf.
  destruct (IH (pushInto (key b) (val b) gs0)) as (H1 & H2 & H3 & H4).
  { rewrite pushInto_keys. destruct (decide _) as [|Hnin]; [exact Hnd|].
    apply NoDup_app. split; [exact Hnd|]. split; [|apply NoDup_singleton].
    intros l Hl Hl'. apply list_elem_of_singleton in Hl'. by subst l. }
  { by apply pushInto_groups. }
  cbn zeta in *. split; [exact H1|]. split; [exact H2|]. split.
  - rewrite H3, pushInto_members. cbn [map]. rewrite <- app_assoc. reflexivity.
  - intros l Hl. destruct (H4 l Hl) as [Hin|Hin].
    + rewrite pushInto_keys in Hin. destruct (decide _); [by left|].
      apply elem_of_app in Hin as [Hin|Hin]; [by left|]. right.
      apply list_elem_of_singleton in Hin. subst l. cbn [map]. left.
    + right. cbn [map]. by right.
Qed.

End PushFacts.

Section GroupFacts.
Import Zod Analysis Charts.

Variable groupByMetadata : string -> list EmbeddingPoint -> list (string * list EmbeddingPoint).

Lemma kMeans_labels {F} {num : Num F} (points : list (Point F)) (k maxIter : nat) (g : Rng F) :
  (1 <= k)%nat ->
  length (labels (fst (kMeans points k maxIter g))) = length points /\
  Forall (fun l => (l < k)%nat) (labels (fst (kMeans points k maxIter g))).
Proof.
  intros Hk. destruct points as [|p0 points]; [split; [reflexivity|constructor]|].
  unfold kMeans.
  destruct (seedCentroids (p0 :: points) k g) as [seeds g'].
  destruct (iterate_spec maxIter (p0 :: points) k
              (replicate (length (p0 :: points)) 0%nat) seeds Hk) as (H1 & H2 & H3).
  { apply length_replicate. }
  { apply Forall_replicate. lia. }
  destruct (iterate maxIter (p0 :: points) k _ seeds) as [ls cs].
  cbn [fst snd labels] in *. auto.
Qed.

(** X27. With clustering switched on and at least [k >= 1] points, the
    groups of the scatter plot partition the points: every point is in
    exactly one group, tagged with the label k-means gave it; the group of
    the points with label [l] is named "Cluster l+1", so the names are
    "Cluster 1" to "Cluster k"; the groups have distinct names, none is empty
    and there are at most [k] of them.  With fewer points than [k] the switch
    has no effect: without a colour key the plot shows the one group
    "All points". *)
Theorem groups_partition_the_points (colorKey : string) (k : nat)
    (points : list EmbeddingPoint) (g : Rng float) :
  (1 <= k)%nat ->
  let gs := groups groupByMetadata colorKey true (fst (clustered true k points g)) points in
  ((k <= length points)%nat ->
   let ls := labels (fst (kMeans (map (fun p => mkPoint (x p) (y p)) points) k 50 g)) in
   length ls = length points /\
   Forall (fun l => (l < k)%nat) ls /\
   concat (map snd gs) ≡ₚ
     zip_with (fun p l => mkEmbeddingPoint (id p) (x p) (y p) (metadata p) (document p)
                            (Some l)) points ls /\
   NoDup (map fst gs) /\
   (length gs <= k)%nat /\
   Forall (fun group =>
             snd group <> [] /\
             Forall (fun p => exists l, cluster p = Some l /\ (l < k)%nat /\
                                        fst group =
                                          "Cluster " ++ Client.string_of_Z (Z.of_nat l + 1))
               (snd group)) gs) /\
  ((length points < k)%nat ->
   fst (clustered true k points g) = None /\
   groups groupByMetadata "" true (fst (clustered true k points g)) points =
     [("All points", points)]).
Proof.
  intros Hk. cbn zeta. split.
  - intros Hlen. unfold clustered. cbn [negb orb].
    assert ((length points <? k)%nat = false) as -> by (apply Nat.ltb_ge; lia).
    pose proof (kMeans_labels (map (fun p => mkPoint (x p) (y p)) points) k 50 g Hk)
      as [Hll Hlk].
    destruct (kMeans _ k 50 g) as [c g']. cbn [fst] in *. rewrite length_map in Hll.
    split; [exact Hll|]. split; [exact Hlk|].
    unfold groups.
    set (Q := fun (label : string) (p : EmbeddingPoint) =>
                exists l, cluster p = Some l /\ (l < k)%nat /\ label = clusterLabel (Some l)).
    set (key := fun b : nat * EmbeddingPoint => clusterLabel (labels c !! fst b)).
    set (val := fun b : nat * EmbeddingPoint =>
                  mkEmbeddingPoint (id (snd b)) (x (snd b)) (y (snd b)) (metadata (snd b))
                    (document (snd b)) (labels c !! fst b)).
    assert (Hitems : forall i p, imap pair points !! i = Some p ->
              fst p = i /\ points !! i = Some (snd p) /\ exists l, labels c !! i = Some l).
    { intros i p Hi. rewrite list_lookup_imap in Hi.
      destruct (points !! i) as [q|] eqn:Hq; [|done]. injection Hi as <-.
      split; [reflexivity|]. split; [reflexivity|].
      apply lookup_lt_is_Some. rewrite Hll. by eapply lookup_lt_Some. }
    destruct (fold_pushInto Q key val
                (fun map_ '(i, p) =>
                   let l := labels c !! i in
                   pushInto (clusterLabel l)
                     (mkEmbeddingPoint (id p) (x p) (y p) (metadata p) (document p) l) map_)
                (imap pair points)) with (gs0 := @nil (string * list EmbeddingPoint))
      as (Hnd & Hgroups & Hperm & Hkeys).
    { by intros m [i p]. }
    { apply Forall_lookup. intros i p Hi. destruct (Hitems i p Hi) as (Hfst & _ & l & Hl).
      unfold Q, key, val. cbn [cluster]. rewrite Hfst, Hl. exists l.
      split; [reflexivity|]. split; [|reflexivity].
      rewrite Forall_lookup in Hlk. by apply (Hlk i). }
    { constructor. }
    { constructor. }
    cbn zeta in *. split; [|split; [exact Hnd|split; [|exact Hgroups]]].
    + rewrite Hperm. cbn [concat map app].
      match goal with |- ?l1 ≡ₚ ?l2 => assert (Heq : l1 = l2); [|by rewrite Heq] end.
      apply list_eq. intros i.
      rewrite list_lookup_fmap, list_lookup_imap, lookup_zip_with.
      destruct (points !! i) as [p|] eqn:Hp; [|reflexivity]. cbn.
      assert (exists l, labels c !! i = Some l) as [l Hl].
      { apply lookup_lt_is_Some. rewrite Hll. by eapply lookup_lt_Some. }
      unfold val. cbn [fst snd]. by rewrite Hl.
    + assert (Hk' : length (map (fun l => clusterLabel (Some l)) (seq 0 k)) = k)
        by (rewrite length_map; apply length_seq).
      apply Nat.le_trans with (length (map (fun l => clusterLabel (Some l)) (seq 0 k)));
        [|by rewrite Hk'].
      rewrite <- (length_map fst).
      apply submseteq_length, NoDup_submseteq; [exact Hnd|].
      intros label Hlabel. destruct (Hkeys label Hlabel) as [Hin|Hin]; [by apply elem_of_nil in Hin|].
      apply list_elem_of_fmap in Hin as ([i p] & -> & Hin).
      apply list_elem_of_lookup in Hin as [j Hj].
      destruct (Hitems j _ Hj) as (Hfst & _ & l & Hl). cbn [fst] in Hfst. subst i.
      unfold key. cbn [fst]. rewrite Hl. apply list_elem_of_fmap. exists l.
      split; [reflexivity|]. apply elem_of_seq. rewrite Forall_lookup in Hlk.
      specialize (Hlk j l Hl). lia.
  - intros Hlt. unfold clustered. cbn [negb orb].
    assert ((length points <? k)%nat = true) as -> by (apply Nat.ltb_lt; lia).
    split; reflexivity.
Qed.

End GroupFacts.

Section GroupExamples.
Import Zod Analysis Charts Scenarios.

(** Five points in two clouds, and what the plot makes of them. *)
Lemma groups_partition_the_points_witness :
  map (fun group => (fst group, map (fun p => (x p, y p, cluster p)) (snd group)))
    (groups (fun _ _ => []) "" true (fst (clustered true 2 scatterPoints sampleRng))
       scatterPoints) =
    [("Cluster 1", [(0, 0, Some 0%nat); (0, 1, Some 0%nat); (5, 5, Some 0%nat)]);
     ("Cluster 2", [(10, 10, Some 1%nat); (10, 11, Some 1%nat)])]%float /\
  NoDup (map fst (groups (fun _ _ => []) "" true
                    (fst (clustered true 2 scatterPoints sampleRng)) scatterPoints)) /\
  Forall (fun group => snd group <> [])
    (groups (fun _ _ => []) "" true (fst (clustered true 2 scatterPoints sampleRng))
       scatterPoints) /\
  groups (fun _ _ => []) "" true
    (fst (clustered true 3 [mkEmbeddingPoint (Some "a") 0 0 None None None] sampleRng))
    [mkEmbeddingPoint (Some "a") 0 0 None None None] =
  [("All points", [mkEmbeddingPoint (Some "a") 0 0 None None None])].
Proof.
  split; [vm_compute; reflexivity|].
  destruct (groups_partition_the_points (fun _ _ => []) "" 2 scatterPoints sampleRng)
    as [Hclusters _]; [lia|].
  destruct Hclusters as (_ & _ & _ & Hnames & _ & Hgroups); [cbn; lia|].
  split; [exact Hnames|]. split.
  - eapply Forall_impl; [exact Hgroups|]. by intros group [H _].
  - apply (groups_partition_the_points (fun _ _ => []) "" 3
             [mkEmbeddingPoint (Some "a") 0 0 None None None] sampleRng).
    + lia.
    + simpl. lia.
Defined.

End GroupExamples.

(** ** The sample of the heatmap and its canvas *)

Section HeatmapFacts.
Import Analysis Charts.
Context {F : Type} {num : Num F}.

(** What the loop of [validData] adds to [items]: the embeddings it keeps,
    with their indices. *)
Lemma validData_loop_kept (ids : list string) (cap : nat) (embeddings : list (option (list F)))
    (i : nat) (items : list (string * list F)) :
  exists kept : list (nat * list F),
    validData_loop i embeddings ids cap items =
      (items ++ map (fun je => (itemId ids (fst je), snd je)) kept)%list /\
    StronglySorted lt (map fst kept) /\
    Forall (fun je => (i <= fst je)%nat /\
                      embeddings !! (fst je - i)%nat = Some (Some (snd je))) kept /\
    (length items + length kept <= Nat.max cap (length items))%nat.
Proof.
  revert i items. induction embeddings as [|emb rest IH]; intros i items.
  { exists []. cbn. rewrite app_nil_r. repeat split; try constructor. lia. }
  cbn [validData_loop]. destruct (length items <? cap)%nat eqn:Hlt.
  2:{ exists []. cbn. rewrite app_nil_r. repeat split; try constructor. lia. }
  apply Nat.ltb_lt in Hlt.
  assert (Hshift : forall kept : list (nat * list F),
            Forall (fun je => (S i <= fst je)%nat /\
                              rest !! (fst je - S i)%nat = Some (Some (snd je))) kept ->
            Forall (fun je => (i <= fst je)%nat /\
                              (emb :: rest) !! (fst je - i)%nat = Some (Some (snd je))) kept).
  { intros kept Hkept. eapply Forall_impl; [exact Hkept|].
    intros [j e] [Hle Hl]. cbn [fst snd] in *.
    split; [lia|]. replace (j - i)%nat with (S (j - S i)) by lia. exact Hl. }
  destruct emb as [e|].
  - destruct (IH (S i) (items ++ [(itemId ids i, e)])%list)
      as (kept & Hrun & Hsorted & Hall & Hlen).
    exists ((i, e) :: kept). rewrite Hrun. cbn [map fst snd]. rewrite <- app_assoc.
    split; [reflexivity|]. split; [|split].
    + constructor; [exact Hsorted|].
      apply Forall_forall. intros j Hj. apply list_elem_of_fmap in Hj as ([j' e'] & -> & Hin).
      rewrite Forall_forall in Hall. destruct (Hall _ Hin) as [Hle _]. cbn [fst] in *. lia.
    + constructor; [|by apply Hshift]. cbn [fst snd]. rewrite Nat.sub_diag. split; [lia|reflexivity].
    + rewrite length_app in Hlen. cbn [length] in *. lia.
  - destruct (IH (S i) items) as (kept & Hrun & Hsorted & Hall & Hlen).
    exists kept. rewrite Hrun. split; [reflexivity|]. split; [exact Hsorted|].
    split; [by apply Hshift|exact Hlen].
Qed.

(** X28. The sample of the heatmap holds at most [sampleSize] records, in
    the order of the batch: the first present embeddings (an empty one
    counts as present), each with the id found at its index, or "item-"
    followed by the index when the batch has no id there.  The cells are
    between 8 and 20 pixels wide, so the canvas stays within 500 pixels as
    long as the sample has at most 62 records, and is 8 pixels per record
    beyond. *)
Theorem heatmap_sample_and_canvas (embeddings : list (option (list F))) (ids : list string)
    (sampleSize : nat) :
  let data := validData embeddings ids sampleSize in
  (length data <= sampleSize)%nat /\
  map snd data = take sampleSize (presentEmbeddings embeddings) /\
  (exists indices,
     StronglySorted lt indices /\
     length indices = length data /\
     forall n i, indices !! n = Some i ->
       exists e, embeddings !! i = Some (Some e) /\ data !! n = Some (itemId ids i, e)) /\
  8 <= cellSize (length data) <= 20 /\
  ((sampleSize <= 62)%nat -> canvasSize (length data) <= 500) /\
  ((63 <= length data)%nat -> canvasSize (length data) = 8 * Z.of_nat (length data)).
Proof.
  cbn zeta. unfold validData.
  destruct (validData_loop_kept ids sampleSize embeddings 0 [])
    as (kept & Hrun & Hsorted & Hall & Hlen).
  cbn [app length] in Hrun, Hlen. rewrite Hrun, length_map.
  assert (Hcap : (length kept <= sampleSize)%nat) by lia.
  split; [exact Hcap|]. split; [|split].
  - rewrite <- Hrun. rewrite validData_loop_present by (cbn; lia).
    cbn [map length app]. by rewrite Nat.sub_0_r.
  - exists (map fst kept). split; [exact Hsorted|]. split; [apply length_map|].
    intros n i Hn. rewrite list_lookup_fmap in Hn.
    destruct (kept !! n) as [[j e]|] eqn:Hk; [|done]. injection Hn as <-.
    rewrite Forall_forall in Hall.
    destruct (Hall (j, e)) as [_ He]; [by eapply list_elem_of_lookup_2|].
    cbn [fst snd] in He. rewrite Nat.sub_0_r in He.
    exists e. split; [exact He|]. by rewrite list_lookup_fmap, Hk.
  - assert (Hcell : forall n, 8 <= cellSize n <= 20) by (intros n; unfold cellSize; destruct (n =? 0)%nat; lia).
    split; [apply Hcell|]. split.
    + intros H62. unfold canvasSize, cellSize.
      destruct (length kept) as [|m] eqn:Hm; [cbn; lia|].
      assert (Hpos : 0 < Z.of_nat (S m)) by lia.
      assert (Hle : Z.of_nat (S m) <= 62) by lia.
      cbn [Nat.eqb].
      pose proof (Z.mul_div_le 500 (Z.of_nat (S m)) Hpos) as Hdiv.
      assert (H8 : 8 <= 500 / Z.of_nat (S m)).
      { apply Z.div_le_lower_bound; lia. }
      destruct (Z.min_spec 20 (500 / Z.of_nat (S m))) as [[Hq ->]|[Hq ->]].
      * rewrite Z.max_r by lia.
        assert (20 * Z.of_nat (S m) <= 500 / Z.of_nat (S m) * Z.of_nat (S m)) by nia.
        lia.
      * rewrite Z.max_r by lia. lia.
    + intros H63. unfold canvasSize, cellSize.
      destruct (length kept) as [|m] eqn:Hm; [lia|]. cbn [Nat.eqb].
      assert (500 / Z.of_nat (S m) < 8) by (apply Z.div_lt_upper_bound; lia).
      rewrite Z.min_r by lia. rewrite Z.max_l by lia. reflexivity.
Qed.

End HeatmapFacts.

(** ** The centroid update of k-means *)

Section CentroidFacts.
Import Analysis.
Context {F : Type} {num : Num F}.

(** [clusterSums] adds up the coordinates of the points labelled [c], in
    their order, and counts them. *)
Lemma clusterSums_members (points : list (Point F)) (ls : list nat) (c : nat)
    (sumX sumY : F) (cnt : nat) :
  clusterSums points ls c sumX sumY cnt =
  (fold_left n_add (map px (membersOf points ls c)) sumX,
   fold_left n_add (map py (membersOf points ls c)) sumY,
   (cnt + length (membersOf points ls c))%nat).
Proof.
  unfold membersOf.
  revert ls sumX sumY cnt. induction points as [|p points IH]; intros ls sumX sumY cnt.
  { cbn. by rewrite Nat.add_0_r. }
  destruct ls as [|l ls]; cbn [clusterSums zip zip_with].
  - rewrite IH. destruct points; cbn; by rewrite Nat.add_0_r.
  - rewrite filter_cons. cbn [snd]. destruct (Nat.eqb_spec l c) as [->|Hne].
    + rewrite IH, decide_True by done. cbn [map fst length fold_left].
      f_equal. lia.
    + rewrite IH, decide_False by done. reflexivity.
Qed.

(** X29. The centroid update moves the centroid of a cluster to the mean of
    the points labelled with it (the sum of their coordinates, added up from
    0 in the order of the points, divided by their number), and leaves the
    centroid of a cluster without points where it was: an empty cluster is
    never re-seeded or dropped.  Centroids at indices from [k] on are not
    touched. *)
Theorem updateCentroids_mean_or_unchanged (points : list (Point F)) (newLabels : list nat)
    (k : nat) (cs : list (Point F)) (c : nat) :
  (c < length cs)%nat ->
  let members := map fst (filter (fun pl => snd pl = c) (zip points newLabels)) in
  let sumX := fold_left n_add (map px members) n_zero in
  let sumY := fold_left n_add (map py members) n_zero in
  fst (updateCentroids points newLabels k cs) !! c =
    (if decide (c < k /\ members <> [])%nat
     then Some (mkPoint (n_div sumX (n_of_nat (length members)))
                        (n_div sumY (n_of_nat (length members))))
     else cs !! c).
Proof.
  intros Hc. cbn zeta. fold (membersOf points newLabels c).
  pose proof (clusterSums_members points newLabels c n_zero n_zero 0) as Hsums.
  set (members := membersOf points newLabels c) in *.
  set (sumX := fold_left n_add (map px members) n_zero) in *.
  set (sumY := fold_left n_add (map py members) n_zero) in *.
  cbn [Nat.add] in Hsums.
  set (target := mkPoint (n_div sumX (n_of_nat (length members)))
                         (n_div sumY (n_of_nat (length members)))).
  unfold updateCentroids.
  pose proof (fold_left_seq_invariant
                (fun j (st : list (Point F) * bool) =>
                   length (fst st) = length cs /\
                   fst st !! c = if decide (c < j /\ members <> [])%nat then Some target
                                 else cs !! c)
                (fun '(centroids, changed) c0 =>
                   let '(sumX, sumY, cnt) := clusterSums points newLabels c0 n_zero n_zero 0 in
                   match cnt with
                   | O => (centroids, changed)
                   | S _ =>
                       let nx := n_div sumX (n_of_nat cnt) in
                       let ny := n_div sumY (n_of_nat cnt) in
                       let old := pointAt centroids (Some c0) in
                       let changed' :=
                         if negb (n_eqb nx (px old)) || negb (n_eqb ny (py old))
                         then true else changed in
                       (<[c0 := mkPoint nx ny]> centroids, changed')
                   end)
                0 k (cs, false)) as Hinv.
  cbn [Nat.add] in Hinv. apply Hinv.
  - cbn [fst]. split; [reflexivity|]. rewrite decide_False by lia. reflexivity.
  - intros j [cs' changed] _ [Hlen Hlook]. cbn [fst] in *.
    destruct (decide (j = c)) as [->|Hne].
    + rewrite Hsums. rewrite decide_False in Hlook by lia.
      destruct (length members) as [|cnt'] eqn:Hcnt.
      * cbn [fst]. split; [exact Hlen|]. rewrite Hlook.
        rewrite decide_False; [reflexivity|]. intros [_ Hm]. apply Hm.
        by apply length_zero_iff_nil.
      * cbn [fst]. split; [by rewrite length_insert|].
        rewrite decide_True.
        { subst target. apply list_lookup_insert_eq. lia. }
        split; [lia|]. intros Hm. by rewrite Hm in Hcnt.
    + assert (Hsame : (if decide (c < S j /\ members <> [])%nat then Some target else cs !! c) =
                      (if decide (c < j /\ members <> [])%nat then Some target else cs !! c)).
      { destruct (decide (c < j /\ members <> [])%nat) as [[H1 H2]|Hn].
        - rewrite decide_True by (split; [lia|done]). reflexivity.
        - rewrite decide_False; [reflexivity|]. intros [H1 H2]. apply Hn. split; [lia|done]. }
      rewrite Hsame.
      destruct (clusterSums points newLabels j n_zero n_zero 0) as [[sx sy] [|n]];
        cbn [fst]; [by split|].
      split; [by rewrite length_insert|]. by rewrite list_lookup_insert_ne.
Qed.

End CentroidFacts.

Section CentroidExamples.
Import Analysis Scenarios.

(** Cluster 0 holds the points (0, 0), (0, 1) and (5, 5): its centroid
    moves to their mean.  Cluster 2 holds no point: its centroid stays. *)
Lemma updateCentroids_mean_or_unchanged_witness :
  fst (updateCentroids samplePoints [0; 0; 1; 1; 0]%nat 3
         [mkPoint 0 0; mkPoint 10 10; mkPoint 7 7]%float) !! 0%nat =
  Some (mkPoint ((0 + 0 + 0 + 5) / 3) ((0 + 0 + 1 + 5) / 3))%float /\
  fst (updateCentroids samplePoints [0; 0; 1; 1; 0]%nat 3
         [mkPoint 0 0; mkPoint 10 10; mkPoint 7 7]%float) !! 2%nat =
  Some (mkPoint 7 7)%float.
Proof.
  split.
  - rewrite (updateCentroids_mean_or_unchanged samplePoints [0; 0; 1; 1; 0]%nat 3
               [mkPoint 0 0; mkPoint 10 10; mkPoint 7 7]%float 0) by (simpl; lia).
    vm_compute. reflexivity.
  - rewrite (updateCentroids_mean_or_unchanged samplePoints [0; 0; 1; 1; 0]%nat 3
               [mkPoint 0 0; mkPoint 10 10; mkPoint 7 7]%float 2) by (simpl; lia).
    vm_compute. reflexivity.
Defined.

End CentroidExamples.

(** ** Symmetry of the cosine similarity on doubles *)

Section CosineSymmetry.
Import Analysis.

(** Multiplication of doubles commutes. *)
Lemma float_mul_comm (x y : float) : (x * y = y * x)%float.
Proof.
  apply Prim2SF_inj. rewrite !FloatAxioms.mul_spec. unfold SF64mul, SFmul.
  destruct (Prim2SF x) as [sx|sx| |sx mx ex], (Prim2SF y) as [sy|sy| |sy my ey];
    try reflexivity; try (by rewrite xorb_comm).
  by rewrite xorb_comm, Pos.mul_comm, Z.add_comm.
Qed.

Lemma sumOfProducts_comm (a b : list float) (acc : float) :
  fold_left (fun s xy => s + fst xy * snd xy)%float (zip a b) acc =
  fold_left (fun s xy => s + fst xy * snd xy)%float (zip b a) acc.
Proof.
  revert b acc. induction a as [|x a IH]; intros [|y b] acc; try reflexivity.
  cbn [zip zip_with fold_left fst snd]. rewrite (float_mul_comm x y). apply IH.
Qed.

(** X30. On doubles [cosineSimilarity] is exactly symmetric for two vectors
    of one dimension: both calls add up the same products in the same order
    and divide by the same product of magnitudes, so the matrix loses
    nothing by computing each pair once.  For vectors of different dimensions
    it is not: the loop runs over the first argument and reads [undefined]
    past the end of the second.  The similarity of a vector with itself need
    not be 1. *)
Theorem cosineSimilarity_symmetric_on_doubles :
  (forall a b : list float,
     length a = length b -> cosineSimilarity a b = cosineSimilarity b a) /\
  (cosineSimilarity [1; 0]%float [1]%float <> cosineSimilarity [1]%float [1; 0]%float) /\
  PrimFloat.ltb 1 (cosineSimilarity [1; 1; 1]%float [1; 1; 1]%float) = true.
Proof.
  split; [|split].
  - intros a b Hlen.
    rewrite (cosineSimilarity_unfold a b Hlen), (cosineSimilarity_unfold b a (eq_sym Hlen)).
    cbn [n_mul n_eqb n_div n_zero float_num].
    rewrite (float_mul_comm (magnitude b) (magnitude a)).
    unfold sumOfProducts. cbn [n_add n_mul n_zero float_num].
    by rewrite (sumOfProducts_comm b a).
  - vm_compute. discriminate.
  - vm_compute. reflexivity.
Qed.

End CosineSymmetry.
